(** * SEO recovery platform: a shallow embedding of the analysis engine

    The development follows the layout of the repository:
    - [PyStr], [PyFloat]: the Python string and float operations the code uses;
    - [Matching]: [app/services/matching.py];
    - [Audit]: [app/services/audit.py];
    - [Main]: the comparison engine, the recovery panel, the job table and the
      pipeline of [app/main.py].

    Python [str] values are modelled as [string], every character standing for
    a code point below 256; Python [int] values as [Z]; Python [float] values
    as the primitive binary64 floats of the kernel, so that the arithmetic of
    the embedding rounds exactly as CPython's does.  Library functions of
    Python that the repository calls but does not define ([urllib.parse],
    [difflib], [httpx], [re], [float()], ...) are fields of small interface
    classes; the theorems hold for every implementation of them. *)

From Stdlib Require Import ZArith String Ascii List Bool Lia Sorted Permutation.
From Stdlib Require Import PrimFloat SpecFloat FloatOps FloatAxioms.
From stdpp Require Import gmap strings.

Open Scope string_scope.
Open Scope Z_scope.

(** ** Exceptions *)

(** The exceptions that matter to the control flow of the pipeline.  [AppError]
    and [JobCancelled] are the two classes [main.py] declares; the others are
    raised by library calls. *)
Inductive exn : Type :=
| ValueError (msg : string)
| OverflowError (msg : string)
| ZeroDivisionError (msg : string)
| KeyError (key : string)
| TransportError (msg : string)
| JobCancelled
| AppError (log_id user_message : string) (details : list string).

Inductive res (A : Type) : Type :=
| Ok (a : A)
| Raise (e : exn).
Arguments Ok {A} a.
Arguments Raise {A} e.

Definition res_bind {A B : Type} (m : res A) (k : A -> res B) : res B :=
  match m with
  | Ok a => k a
  | Raise e => Raise e
  end.

Notation "'let*' x ':=' m 'in' k" := (res_bind m (fun x => k))
  (at level 10, x pattern, m at level 100, k at level 200).

Fixpoint res_map {A B : Type} (f : A -> res B) (l : list A) : res (list B) :=
  match l with
  | [] => Ok []
  | x :: r =>
      let* y := f x in
      let* ys := res_map f r in
      Ok (y :: ys)
  end.

Fixpoint res_fold {A S : Type} (f : S -> A -> res S) (l : list A) (s : S) : res S :=
  match l with
  | [] => Ok s
  | x :: r => let* s' := f s x in res_fold f r s'
  end.

Definition is_ok {A : Type} (m : res A) : bool :=
  match m with Ok _ => true | Raise _ => false end.

(** ** Python strings *)

Module PyStr.

(** [str.isspace] on the code points below 256. *)
Definition isspace (c : ascii) : bool :=
  let n := nat_of_ascii c in
  ((9 <=? n)%nat && (n <=? 13)%nat) || ((28 <=? n)%nat && (n <=? 32)%nat)
  || (n =? 133)%nat || (n =? 160)%nat.

(** [str.lower] on one code point below 256: the letters A-Z and the
    Latin-1 capitals (all of 0xC0-0xDE but the multiplication sign). *)
Definition lower_char (c : ascii) : ascii :=
  let n := nat_of_ascii c in
  if ((65 <=? n)%nat && (n <=? 90)%nat)
     || ((192 <=? n)%nat && (n <=? 222)%nat && negb (n =? 215)%nat)
  then ascii_of_nat (n + 32)
  else c.

Fixpoint lower (s : string) : string :=
  match s with
  | EmptyString => EmptyString
  | String c r => String (lower_char c) (lower r)
  end.

Fixpoint rev_onto (s acc : string) : string :=
  match s with
  | EmptyString => acc
  | String c r => rev_onto r (String c acc)
  end.

Definition rev (s : string) : string := rev_onto s EmptyString.

Fixpoint lstrip (s : string) : string :=
  match s with
  | EmptyString => EmptyString
  | String c r => if isspace c then lstrip r else s
  end.

Definition rstrip (s : string) : string := rev (lstrip (rev s)).

(** [s.strip()] *)
Definition strip (s : string) : string := rstrip (lstrip s).

Fixpoint lstrip_char (x : ascii) (s : string) : string :=
  match s with
  | EmptyString => EmptyString
  | String c r => if Ascii.eqb c x then lstrip_char x r else s
  end.

(** [s.rstrip(x)] for a one-character argument. *)
Definition rstrip_char (x : ascii) (s : string) : string :=
  rev (lstrip_char x (rev s)).

(** [s.startswith(p)] *)
Definition startswith (s p : string) : bool := String.prefix p s.

(** [s.startswith((p1, p2, ...))] *)
Definition startswith_any (s : string) (ps : list string) : bool :=
  existsb (startswith s) ps.

(** [s.endswith(p)] *)
Definition endswith (s p : string) : bool := String.prefix (rev p) (rev s).

(** [sub in s] *)
Fixpoint contains (sub s : string) : bool :=
  String.prefix sub s
  || match s with
     | EmptyString => false
     | String _ r => contains sub r
     end.

Fixpoint mem_char (x : ascii) (s : string) : bool :=
  match s with
  | EmptyString => false
  | String c r => Ascii.eqb c x || mem_char x r
  end.

(** [s.rsplit(x, 1)[-1]]: what follows the last [x], all of [s] without one. *)
Fixpoint after_last (x : ascii) (s : string) : string :=
  match s with
  | EmptyString => EmptyString
  | String c r =>
      if mem_char x r then after_last x r
      else if Ascii.eqb c x then r
      else s
  end.

(** [s.split(x)[0]]: what precedes the first [x]. *)
Fixpoint before_first (x : ascii) (s : string) : string :=
  match s with
  | EmptyString => EmptyString
  | String c r => if Ascii.eqb c x then EmptyString else String c (before_first x r)
  end.

(** [s[:-1]] *)
Fixpoint drop_last (s : string) : string :=
  match s with
  | EmptyString => EmptyString
  | String c EmptyString => EmptyString
  | String c r => String c (drop_last r)
  end.

(** [s[:n]] for [n >= 0] *)
Fixpoint take (n : nat) (s : string) : string :=
  match n, s with
  | O, _ => EmptyString
  | S _, EmptyString => EmptyString
  | S k, String c r => String c (take k r)
  end.

(** [sep.join(l)] *)
Fixpoint join (sep : string) (l : list string) : string :=
  match l with
  | [] => EmptyString
  | [x] => x
  | x :: r => x +:+ sep +:+ join sep r
  end.

(** Truthiness of a string: [bool(s)]. *)
Definition nonempty (s : string) : bool :=
  match s with EmptyString => false | _ => true end.

(** [a or b] on strings. *)
Definition or_else (a b : string) : string := if nonempty a then a else b.

End PyStr.

(** ** The URL library *)

(** The fields of [urllib.parse.ParseResult] that the repository reads. *)
Record ParseResult : Type := mkParse {
  scheme : string;
  netloc : string;
  path : string;
  query : string;
  fragment : string
}.

(** [urllib.parse]: [urlparse] raises [ValueError] on some malformed
    authorities; [urljoin] resolves a reference against a base. *)
Class UrlLib : Type := {
  urlparse : string -> res ParseResult;
  urljoin : string -> string -> res string
}.


(** ** Python floats *)

Module PyFloat.

(** An [int] as an exact, not normalised, binary number. *)
Definition Z2SF (n : Z) : spec_float :=
  match n with
  | Z0 => S754_zero false
  | Zpos p => S754_finite false p 0
  | Zneg p => S754_finite true p 0
  end.

(** [a / b] on two [int]s: the binary64 number nearest to the quotient. *)
Definition int_truediv (a b : Z) : res float :=
  if b =? 0 then Raise (ZeroDivisionError "division by zero")
  else
    match SF64div (Z2SF a) (Z2SF b) with
    | S754_infinity _ => Raise (OverflowError "integer division result too large for a float")
    | q => Ok (SF2Prim q)
    end.

(** The integer nearest to [m * 2^e], ties going to the even one. *)
Definition round_half_even (m : positive) (e : Z) : Z :=
  match e with
  | Zneg k =>
      let d := 2 ^ Zpos k in
      let q := Zpos m / d in
      match (2 * (Zpos m mod d) ?= d) with
      | Lt => q
      | Gt => q + 1
      | Eq => if Z.even q then q else q + 1
      end
  | _ => Zpos m * 2 ^ e
  end.

(** [round(x)] with one argument, which returns an [int]. *)
Definition py_round (x : float) : res Z :=
  match Prim2SF x with
  | S754_zero _ => Ok 0
  | S754_finite s m e => Ok (cond_Zopp s (round_half_even m e))
  | S754_infinity _ => Raise (OverflowError "cannot convert float infinity to integer")
  | S754_nan => Raise (ValueError "cannot convert float NaN to integer")
  end.

(** [m * 2^e] with its fraction dropped. *)
Definition truncate (m : positive) (e : Z) : Z :=
  match e with
  | Zneg k => Zpos m / 2 ^ Zpos k
  | _ => Zpos m * 2 ^ e
  end.

(** [int(x)] on a float. *)
Definition py_int (x : float) : res Z :=
  match Prim2SF x with
  | S754_zero _ => Ok 0
  | S754_finite s m e => Ok (cond_Zopp s (truncate m e))
  | S754_infinity _ => Raise (OverflowError "cannot convert float infinity to integer")
  | S754_nan => Raise (ValueError "cannot convert float NaN to integer")
  end.

(** [max(a, b)] on two floats: [b] only when [b > a]. *)
Definition py_max (a b : float) : float := if PrimFloat.ltb a b then b else a.

(** [float(n)] for an [int] that a double holds exactly. *)
Definition of_small_int (n : Z) : float := SF2Prim (binary_normalize prec emax n 0 false).

(** Truthiness of a float. *)
Definition truthy (x : float) : bool := negb (PrimFloat.eqb x 0%float).

End PyFloat.

(** [difflib.SequenceMatcher(None, a, b).ratio()] *)
Class DiffLib : Type := {
  sequence_ratio : string -> string -> float
}.

(** [csv.writer(...).writerow(fields)]: the text of one row, line terminator
    included; [csv.DictReader]: the header and the rows of a text, each row a
    dictionary from header names to values; [bytes.decode("utf-8-sig",
    errors="ignore")]. *)
Class CsvLib : Type := {
  csv_writerow : list string -> string;
  csv_dictreader : string -> list string * list (gmap string string);
  decode_utf8_sig : string -> string
}.

(** [float(s)], [round(x, 2)] and [str(x)] of CPython, which the repository
    calls on metric values. *)
Class NumLib : Type := {
  float_of_string : string -> option float;
  round2 : float -> float;
  str_of_float : float -> string
}.

(** ** Sorting *)

(** [list.sort(key=...)] is stable and compares keys with [<] only; the
    insertion sort below returns the same list whenever [<] is a strict weak
    order on the keys that occur. *)
Section Sort.
Context {A K : Type} (lt : K -> K -> bool) (key : A -> K).

Fixpoint sort_insert (x : A) (l : list A) : list A :=
  match l with
  | [] => [x]
  | y :: r => if lt (key y) (key x) then y :: sort_insert x r else x :: y :: r
  end.

Fixpoint py_sort (l : list A) : list A :=
  match l with
  | [] => []
  | x :: r => sort_insert x (py_sort r)
  end.

End Sort.

(** [list.sort(key=..., reverse=True)]: descending, still stable. *)
Definition py_sort_desc {A K : Type} (lt : K -> K -> bool) (key : A -> K) (l : list A) : list A :=
  py_sort (fun a b => lt b a) key l.

(** [list(dict.fromkeys(l))]: the first occurrence of each element, in order. *)
Fixpoint dedupe_onto (seen l : list string) : list string :=
  match l with
  | [] => []
  | x :: r => if bool_decide (x ∈ seen) then dedupe_onto seen r else x :: dedupe_onto (x :: seen) r
  end.

Definition dedupe (l : list string) : list string := dedupe_onto [] l.

(** [l[:n]] for a Python [int] [n]: a negative [n] counts from the end. *)
Definition py_take {A : Type} (n : Z) (l : list A) : list A :=
  if 0 <=? n then firstn (Z.to_nat n) l
  else firstn (length l - Z.to_nat (- n)) l.

(** Decimal [str(n)] of an [int]. *)
Fixpoint digits_of (fuel : nat) (n : Z) (acc : string) : string :=
  match fuel with
  | O => acc
  | S k =>
      let d := ascii_of_nat (48 + Z.to_nat (n mod 10)) in
      if n <? 10 then String d acc else digits_of k (n / 10) (String d acc)
  end.

Definition str_of_Z (n : Z) : string :=
  if n <? 0 then String "-" (digits_of (S (Z.to_nat (Z.log2 (- n)))) (- n) EmptyString)
  else digits_of (S (Z.to_nat (Z.log2 n))) n EmptyString.

(** ** [app/services/matching.py]: URLs *)

Module Matching.
Section Urls.
Context {U : UrlLib}.

Definition strip_trailing_slash (p : string) : string :=
  if negb (String.eqb p "/") && PyStr.endswith p "/" then PyStr.drop_last p else p.

Definition normalize_url (url : string) : res string :=
  let* parsed := urlparse (PyStr.strip url) in
  let path := PyStr.or_else (path parsed) "/" in
  let path := strip_trailing_slash path in
  Ok (PyStr.lower (scheme parsed) +:+ "://" +:+ PyStr.lower (netloc parsed) +:+ path).

Definition path_of (url : string) : res string :=
  let* parsed := urlparse url in
  let path := PyStr.or_else (path parsed) "/" in
  Ok (strip_trailing_slash path).

Definition infer_type (url : string) : res string :=
  let* p := path_of url in
  let path := PyStr.lower p in
  if PyStr.contains "/products/" path then Ok "product"
  else if PyStr.contains "/collections/" path || PyStr.contains "/category/" path then Ok "category"
  else if PyStr.contains "/blog" path || PyStr.contains "/blogs/" path then Ok "blog"
  else Ok "page".

Definition slug_of (url : string) : res string :=
  let* path := path_of url in
  Ok (PyStr.lower (PyStr.after_last "/" path)).


(** [re.split(r"[-_\s]+", slug)] with the empty pieces dropped: the maximal
    runs of characters that are neither a dash, an underscore nor a space. *)
Definition is_slug_sep (c : ascii) : bool :=
  Ascii.eqb c "-" || Ascii.eqb c "_" || PyStr.isspace c.

Fixpoint split_runs (s cur : string) : list string :=
  match s with
  | EmptyString => if PyStr.nonempty cur then [PyStr.rev cur] else []
  | String c r =>
      if is_slug_sep c
      then (if PyStr.nonempty cur then PyStr.rev cur :: split_runs r EmptyString
            else split_runs r EmptyString)
      else split_runs r (String c cur)
  end.

Definition tokenize_slug (slug : string) : list string := split_runs slug EmptyString.

End Urls.

(** A parsed URL record: [{"url": ..., "type": ...}], the type being optional. *)
Record UrlRow : Type := mkUrlRow {
  row_url : string;
  row_type : option string
}.

(** The dictionary [result_row] builds. *)
Record MatchResult : Type := mkMatch {
  old_url : string;
  new_url : string;
  score : Z;
  reason : string;
  page_type : string;
  old_path : string;
  new_path : string
}.

(** The lookup tables [match_urls] builds from the new rows. *)
Record NewIndex : Type := mkIndex {
  new_by_norm : gmap string string;
  new_by_path : gmap string string;
  new_by_type : gmap string (list string);
  new_all_urls : list string
}.

Section Matcher.
Context {U : UrlLib} {D : DiffLib}.

Definition similarity (a b : string) : float := sequence_ratio a b.

Definition result_row (old_url new_url : string) (score : Z) (reason page_type : string)
  : res MatchResult :=
  let* op := path_of old_url in
  let* np := if PyStr.nonempty new_url then path_of new_url else Ok EmptyString in
  Ok (mkMatch old_url new_url score reason page_type op np).

(** [(row.get("type") or infer_type(url)).lower()] *)
Definition row_page_type (row : UrlRow) : res string :=
  let* t := match row_type row with
            | Some t => if PyStr.nonempty t then Ok t else infer_type (row_url row)
            | None => infer_type (row_url row)
            end in
  Ok (PyStr.lower t).

Definition empty_index : NewIndex :=
  mkIndex empty empty
    (<["product" := []]> (<["category" := []]> (<["page" := []]> (<["blog" := []]> empty))))
    [].

(** One round of the loop over [new_rows]. *)
Definition index_row (idx : NewIndex) (row : UrlRow) : res NewIndex :=
  let url := row_url row in
  let* normalized := normalize_url url in
  let* p := path_of url in
  let* page_type := row_page_type row in
  let page_type := match new_by_type idx !! page_type with
                   | Some _ => page_type
                   | None => "page"
                   end in
  Ok (mkIndex (<[normalized := url]> (new_by_norm idx))
              (<[PyStr.lower p := url]> (new_by_path idx))
              (<[page_type := (default [] (new_by_type idx !! page_type) ++ [url])%list]> (new_by_type idx))
              (new_all_urls idx ++ [url])%list).

Definition build_index (new_rows : list UrlRow) : res NewIndex :=
  res_fold index_row new_rows empty_index.

(** [new_by_type.get(old_type) or new_all_urls] *)
Definition candidates_for (idx : NewIndex) (old_type : string) : list string :=
  match new_by_type idx !! old_type with
  | Some (c :: r) => c :: r
  | _ => new_all_urls idx
  end.

(** [len(old_tokens & cand_tokens) / (len(old_tokens | cand_tokens) or 1)] *)
Definition jaccard (old_slug cand_slug : string) : res float :=
  let old_tokens : gset string := list_to_set (tokenize_slug old_slug) in
  let cand_tokens : gset string := list_to_set (tokenize_slug cand_slug) in
  let n := Z.of_nat (size (union old_tokens cand_tokens)) in
  let union_size := if n =? 0 then 1 else n in
  PyFloat.int_truediv (Z.of_nat (size (intersection old_tokens cand_tokens))) union_size.

Definition combined_score (old_slug cand_slug : string) : res float :=
  let seq_score := similarity old_slug cand_slug in
  let* j := jaccard old_slug cand_slug in
  Ok (seq_score * 0.75 + j * 0.25)%float.

(** One round of the loop over the candidates: the state is
    [(best_target, best_score)]. *)
Definition best_step (old_slug : string) (best : option string * float) (candidate : string)
  : res (option string * float) :=
  let* cand_slug := slug_of candidate in
  let* sc := combined_score old_slug cand_slug in
  if (snd best <? sc)%float then Ok (Some candidate, sc) else Ok best.

Definition best_candidate (old_slug : string) (candidates : list string)
  : res (option string * float) :=
  res_fold (best_step old_slug) candidates (None, 0%float).

(** [int(round(best_score * 100))] *)
Definition percent_of (best_score : float) : res Z := PyFloat.py_round (best_score * 100)%float.

(** Truthiness of [best_target]. *)
Definition target_truthy (t : option string) : bool :=
  match t with Some s => PyStr.nonempty s | None => false end.

(** The slug-similarity stage for one old URL. *)
Definition slug_stage (idx : NewIndex) (old_url old_type old_slug : string) : res MatchResult :=
  let* best := best_candidate old_slug (candidates_for idx old_type) in
  let* percent := percent_of (snd best) in
  if target_truthy (fst best) && (60 <=? percent)
  then result_row old_url (default EmptyString (fst best)) percent "slug_similarity" old_type
  else result_row old_url EmptyString 0 "manual_required" old_type.

(** One round of the loop over [old_rows]. *)
Definition match_row (idx : NewIndex) (row : UrlRow) : res MatchResult :=
  let old_url := row_url row in
  let* old_type := row_page_type row in
  let* old_norm := normalize_url old_url in
  let* old_p := path_of old_url in
  let old_path := PyStr.lower old_p in
  let* old_slug := slug_of old_url in
  match new_by_norm idx !! old_norm with
  | Some target => result_row old_url target 100 "exact_url" old_type
  | None =>
      match new_by_path idx !! old_path with
      | Some target => result_row old_url target 95 "exact_path" old_type
      | None => slug_stage idx old_url old_type old_slug
      end
  end.

Definition match_urls (old_rows new_rows : list UrlRow) : res (list MatchResult) :=
  let* idx := build_index new_rows in
  res_map (match_row idx) old_rows.

End Matcher.

(** A metric record of a snapshot. *)
Record Metrics : Type := mkMetrics {
  clicks : float;
  impressions : float;
  position : float
}.

(** A row of a Search Console export, each column optional. *)
Record GscRow : Type := mkGscRow {
  gsc_url : option string;
  gsc_clicks : option string;
  gsc_impressions : option string;
  gsc_position : option string
}.

Record MatchSummary : Type := mkSummary {
  total_old_urls : Z;
  auto_matched : Z;
  manual_required : Z
}.

(** An entry of [rank_urgent_actions]. *)
Record UrgentAction : Type := mkUrgent {
  ua_old_url : string;
  ua_new_url : string;
  ua_score : Z;
  ua_impact : float;
  ua_reason : string
}.

Section Exports.
Context {U : UrlLib} {C : CsvLib} {N : NumLib}.

Definition with_leading_slash (p : string) : string :=
  if PyStr.startswith p "/" then p else "/" +:+ p.

(** One round of the loop of [build_redirects_csv]: the state is the set
    [seen] and the text written so far. *)
Definition redirect_step (score_threshold : Z) (st : list (string * string) * string)
    (item : MatchResult) : list (string * string) * string :=
  let '(seen, out) := st in
  if score item <? score_threshold then st
  else
    let source := with_leading_slash (PyStr.or_else (old_path item) "/") in
    let target := with_leading_slash (PyStr.or_else (new_path item) "/") in
    if String.eqb source target then st
    else if bool_decide ((source, target) ∈ seen) then st
    else ((source, target) :: seen, out +:+ csv_writerow [source; target]).

Definition build_redirects_csv (matches : list MatchResult) (score_threshold : Z) : string :=
  snd (fold_left (redirect_step score_threshold) matches
         ([], csv_writerow ["Redirect from"; "Redirect to"])).

Definition manual_step (score_threshold : Z) (out : string) (item : MatchResult) : string :=
  if score_threshold <=? score item then out
  else out +:+ csv_writerow [old_url item; new_url item; str_of_Z (score item); reason item].

Definition build_manual_review_csv (matches : list MatchResult) (score_threshold : Z) : string :=
  fold_left (manual_step score_threshold) matches
    (csv_writerow ["old_url"; "onerilen_new_url"; "score"; "reason"]).

Definition summarize_matches (matches : list MatchResult) (score_threshold : Z) : MatchSummary :=
  let total := Z.of_nat (length matches) in
  let auto := Z.of_nat (length (List.filter (fun m => score_threshold <=? score m) matches)) in
  mkSummary total auto (total - auto).

(** [float(row.get(k, d) or d)] guarded by [except ValueError]. *)
Definition gsc_number (v : option string) (d : float) : float :=
  match v with
  | Some s => if PyStr.nonempty s then default d (float_of_string s) else d
  | None => d
  end.

Definition gsc_map_step (m : gmap string Metrics) (row : GscRow) : res (gmap string Metrics) :=
  match gsc_url row with
  | None => Raise (KeyError "url")
  | Some u =>
      let* url := normalize_url u in
      Ok (<[url := mkMetrics (gsc_number (gsc_clicks row) 0)
                             (gsc_number (gsc_impressions row) 0)
                             (gsc_number (gsc_position row) 999)]> m)
  end.

Definition build_gsc_map (gsc_rows : list GscRow) : res (gmap string Metrics) :=
  res_fold gsc_map_step gsc_rows empty.

Definition default_metrics : Metrics := mkMetrics 0 0 999.

Definition urgent_of (gsc_map : gmap string Metrics) (item : MatchResult) : res UrgentAction :=
  let* key := normalize_url (old_url item) in
  let metrics := default default_metrics (gsc_map !! key) in
  let position_bonus := PyFloat.py_max 0 (50 - position metrics)%float in
  let impact := (clicks metrics * 2 + impressions metrics * 0x1.999999999999ap-4
                 + position_bonus)%float in
  let impact := if score item <? 70 then (impact + 25)%float else impact in
  let impact := if PyStr.nonempty (new_url item) then impact else (impact + 25)%float in
  Ok (mkUrgent (old_url item) (new_url item) (score item) (round2 impact) (reason item)).

Definition rank_urgent_actions (matches : list MatchResult) (gsc_map : gmap string Metrics)
  : res (list UrgentAction) :=
  let* ranked := res_map (urgent_of gsc_map) matches in
  Ok (py_take 20 (py_sort_desc PrimFloat.ltb ua_impact ranked)).

End Exports.
End Matching.

(** ** [app/services/audit.py] *)

(** What [httpx] returns for a request that got an answer, redirects
    followed: the status, the decoded body and the final URL. *)
Record Response : Type := mkResponse {
  status_code : Z;
  text : string;
  final : string
}.

(** The network, as the code sees it: a request either raises or returns a
    response, and may change the state [W] of the world.  A thread pool serves
    the requests it is given in some order and hands their results back in
    some order; both are permutations of what was submitted. *)
Class Net (W : Type) : Type := {
  http_get : string -> W -> res Response * W;
  pool_order : list string -> W -> list string;
  completion_order : forall {A : Type}, list A -> W -> list A;
  pool_order_perm : forall l w, Permutation (pool_order l w) l;
  completion_order_perm : forall (A : Type) (l : list A) w, Permutation (completion_order l w) l
}.

Inductive re_flag : Type := IGNORECASE | DOTALL.

(** [re.search(pattern, s, flags)]: the groups of the leftmost match, when
    there is one; [re.findall(pattern, s, flags)] for a pattern with one
    group: that group of every match. *)
Class ReLib : Type := {
  re_search : string -> list re_flag -> string -> option (list string);
  re_findall : string -> list re_flag -> string -> list string
}.

(** [str(exc)] *)
Definition exn_message (e : exn) : string :=
  match e with
  | ValueError m | OverflowError m | ZeroDivisionError m | TransportError m => m
  | KeyError k => "'" +:+ k +:+ "'"
  | JobCancelled => EmptyString
  | AppError _ m _ => m
  end.

(** The double quote, which the patterns below contain. *)
Definition dq : string := String (ascii_of_nat 34) EmptyString.

Module Audit.

Definition EXCLUDED_EXTENSIONS : list string :=
  [".css"; ".js"; ".png"; ".jpg"; ".jpeg"; ".gif"; ".svg"; ".webp"; ".ico"; ".json";
   ".map"; ".woff"; ".woff2"; ".ttf"; ".eot"; ".pdf"; ".zip"].

Definition EXCLUDED_PATH_PARTS : list string := ["/build/"; "/assets/"].

(** An audit dictionary.  [kind] is the key ["type"] that only the robots and
    sitemap checks set; [cause] and [fix] are attached by the annotation. *)
Record AuditItem : Type := mkAudit {
  url : string;
  status : string;
  severity : string;
  issues : string;
  canonical : string;
  final_url : string;
  kind : option string;
  cause : option string;
  fix_ : option string
}.

Definition noindex_pattern : string :=
  "<meta[^>]+name=[" +:+ dq +:+ "\']robots[" +:+ dq +:+ "\'][^>]*noindex".

Definition canonical_pattern : string :=
  "<link[^>]+rel=[" +:+ dq +:+ "\']canonical[" +:+ dq +:+ "\'][^>]+href=[" +:+ dq
  +:+ "\']([^" +:+ dq +:+ "\']+)[" +:+ dq +:+ "\']".

Definition loc_pattern : string := "<loc>(.*?)</loc>".

Definition href_pattern : string :=
  "href=[" +:+ dq +:+ "\']([^" +:+ dq +:+ "\']+)[" +:+ dq +:+ "\']".

Definition classify_severity (issues : list string) : string :=
  if existsb (fun i => bool_decide (i ∈ ["5xx"; "404"; "request_error"])) issues then "critical"
  else if existsb (fun i => bool_decide (i ∈ ["4xx"; "noindex"; "canonical_mismatch"])) issues
  then "warning"
  else "info".

Definition severity_rank (severity : string) : Z :=
  if String.eqb severity "critical" then 0
  else if String.eqb severity "warning" then 1
  else if String.eqb severity "info" then 2
  else 2.

Section Auditor.
Context {U : UrlLib} {R : ReLib} {W : Type} {NW : Net W}.

Definition contains_noindex (html : string) : bool :=
  match re_search noindex_pattern [IGNORECASE] html with
  | Some _ => true
  | None => false
  end.

Definition extract_canonical (html : string) : string :=
  match re_search canonical_pattern [IGNORECASE] html with
  | Some (g :: _) => PyStr.strip g
  | _ => EmptyString
  end.

(** The issues the status code alone gives. *)
Definition status_issues (code : Z) : list string :=
  if code =? 404 then ["404"]
  else if 500 <=? code then ["5xx"]
  else if 400 <=? code then ["4xx"]
  else [].

(** The body of the [try] once the response is there. *)
Definition audit_response (url : string) (response : Response) : res AuditItem :=
  let html := PyStr.or_else (text response) EmptyString in
  let final_url := final response in
  let issues := status_issues (status_code response) in
  let issues := if contains_noindex html then (issues ++ ["noindex"])%list else issues in
  let canonical := extract_canonical html in
  let* issues :=
    if PyStr.nonempty canonical then
      let* nc := Matching.normalize_url canonical in
      let* nf := Matching.normalize_url final_url in
      Ok (if String.eqb nc nf then issues else (issues ++ ["canonical_mismatch"])%list)
    else Ok issues in
  let* nu := Matching.normalize_url url in
  let* nf := Matching.normalize_url final_url in
  let issues := if String.eqb nu nf then issues else (issues ++ ["redirected"])%list in
  Ok (mkAudit url (str_of_Z (status_code response)) (classify_severity issues)
              (PyStr.join ", " issues) canonical final_url None None None).

(** The [except] branch: [base] with what the [try] had stored in it. *)
Definition audit_failure (url canonical : string) (e : exn) : AuditItem :=
  mkAudit url "0" "critical" ("request_error: " +:+ PyStr.take 100 (exn_message e))
          canonical EmptyString None None None.

Definition audit_single_url (url : string) (w : W) : AuditItem * W :=
  match http_get url w with
  | (Raise e, w') => (audit_failure url EmptyString e, w')
  | (Ok response, w') =>
      match audit_response url response with
      | Ok item => (item, w')
      | Raise e =>
          (audit_failure url (extract_canonical (PyStr.or_else (text response) EmptyString)) e,
           w')
      end
  end.

(** The requests of a list of URLs, served one after the other. *)
Fixpoint audit_each (urls : list string) (w : W) : list AuditItem * W :=
  match urls with
  | [] => ([], w)
  | u :: r =>
      let '(item, w1) := audit_single_url u w in
      let '(items, w2) := audit_each r w1 in
      (item :: items, w2)
  end.

(** The sort key [(severity_rank(x["severity"]), x["url"])] and its [<]. *)
Definition audit_key (x : AuditItem) : Z * string := (severity_rank (severity x), url x).

Definition key_lt (a b : Z * string) : bool :=
  (fst a <? fst b) || ((fst a =? fst b) && String.ltb (snd a) (snd b)).

Definition run_quick_audit (urls : list string) (w : W) : list AuditItem * W :=
  let unique_urls := dedupe urls in
  let '(results, w') := audit_each (pool_order unique_urls w) w in
  (py_sort key_lt audit_key (completion_order results w'), w').


Definition fetch_status (url : string) (w : W) : (Z * string) * W :=
  match http_get url w with
  | (Ok response, w') =>
      if 400 <=? status_code response then ((status_code response, "erisim_hatasi"), w')
      else ((status_code response, "ok"), w')
  | (Raise e, w') => ((0, "request_error: " +:+ PyStr.take 100 (exn_message e)), w')
  end.

Definition ensure_site_url (value : string) : res string :=
  let url := PyStr.strip value in
  let url := if PyStr.startswith_any url ["http://"; "https://"] then url
             else "https://" +:+ url in
  let* parsed := urlparse url in
  Ok (PyStr.rstrip_char "/" (scheme parsed +:+ "://" +:+ netloc parsed)).

Definition site_check (label url : string) (w : W) : AuditItem * W :=
  let '((code, issue), w') := fetch_status url w in
  (mkAudit url (str_of_Z code)
           (if (400 <=? code) || (code =? 0) then "critical" else "info")
           issue EmptyString EmptyString (Some label) None None, w').

Definition check_robots_and_sitemap (site_url : string) (w : W) : res (list AuditItem) * W :=
  match ensure_site_url site_url with
  | Raise e => (Raise e, w)
  | Ok site =>
      let '(robots, w1) := site_check "robots.txt" (site +:+ "/robots.txt") w in
      let '(sitemap, w2) := site_check "sitemap.xml" (site +:+ "/sitemap.xml") w1 in
      (Ok [robots; sitemap], w2)
  end.

Definition is_same_domain (url base_url : string) : res bool :=
  let* a := urlparse url in
  let* b := urlparse base_url in
  Ok (String.eqb (PyStr.lower (netloc a)) (PyStr.lower (netloc b))).

(** The path [should_include_url] tests: [(parsed.path or "/").lower()]. *)
Definition filter_path (url : string) : res string :=
  let* parsed := urlparse url in
  Ok (PyStr.lower (PyStr.or_else (path parsed) "/")).

Definition should_include_url (url : string) : res bool :=
  let* path := filter_path url in
  if existsb (fun part => PyStr.contains part path) EXCLUDED_PATH_PARTS then Ok false
  else if existsb (fun ext => PyStr.endswith path ext) EXCLUDED_EXTENSIONS then Ok false
  else Ok true.

(** One round of the loop of [extract_html_links]. *)
Definition link_of_href (page_url : string) (links : list string) (href : string)
  : res (list string) :=
  if negb (PyStr.nonempty href) then Ok links
  else
    let lower := PyStr.strip (PyStr.lower href) in
    if PyStr.startswith_any lower ["#"; "javascript:"; "mailto:"; "tel:"] then Ok links
    else
      let* joined := urljoin page_url href in
      let absolute := PyStr.before_first "#" joined in
      if PyStr.startswith_any absolute ["http://"; "https://"]
      then Ok (links ++ [absolute])%list
      else Ok links.

Definition extract_html_links (html page_url : string) : res (list string) :=
  res_fold (link_of_href page_url) (re_findall href_pattern [IGNORECASE] html) [].

(** One round of the loop over the [<loc>] values of a sitemap: the state
    is [(queue, found)]. *)
Definition loc_step (st : list string * list string) (raw : string)
  : list string * list string :=
  let candidate := PyStr.strip raw in
  if PyStr.endswith candidate ".xml" then ((fst st ++ [candidate])%list, snd st)
  else if PyStr.startswith_any candidate ["http://"; "https://"]
  then (fst st, (snd st ++ [candidate])%list)
  else st.

(** The [while queue] loop of [fetch_sitemap_urls]; [None] when [fuel]
    rounds were not enough. *)
Fixpoint sitemap_loop (fuel : nat) (visited : gset string) (queue found : list string)
    (w : W) : option (list string * W) :=
  match queue with
  | [] => Some (dedupe found, w)
  | sitemap_url :: queue =>
      match fuel with
      | O => None
      | S fuel =>
          if bool_decide (sitemap_url ∈ visited) then sitemap_loop fuel visited queue found w
          else
            let visited := union (singleton sitemap_url) visited in
            match http_get sitemap_url w with
            | (Raise _, w') => sitemap_loop fuel visited queue found w'
            | (Ok response, w') =>
                if 400 <=? status_code response
                then sitemap_loop fuel visited queue found w'
                else
                  let body := PyStr.or_else (text response) EmptyString in
                  let locs := re_findall loc_pattern [IGNORECASE; DOTALL] body in
                  let '(queue, found) := fold_left loc_step locs (queue, found) in
                  sitemap_loop fuel visited queue found w'
            end
      end
  end.

Definition fetch_sitemap_urls (fuel : nat) (base_url : string) (w : W)
  : option (list string * W) :=
  sitemap_loop fuel empty [base_url +:+ "/sitemap.xml"] [] w.

(** One round of the loop over the links of a crawled page. *)
Definition enqueue_link (limit : Z) (base_url : string) (visited : gset string)
    (queue : list string) (link : string) : res (list string) :=
  let* same := is_same_domain link base_url in
  if negb same then Ok queue
  else
    let* inc := should_include_url link in
    if negb inc then Ok queue
    else
      let* link_norm := Matching.normalize_url link in
      if bool_decide (link_norm ∈ visited) then Ok queue
      else
        let queue := (queue ++ [link])%list in
        if limit * 5 <? Z.of_nat (length queue) then Ok (py_take (limit * 5) queue)
        else Ok queue.

(** What [crawl_internal_links] does with a page it received: the new
    [(visited, queue, found)]. *)
Definition crawl_page (limit : Z) (base_url : string) (response : Response)
    (visited : gset string) (queue found : list string)
  : res (gset string * list string * list string) :=
  let final_url := final response in
  let* same := is_same_domain final_url base_url in
  if negb same then Ok (visited, queue, found)
  else if 400 <=? status_code response then Ok (visited, queue, found)
  else
    let* normalized_final := Matching.normalize_url final_url in
    let visited := union (singleton normalized_final) visited in
    let* inc := should_include_url final_url in
    let found := if inc then (found ++ [final_url])%list else found in
    let* links := extract_html_links (PyStr.or_else (text response) EmptyString) final_url in
    let* queue := res_fold (enqueue_link limit base_url visited) links queue in
    Ok (visited, queue, found).

(** The [while queue and len(found) < limit] loop. *)
Fixpoint crawl_loop (fuel : nat) (limit : Z) (base_url : string) (visited : gset string)
    (queue found : list string) (w : W) : option (res (list string) * W) :=
  match queue with
  | [] => Some (Ok (py_take limit (dedupe found)), w)
  | current :: rest =>
      if limit <=? Z.of_nat (length found) then Some (Ok (py_take limit (dedupe found)), w)
      else
        match fuel with
        | O => None
        | S fuel =>
            match Matching.normalize_url current with
            | Raise e => Some (Raise e, w)
            | Ok normalized_current =>
                if bool_decide (normalized_current ∈ visited)
                then crawl_loop fuel limit base_url visited rest found w
                else
                  let visited := union (singleton normalized_current) visited in
                  match http_get current w with
                  | (Raise _, w') => crawl_loop fuel limit base_url visited rest found w'
                  | (Ok response, w') =>
                      match crawl_page limit base_url response visited rest found with
                      | Raise e => Some (Raise e, w')
                      | Ok (visited, queue, found) =>
                          crawl_loop fuel limit base_url visited queue found w'
                      end
                  end
            end
        end
  end.

Definition crawl_internal_links (fuel : nat) (base_url : string) (limit : Z) (w : W)
  : option (res (list string) * W) :=
  crawl_loop fuel limit base_url empty [base_url] [] w.

(** The loop of [discover_site_urls] over the sitemap URLs, with its
    [break]. *)
Fixpoint take_sitemap_urls (limit : Z) (base : string) (urls discovered : list string)
  : res (list string) :=
  match urls with
  | [] => Ok discovered
  | url :: rest =>
      let* same := is_same_domain url base in
      let* keep := if same then should_include_url url else Ok false in
      let discovered := if keep then (discovered ++ [url])%list else discovered in
      if limit <=? Z.of_nat (length discovered) then Ok discovered
      else take_sitemap_urls limit base rest discovered
  end.

Definition discover_site_urls (fuel : nat) (site_url : string) (limit : Z) (w : W)
  : option (res (list string) * W) :=
  match ensure_site_url site_url with
  | Raise e => Some (Raise e, w)
  | Ok base =>
      match fetch_sitemap_urls fuel base w with
      | None => None
      | Some (sitemap_urls, w1) =>
          match take_sitemap_urls limit base sitemap_urls [] with
          | Raise e => Some (Raise e, w1)
          | Ok discovered =>
              if limit <=? Z.of_nat (length discovered)
              then Some (Ok (py_take limit (dedupe discovered)), w1)
              else
                match crawl_internal_links fuel base limit w1 with
                | None => None
                | Some (Raise e, w2) => Some (Raise e, w2)
                | Some (Ok crawled_urls, w2) =>
                    Some (Ok (py_take limit (dedupe (discovered ++ crawled_urls))), w2)
                end
          end
      end
  end.

End Auditor.
End Audit.

(** ** [app/services/csv_utils.py] *)

Module CsvUtils.
Section Parse.
Context {U : UrlLib} {C : CsvLib}.

Definition ensure_url_scheme (value : string) : string :=
  if negb (PyStr.nonempty value) then value
  else if PyStr.startswith_any value ["http://"; "https://"] then value
  else "https://" +:+ value.

(** [{f.strip().lower(): f for f in reader.fieldnames if f}] *)
Definition normalized_fields (fieldnames : list string) : gmap string string :=
  fold_left (fun m f => if PyStr.nonempty f then <[PyStr.lower (PyStr.strip f) := f]> m else m)
            fieldnames empty.

(** [row.get(field) or ""] *)
Definition cell (row : gmap string string) (field : string) : string :=
  default EmptyString (row !! field).

Definition invalid_url (url : string) : res bool :=
  let* parsed := urlparse url in
  Ok (negb (PyStr.nonempty (scheme parsed)) || negb (PyStr.nonempty (netloc parsed))).

(** One round of the loop of [parse_csv_file]; the state is
    [(idx, rows, errors)]. *)
Definition csv_row_step (label url_field : string) (type_field : option string)
    (st : Z * list Matching.UrlRow * list string) (row : gmap string string)
  : res (Z * list Matching.UrlRow * list string) :=
  let '(idx, rows, errors) := st in
  let raw_url := PyStr.strip (cell row url_field) in
  if negb (PyStr.nonempty raw_url) then Ok (idx + 1, rows, errors)
  else
    let url := ensure_url_scheme raw_url in
    let record :=
      Matching.mkUrlRow url
        (match type_field with
         | Some f => Some (PyStr.lower (PyStr.strip (cell row f)))
         | None => None
         end) in
    let* bad := invalid_url url in
    Ok (idx + 1, (rows ++ [record])%list,
        if bad
        then (errors ++ [label +:+ ": " +:+ str_of_Z idx +:+ ". satirdaki URL gecersiz ("
                         +:+ raw_url +:+ ")"])%list
        else errors).

Definition parse_csv_file (raw label : string) : res (list Matching.UrlRow * list string) :=
  let text := decode_utf8_sig raw in
  let '(fieldnames, records) := csv_dictreader text in
  match fieldnames with
  | [] => Ok ([], [label +:+ ": CSV baslik satiri bulunamadi."])
  | _ =>
      let fields := normalized_fields fieldnames in
      match fields !! "url" with
      | None => Ok ([], [label +:+ ": 'url' kolonu zorunludur."])
      | Some url_field =>
          let* st := res_fold (csv_row_step label url_field (fields !! "type")) records
                              (2, [], []) in
          Ok (snd (fst st), snd st)
      end
  end.

(** [(row.get(fields.get(k, ""), "") or d).strip() if fields.get(k) else d] *)
Definition gsc_cell (fields : gmap string string) (row : gmap string string) (k d : string)
  : string :=
  match fields !! k with
  | Some f => if PyStr.nonempty f then PyStr.strip (PyStr.or_else (cell row f) d) else d
  | None => d
  end.

Definition gsc_row_step (fields : gmap string string) (url_field : string)
    (st : Z * list Matching.GscRow * list string) (row : gmap string string)
  : res (Z * list Matching.GscRow * list string) :=
  let '(idx, rows, errors) := st in
  let url := ensure_url_scheme (PyStr.strip (cell row url_field)) in
  if negb (PyStr.nonempty url) then Ok (idx + 1, rows, errors)
  else
    let record :=
      Matching.mkGscRow (Some url) (Some (gsc_cell fields row "clicks" "0"))
        (Some (gsc_cell fields row "impressions" "0"))
        (Some (gsc_cell fields row "position" "999")) in
    let* bad := invalid_url url in
    Ok (idx + 1, (rows ++ [record])%list,
        if bad
        then (errors ++ ["GSC CSV: " +:+ str_of_Z idx +:+ ". satirdaki URL gecersiz."])%list
        else errors).

Definition parse_gsc_csv (raw : string) : res (list Matching.GscRow * list string) :=
  let text := decode_utf8_sig raw in
  let '(fieldnames, records) := csv_dictreader text in
  match fieldnames with
  | [] => Ok ([], ["GSC CSV: baslik satiri bulunamadi."])
  | _ =>
      let fields := normalized_fields fieldnames in
      match fields !! "url" with
      | None => Ok ([], ["GSC CSV: 'url' kolonu zorunludur."])
      | Some url_field =>
          let* st := res_fold (gsc_row_step fields url_field) records (2, [], []) in
          Ok (snd (fst st), snd st)
      end
  end.

End Parse.
End CsvUtils.

(** ** [app/main.py] *)

Module Main.
Import Matching Audit.

(** [FEATURE_FLAGS], read from the environment when the module is loaded. *)
Record FeatureFlags : Type := mkFlags {
  ASYNC_ANALYSIS : bool;
  CANCEL_JOB : bool;
  RECOVERY_PANEL : bool
}.

(** [flag_enabled], on the value of the environment variable. *)
Definition flag_enabled (value : option string) (default : bool) : bool :=
  match value with
  | None => default
  | Some v => bool_decide (PyStr.lower (PyStr.strip v) ∈ ["1"; "true"; "yes"; "on"])
  end.

Record ComparisonRow : Type := mkRow {
  c_old_url : string;
  c_new_url : string;
  before_clicks : float;
  after_clicks : float;
  click_delta : float;
  before_position : float;
  after_position : float;
  position_delta : float;
  c_status : string;
  c_reason : string
}.

(** A comparison row with its [lost_clicks]. *)
Record UnresolvedRow : Type := mkUnresolved {
  u_row : ComparisonRow;
  lost_clicks : float
}.

Record Panel : Type := mkPanel {
  day : Z;
  recovery_rate : Z;
  recovering_count : Z;
  unresolved_count : Z
}.

(** An entry of [build_audit_urgent_actions]. *)
Record AuditAction : Type := mkAction {
  a_old_url : string;
  a_new_url : string;
  a_score : string;
  a_impact : Z;
  a_reason : string;
  a_cause : string;
  a_fix : string
}.

Section Comparison.
Context {U : UrlLib} {N : NumLib} {C : CsvLib}.

Definition safe_float (value : option string) (default : float) : float :=
  match value with
  | Some s => match float_of_string s with Some x => x | None => default end
  | None => default
  end.

Definition metric_map_step (out : gmap string Metrics) (row : GscRow)
  : res (gmap string Metrics) :=
  let* key := normalize_url (default EmptyString (gsc_url row)) in
  if negb (PyStr.nonempty key) then Ok out
  else Ok (<[key := mkMetrics (safe_float (gsc_clicks row) 0)
                              (safe_float (gsc_impressions row) 0)
                              (safe_float (gsc_position row) 999)]> out).

Definition build_gsc_metric_map (gsc_rows : list GscRow) : res (gmap string Metrics) :=
  res_fold metric_map_step gsc_rows empty.

Definition pick_metric (map_data : gmap string Metrics) (primary_url fallback_url : string)
  : res Metrics :=
  let* primary_key := normalize_url primary_url in
  let* fallback_key := if PyStr.nonempty fallback_url then normalize_url fallback_url
                       else Ok EmptyString in
  match map_data !! primary_key with
  | Some m => Ok m
  | None =>
      match (if PyStr.nonempty fallback_key then map_data !! fallback_key else None) with
      | Some m => Ok m
      | None => Ok default_metrics
      end
  end.

Definition compare_status (before after : Metrics) (item : MatchResult)
    (analysis_mode : string) : string :=
  if String.eqb analysis_mode "migration" && (score item <? 70) then "manual_gerekli"
  else if (clicks before =? 0)%float && (0 <? clicks after)%float then "yeni_toparlaniyor"
  else
    let click_ok := (clicks before * 0x1.ccccccccccccdp-1 <=? clicks after)%float in
    let position_ok := (position after <=? position before + 0x1.3333333333333p-2)%float in
    if click_ok || position_ok then "toparlaniyor"
    else "duzeltildi_ama_toparlanmadi".

(** The row of one match, and its entry of the unresolved list if it has one. *)
Definition comparison_of (gsc_before_map gsc_after_map : gmap string Metrics)
    (analysis_mode : string) (item : MatchResult)
  : res (ComparisonRow * option UnresolvedRow) :=
  let* before := pick_metric gsc_before_map (old_url item) (new_url item) in
  let* after := pick_metric gsc_after_map (new_url item) (old_url item) in
  let click_delta := (clicks after - clicks before)%float in
  let position_delta := (position before - position after)%float in
  let status := compare_status before after item analysis_mode in
  let row := mkRow (old_url item) (new_url item)
                   (round2 (clicks before)) (round2 (clicks after)) (round2 click_delta)
                   (round2 (position before)) (round2 (position after))
                   (round2 position_delta) status (reason item) in
  Ok (row,
      if String.eqb status "duzeltildi_ama_toparlanmadi"
      then Some (mkUnresolved row (round2 (clicks before - clicks after)%float))
      else None).

Definition build_comparison_rows (matches : list MatchResult)
    (gsc_before_map gsc_after_map : gmap string Metrics) (analysis_mode : string)
  : res (list ComparisonRow * list UnresolvedRow) :=
  if bool_decide (gsc_before_map = empty) || bool_decide (gsc_after_map = empty)
  then Ok ([], [])
  else
    let* pairs := res_map (comparison_of gsc_before_map gsc_after_map analysis_mode) matches in
    Ok (py_sort_desc PrimFloat.ltb (fun x => PrimFloat.abs (click_delta x)) (map fst pairs),
        py_sort_desc PrimFloat.ltb lost_clicks (omap snd pairs)).

Definition is_recovering (r : ComparisonRow) : bool :=
  bool_decide (c_status r ∈ ["toparlaniyor"; "yeni_toparlaniyor"]).

(** [int(round((recovering / max(1, total)) * 100))] *)
Definition base_rate_of (recovering total : Z) : res Z :=
  let* q := PyFloat.int_truediv recovering (Z.max 1 total) in
  PyFloat.py_round (q * 100)%float.

Definition build_recovery_panel (comparison_rows : list ComparisonRow) : res (list Panel) :=
  match comparison_rows with
  | [] => Ok []
  | _ =>
      let total := Z.of_nat (length comparison_rows) in
      let recovering := Z.of_nat (length (List.filter is_recovering comparison_rows)) in
      let unresolved :=
        Z.of_nat (length (List.filter (fun r => String.eqb (c_status r) "duzeltildi_ama_toparlanmadi")
                                 comparison_rows)) in
      let* base_rate := base_rate_of recovering total in
      Ok (map (fun '(day, bonus) =>
                 mkPanel day (Z.min 100 (base_rate + bonus)) recovering unresolved)
              [(7, 5); (14, 10); (30, 18)])
  end.

Definition build_comparison_csv (rows : list ComparisonRow) : string :=
  fold_left
    (fun out r =>
       out +:+ csv_writerow
         [c_old_url r; c_new_url r; str_of_float (before_clicks r);
          str_of_float (after_clicks r); str_of_float (click_delta r);
          str_of_float (before_position r); str_of_float (after_position r);
          str_of_float (position_delta r); c_status r; c_reason r])
    rows
    (csv_writerow ["old_url"; "new_url"; "before_clicks"; "after_clicks"; "click_delta";
                   "before_position"; "after_position"; "position_delta"; "status"; "reason"]).

End Comparison.

Definition diagnose_issue (item : AuditItem) : string * string :=
  let issues := PyStr.lower (issues item) in
  let status := status item in
  let url := url item in
  if PyStr.contains "request_error" issues then
    ("Sunucuya baglanti kurulamadi veya zaman asimi olustu.",
     "Domain/DNS/SSL erisimini kontrol et. Hosting aktif mi bak. Sonra tekrar tarama yap.")
  else if PyStr.contains "404" issues then
    if PyStr.endswith url "/sitemap.xml" then
      ("Sitemap dosyasi bulunamiyor.",
       "Dogru domaini primary olarak ayarla. Ardindan /sitemap.xml aciliyor mu kontrol et ve Search Console'a gonder.")
    else
      ("URL bulunamiyor (404).",
       "Sayfa tasindiysa 301 redirect tanimla. Silinmediyse sayfayi geri yayinla.")
  else if PyStr.contains "5xx" issues then
    ("Sunucu hatasi (5xx) var.",
     "Hosting loglarini kontrol et. Uygulama/tema hatasini duzeltip URL'i tekrar test et.")
  else if PyStr.contains "noindex" issues then
    ("Sayfa noindex etiketli oldugu icin Google'a kapanmis.",
     "Meta robots veya HTTP header'daki noindex'i kaldir. Sonra Search Console'da tekrar index iste.")
  else if PyStr.contains "canonical_mismatch" issues then
    ("Canonical farkli bir URL'e isaret ediyor.",
     "Canonical etiketini bu sayfanin dogru final URL'ine guncelle.")
  else if PyStr.startswith status "4" then
    ("Istemci hatasi (4xx) olustu.",
     "URL yazimini, yetki kurallarini ve yonlendirmeleri kontrol et.")
  else if PyStr.startswith status "5" then
    ("Sunucu yanit veremedi (5xx).",
     "Sunucu logu ve uygulama hatalarini kontrol edip tekrar yayinla.")
  else ("Sorun gorunmuyor.", "Aksiyon gerekmiyor.").

Definition annotate_audit_items (audit_results : list AuditItem) : list AuditItem :=
  map (fun item =>
         let '(c, f) := diagnose_issue item in
         mkAudit (url item) (status item) (severity item) (issues item) (canonical item)
                 (final_url item) (kind item) (Some c) (Some f))
      audit_results.

Definition urgent_of_audit (item : AuditItem) : AuditAction :=
  let severity := severity item in
  let issues := issues item in
  let sev_points := if String.eqb severity "critical" then 100
                    else if String.eqb severity "warning" then 60 else 20 in
  let issue_points := 0 in
  let issue_points := if PyStr.contains "404" issues then issue_points + 30 else issue_points in
  let issue_points := if PyStr.contains "5xx" issues then issue_points + 40 else issue_points in
  let issue_points := if PyStr.contains "noindex" issues then issue_points + 25
                      else issue_points in
  let issue_points := if PyStr.contains "canonical_mismatch" issues then issue_points + 15
                      else issue_points in
  let issue_points := if PyStr.contains "request_error" issues then issue_points + 35
                      else issue_points in
  mkAction (url item) (final_url item) (status item) (sev_points + issue_points)
           (PyStr.or_else issues "ok") (default EmptyString (cause item))
           (default EmptyString (fix_ item)).

Definition build_audit_urgent_actions (audit_results : list AuditItem) : list AuditAction :=
  py_take 20 (py_sort_desc Z.ltb a_impact (map urgent_of_audit audit_results)).

(** *** The pipeline *)

(** [perform_analysis] is written against its collaborators: the two
    callbacks, the three functions of [services.audit] that [main.py]
    imports, and [uuid4].  A program is the tree of its calls to them. *)
Inductive prog (A : Type) : Type :=
| Ret (a : A)
| Throw (e : exn)
| Progress (percent : Z) (message : string) (k : prog A)
| CheckCancel (k : prog A)
| Discover (site_url : string) (limit : Z) (k : list string -> prog A)
| QuickAudit (urls : list string) (k : list AuditItem -> prog A)
| RobotsCheck (site_url : string) (k : list AuditItem -> prog A)
| Uuid4 (k : string -> prog A).
Arguments Ret {A} a.
Arguments Throw {A} e.
Arguments Progress {A} percent message k.
Arguments CheckCancel {A} k.
Arguments Discover {A} site_url limit k.
Arguments QuickAudit {A} urls k.
Arguments RobotsCheck {A} site_url k.
Arguments Uuid4 {A} k.

Fixpoint pbind {A B : Type} (m : prog A) (f : A -> prog B) : prog B :=
  match m with
  | Ret a => f a
  | Throw e => Throw e
  | Progress p msg k => Progress p msg (pbind k f)
  | CheckCancel k => CheckCancel (pbind k f)
  | Discover s l k => Discover s l (fun r => pbind (k r) f)
  | QuickAudit us k => QuickAudit us (fun r => pbind (k r) f)
  | RobotsCheck s k => RobotsCheck s (fun r => pbind (k r) f)
  | Uuid4 k => Uuid4 (fun r => pbind (k r) f)
  end.

Notation "'let+' x ':=' m 'in' k" := (pbind m (fun x => k))
  (at level 10, x pattern, m at level 100, k at level 200).

Definition lift {A : Type} (r : res A) : prog A :=
  match r with
  | Ok a => Ret a
  | Raise e => Throw e
  end.

(** [progress(p, msg)] and [cancel()] as statements. *)
Definition progress (p : Z) (msg : string) : prog unit := Progress p msg (Ret tt).
Definition cancel : prog unit := CheckCancel (Ret tt).

(** [raise AppError(user_message, details)]: the constructor draws the
    log id. *)
Definition raise_app_error {A : Type} (user_message : string) (details : list string) : prog A :=
  Uuid4 (fun id => Throw (AppError (PyStr.take 8 id) user_message details)).

Fixpoint pfold {A S : Type} (f : S -> A -> prog S) (l : list A) (s : S) : prog S :=
  match l with
  | [] => Ret s
  | x :: r => let+ s' := f s x in pfold f r s'
  end.

Record Context : Type := mkContext {
  summary : MatchSummary;
  critical_issues : Z;
  ctx_matches : list MatchResult;
  urgent_actions : list UrgentAction + list AuditAction;
  audit_results : list AuditItem;
  ctx_site_url : string;
  ctx_run_audit : bool;
  analysis_mode : string;
  comparison_rows : list ComparisonRow;
  unresolved_rows : list UnresolvedRow;
  recovery_panel : list Panel;
  ctx_flags : FeatureFlags;
  ctx_job_id : option string
}.

Record Package : Type := mkPackage {
  context : Context;
  redirects_csv : string;
  manual_csv : string;
  compare_csv : string
}.

(** What the input stage hands on. *)
Record Inputs : Type := mkInputs {
  in_old_rows : list UrlRow;
  in_new_rows : list UrlRow;
  in_errors : list string;
  in_mode : string;
  in_run_audit : bool
}.

Section Pipeline.
Context {U : UrlLib} {D : DiffLib} {N : NumLib} {C : CsvLib}.
Variable flags : FeatureFlags.

(** [max(10, min(crawl_limit, 2000))] and [max(1, min(audit_limit, 500))] *)
Definition crawl_cap (crawl_limit : Z) : Z := Z.max 10 (Z.min crawl_limit 2000).
Definition audit_cap (audit_limit : Z) : Z := Z.max 1 (Z.min audit_limit 500).

Definition scan_row (url : string) : res UrlRow :=
  let* t := infer_type url in Ok (mkUrlRow url (Some t)).

(** Lines 372-394: the URL lists, from the two files or from the crawl. *)
Definition read_inputs (old_raw new_raw site_url : string) (run_audit crawl_site : bool)
    (crawl_limit : Z) : prog Inputs :=
  let+ _ := progress 10 "Girdi dosyalari okunuyor." in
  if PyStr.nonempty old_raw && PyStr.nonempty new_raw then
    let+ pr := lift (CsvUtils.parse_csv_file old_raw "Eski URL dosyasi") in
    let '(old_rows, old_errors) := pr in
    let+ pr := lift (CsvUtils.parse_csv_file new_raw "Yeni URL dosyasi") in
    let '(new_rows, new_errors) := pr in
    Ret (mkInputs old_rows new_rows (old_errors ++ new_errors)%list "migration" run_audit)
  else if crawl_site && PyStr.nonempty (PyStr.strip site_url) then
    let+ _ := progress 20 "Site URL'leri bulunuyor (sitemap + ic link taramasi)." in
    let+ _ := cancel in
    let cap := crawl_cap crawl_limit in
    Discover site_url cap (fun discovered =>
      let errors :=
        match discovered with
        | [] => ["Site URL ile otomatik taramada URL bulunamadi. Site erisimi, robots veya sitemap kontrol edin."]
        | _ => []
        end in
      let+ new_rows := lift (res_map scan_row discovered) in
      Ret (mkInputs new_rows new_rows errors "scan" true))
  else
    Ret (mkInputs [] [] ["CSV gecis analizi icin eski ve yeni URL dosyalari gereklidir.";
                        "Alternatif olarak 'Siteyi otomatik tara' secenegini acip Site URL girebilirsin."]
                  "migration" run_audit).

Definition read_gsc (raw : string) (errors : list string)
  : prog (list GscRow * list string) :=
  if PyStr.nonempty raw then
    let+ pr := lift (CsvUtils.parse_gsc_csv raw) in
    let '(rows, errs) := pr in
    Ret (rows, (errors ++ errs)%list)
  else Ret ([], errors).

(** Lines 403-408: the last two checks and the [raise]. *)
Definition validate (inp : Inputs) (errors : list string) : prog unit :=
  let errors := match in_old_rows inp with
                | [] => (errors ++ ["Eski URL listesi bos veya gecersiz."])%list
                | _ => errors
                end in
  let errors := match in_new_rows inp with
                | [] => (errors ++ ["Yeni URL listesi bos veya gecersiz."])%list
                | _ => errors
                end in
  match errors with
  | [] => Ret tt
  | _ => raise_app_error "Analiz baslatilamadi." errors
  end.

Definition scan_match (item : UrlRow) : res MatchResult :=
  let* t := match row_type item with
            | Some t => if PyStr.nonempty t then Ok t else infer_type (row_url item)
            | None => infer_type (row_url item)
            end in
  result_row (row_url item) (row_url item) 100 "site_scan" t.

(** Lines 412-415. *)
Definition analysis_matches (mode : string) (old_rows new_rows : list UrlRow)
  : res (list MatchResult) :=
  if String.eqb mode "migration" then match_urls old_rows new_rows
  else res_map scan_match old_rows.

(** [range(0, n, 40)] *)
Definition batch_starts (n : nat) : list nat :=
  map (fun i => (40 * i)%nat) (seq 0 ((n + 39) / 40)).

(** One round of the loop over the batches. *)
Definition audit_batch (urls : list string) (audit_results : list AuditItem) (idx : nat)
  : prog (list AuditItem) :=
  let+ _ := cancel in
  let batch := firstn 40 (skipn idx urls) in
  QuickAudit batch (fun results =>
    let audit_results := (audit_results ++ results)%list in
    let+ q := lift (PyFloat.int_truediv (Z.of_nat (idx + length batch))
                                        (Z.max 1 (Z.of_nat (length urls)))) in
    let+ part := lift (PyFloat.py_int (q * 15)%float) in
    let+ _ := progress (Z.min 88 (70 + part)) "Teknik audit devam ediyor..." in
    Ret audit_results).

(** Lines 425-441: the audit stage. *)
Definition audit_stage (run_audit : bool) (audit_limit : Z) (new_rows : list UrlRow)
    (site_url : string) : prog (list AuditItem) :=
  if run_audit then
    let+ _ := progress 70 "Teknik audit yapiliyor (404, noindex, canonical, robots, sitemap)." in
    let cap := audit_cap audit_limit in
    let urls := py_take cap (map row_url new_rows) in
    let+ audit_results := pfold (audit_batch urls) (batch_starts (length urls)) [] in
    let+ audit_results :=
      if PyStr.nonempty (PyStr.strip site_url) then
        let+ _ := cancel in
        RobotsCheck site_url (fun checks => Ret (audit_results ++ checks)%list)
      else Ret audit_results in
    Ret (annotate_audit_items audit_results)
  else Ret [].

(** Lines 445-467: the comparison and the package. *)
Definition report_stage (site_url : string) (run_audit : bool) (mode : string)
    (matches : list MatchResult) (summary : MatchSummary)
    (gsc_before_map gsc_after_map : gmap string Metrics)
    (urgent : list UrgentAction + list AuditAction)
    (redirects_csv manual_csv : string) (audit_results : list AuditItem) : prog Package :=
  let+ _ := progress 90 "Rapor hazirlaniyor." in
  let+ _ := cancel in
  let+ pr :=
    lift (build_comparison_rows matches gsc_before_map gsc_after_map mode) in
  let '(comparison_rows, unresolved_rows) := pr in
  let+ recovery_panel :=
    if RECOVERY_PANEL flags then lift (build_recovery_panel comparison_rows) else Ret [] in
  let compare_csv := build_comparison_csv comparison_rows in
  let critical_issues :=
    Z.of_nat (length (List.filter (fun item => String.eqb (severity item) "critical")
                             audit_results)) in
  Ret (mkPackage
         (mkContext summary critical_issues (py_take 100 matches) urgent
                    (py_take 200 audit_results) site_url run_audit mode
                    (py_take 200 comparison_rows) (py_take 100 unresolved_rows)
                    recovery_panel flags None)
         redirects_csv manual_csv compare_csv).

(** Lines 410-467: everything after the validation. *)
Definition analyse (inp : Inputs) (gsc_before_rows gsc_after_rows : list GscRow)
    (site_url : string) (audit_limit : Z) : prog Package :=
  let mode := in_mode inp in
  let migration := String.eqb mode "migration" in
  let+ _ := progress 45 "URL eslestirme ve onceliklendirme yapiliyor." in
  let+ _ := cancel in
  let+ matches := lift (analysis_matches mode (in_old_rows inp) (in_new_rows inp)) in
  let summary := summarize_matches matches 70 in
  let+ gsc_before_map := lift (build_gsc_metric_map gsc_before_rows) in
  let+ gsc_after_map := lift (build_gsc_metric_map gsc_after_rows) in
  let+ ranked := if migration then lift (rank_urgent_actions matches gsc_before_map)
                 else Ret [] in
  let redirects_csv := if migration then build_redirects_csv matches 70
                       else "Redirect from,Redirect to" +:+ String "013" (String "010" EmptyString) in
  let manual_csv := if migration then build_manual_review_csv matches 70
                    else "old_url,onerilen_new_url,score,reason"
                         +:+ String "013" (String "010" EmptyString) in
  let+ audit_results := audit_stage (in_run_audit inp) audit_limit (in_new_rows inp) site_url in
  let urgent := if String.eqb mode "scan" then inr (build_audit_urgent_actions audit_results)
                else inl ranked in
  report_stage site_url (in_run_audit inp) mode matches summary gsc_before_map gsc_after_map
               urgent redirects_csv manual_csv audit_results.

Definition perform_analysis (old_raw new_raw gsc_before_raw gsc_after_raw site_url : string)
    (run_audit : bool) (audit_limit : Z) (crawl_site : bool) (crawl_limit : Z)
  : prog Package :=
  let+ inp := read_inputs old_raw new_raw site_url run_audit crawl_site crawl_limit in
  let+ pr := read_gsc gsc_before_raw (in_errors inp) in
  let '(gsc_before_rows, errors) := pr in
  let+ pr := read_gsc gsc_after_raw errors in
  let '(gsc_after_rows, errors) := pr in
  let+ _ := validate inp errors in
  analyse inp gsc_before_rows gsc_after_rows site_url audit_limit.

End Pipeline.

(** *** The job table *)

(** An entry of [JOBS].  A key that a dictionary of the code can lack is
    given the value the code reads for it when it is missing. *)
Record Job : Type := mkJob {
  j_status : string;
  j_progress : Z;
  j_message : string;
  j_error : string;
  j_log_id : string;
  j_created_at : string;
  j_started_epoch : float;
  j_eta_seconds : option Z;
  j_cancel_requested : bool;
  j_can_cancel : bool
}.

(** The empty dictionary [JOBS.get(job_id, {})] falls back to. *)
Definition no_job : Job :=
  mkJob EmptyString 0 EmptyString EmptyString EmptyString EmptyString 0 None false false.

(** The keyword arguments of a call of [update_job]: every call passes
    [status], [progress] and [message]. *)
Record JobUpdate : Type := mkUpdate {
  u_status : string;
  u_progress : Z;
  u_message : string;
  u_error : option string;
  u_log_id : option string;
  u_eta_seconds : option Z
}.

(** [current.update(kwargs)] *)
Definition apply_update (u : JobUpdate) (j : Job) : Job :=
  mkJob (u_status u) (u_progress u) (u_message u)
        (default (j_error j) (u_error u)) (default (j_log_id j) (u_log_id u))
        (j_created_at j) (j_started_epoch j)
        (match u_eta_seconds u with Some e => Some e | None => j_eta_seconds j end)
        (j_cancel_requested j) (j_can_cancel j).

Definition set_eta (eta : Z) (j : Job) : Job :=
  mkJob (j_status j) (j_progress j) (j_message j) (j_error j) (j_log_id j) (j_created_at j)
        (j_started_epoch j) (Some eta) (j_cancel_requested j) (j_can_cancel j).

(** [int((elapsed / progress) * (100 - progress))] with
    [elapsed = max(1.0, now - started)]. *)
Definition eta_estimate (now started : float) (progress : Z) : res Z :=
  let elapsed := PyFloat.py_max 1 (now - started)%float in
  PyFloat.py_int (elapsed / PyFloat.of_small_int progress
                  * PyFloat.of_small_int (100 - progress))%float.

(** [update_job], at time [now].  [current] is the dictionary of the table
    itself when the job exists, so what [update] wrote stays written even
    when the estimate raises. *)
Definition update_job (now : float) (job_id : string) (u : JobUpdate)
    (jobs : gmap string Job) : res unit * gmap string Job :=
  let current := apply_update u (default no_job (jobs !! job_id)) in
  let progress := j_progress current in
  let started := j_started_epoch current in
  if (0 <? started)%float && (0 <? progress) && (progress <? 100)
     && String.eqb (j_status current) "running"
  then
    match eta_estimate now started progress with
    | Ok eta => (Ok tt, <[job_id := set_eta (Z.max 1 eta) current]> jobs)
    | Raise e => (Raise e, match jobs !! job_id with
                           | Some _ => <[job_id := current]> jobs
                           | None => jobs
                           end)
    end
  else if 100 <=? progress then (Ok tt, <[job_id := set_eta 0 current]> jobs)
  else (Ok tt, <[job_id := current]> jobs).

Definition check_cancel (flags : FeatureFlags) (job_id : string) (jobs : gmap string Job)
  : res unit :=
  if j_cancel_requested (default no_job (jobs !! job_id)) && CANCEL_JOB flags
  then Raise JobCancelled
  else Ok tt.

Definition is_terminal (status : string) : bool :=
  bool_decide (status ∈ ["done"; "error"; "cancelled"]).

Definition request_cancel (j : Job) : Job :=
  mkJob (j_status j) (j_progress j) "Iptal islemi siraya alindi..." (j_error j) (j_log_id j)
        (j_created_at j) (j_started_epoch j) (j_eta_seconds j) true (j_can_cancel j).

(** [POST /analyze/cancel/{job_id}]: the ["status"] of the answer, its HTTP
    status and the table afterwards. *)
Definition analyze_cancel (flags : FeatureFlags) (job_id : string) (jobs : gmap string Job)
  : (string * Z) * gmap string Job :=
  if negb (CANCEL_JOB flags) then (("disabled", 403), jobs)
  else
    match jobs !! job_id with
    | None => (("not_found", 404), jobs)
    | Some job =>
        if is_terminal (j_status job) then (("finished", 200), jobs)
        else (("cancelling", 200), <[job_id := request_cancel job]> jobs)
    end.

(** [GET /analyze/status/{job_id}]: the job and, once it is done, the
    URL of its result. *)
Definition analyze_status (job_id : string) (jobs : gmap string Job)
  : option (Job * option string) :=
  match jobs !! job_id with
  | None => None
  | Some job =>
      Some (job, if String.eqb (j_status job) "done" then Some ("/result/" +:+ job_id)
                 else None)
  end.

(** The entry [analyze_start] creates. *)
Definition new_job (flags : FeatureFlags) (created_at : string) (started_epoch : float) : Job :=
  mkJob "running" 5 "Analiz siraya alindi." EmptyString EmptyString created_at started_epoch
        None false (CANCEL_JOB flags).

(** The arguments of [run_analysis_job]. *)
Record Request : Type := mkRequest {
  r_old_raw : string;
  r_new_raw : string;
  r_gsc_before_raw : string;
  r_gsc_after_raw : string;
  r_site_url : string;
  r_run_audit : bool;
  r_audit_limit : Z;
  r_crawl_site : bool;
  r_crawl_limit : Z
}.

(** [AppError.to_status_error] *)
Definition to_status_error (log_id user_message : string) : string :=
  user_message +:+ " (Hata kodu: " +:+ log_id +:+ ")".

(** [AppError.to_lines] *)
Definition to_lines (log_id user_message : string) (details : list string) : list string :=
  match details with
  | [] => [user_message; "Hata kodu: " +:+ log_id]
  | _ => (user_message :: details ++ ["Hata kodu: " +:+ log_id])%list
  end.

(** The update each [except] clause of [run_analysis_job] makes; [uuid] is
    what [uuid4] returns if the clause builds an [AppError]. *)
Definition failure_update (uuid : string) (e : exn) : JobUpdate :=
  match e with
  | JobCancelled => mkUpdate "cancelled" 100 "Analiz iptal edildi." None None (Some 0)
  | AppError log_id user_message _ =>
      mkUpdate "error" 100 "Analiz tamamlanamadi."
               (Some (to_status_error log_id user_message)) (Some log_id) (Some 0)
  | _ =>
      let log_id := PyStr.take 8 uuid in
      mkUpdate "error" 100 "Analiz tamamlanamadi."
               (Some (to_status_error log_id "Beklenmeyen bir hata olustu.")) (Some log_id)
               (Some 0)
  end.

Definition done_update : JobUpdate :=
  mkUpdate "done" 100 "Rapor hazirlandi." None None (Some 0).

(** The update of the [progress] callback. *)
Definition progress_update (percent : Z) (message : string) : JobUpdate :=
  mkUpdate "running" (Z.max 1 (Z.min percent 99)) message None None None.

(** [RESULTS[job_id] = {..., "context": {**package["context"], "job_id": job_id}}] *)
Definition stored_package (job_id : string) (p : Package) : Package :=
  let c := context p in
  mkPackage
    (mkContext (summary c) (critical_issues c) (ctx_matches c) (urgent_actions c)
               (audit_results c) (ctx_site_url c) (ctx_run_audit c) (analysis_mode c)
               (comparison_rows c) (unresolved_rows c) (recovery_panel c) (ctx_flags c)
               (Some job_id))
    (redirects_csv p) (manual_csv p) (compare_csv p).

(** *** Runs of a program *)

(** A call of a collaborator that reaches the network. *)
Inductive call : Type :=
| CDiscover (site_url : string) (limit : Z)
| CQuickAudit (urls : list string)
| CRobots (site_url : string).

(** [exec p t r]: some behaviour of the callbacks and of the collaborators
    makes [p] perform the calls [t] and end with [r].  Each of them may
    return (any value) or raise (any exception). *)
Inductive exec {A : Type} : prog A -> list call -> res A -> Prop :=
| exec_ret a : exec (Ret a) [] (Ok a)
| exec_throw e : exec (Throw e) [] (Raise e)
| exec_progress p msg k t r : exec k t r -> exec (Progress p msg k) t r
| exec_progress_raise p msg k e : exec (Progress p msg k) [] (Raise e)
| exec_cancel k t r : exec k t r -> exec (CheckCancel k) t r
| exec_cancel_raise k e : exec (CheckCancel k) [] (Raise e)
| exec_discover s l k found t r :
    exec (k found) t r -> exec (Discover s l k) (CDiscover s l :: t) r
| exec_discover_raise s l k e : exec (Discover s l k) [CDiscover s l] (Raise e)
| exec_audit us k items t r :
    exec (k items) t r -> exec (QuickAudit us k) (CQuickAudit us :: t) r
| exec_audit_raise us k e : exec (QuickAudit us k) [CQuickAudit us] (Raise e)
| exec_robots s k items t r :
    exec (k items) t r -> exec (RobotsCheck s k) (CRobots s :: t) r
| exec_robots_raise s k e : exec (RobotsCheck s k) [CRobots s] (Raise e)
| exec_uuid k id t r : exec (k id) t r -> exec (Uuid4 k) t r.

(** The URLs handed to [run_quick_audit] over a run. *)
Definition audited_urls (t : list call) : list string :=
  flat_map (fun c => match c with CQuickAudit us => us | _ => [] end) t.

(** *** The jobs and their workers *)

(** Where the thread of a job is: in [perform_analysis], about to make the
    call at the head of the program (or to leave it, for [Ret] and
    [Throw]); inside the [progress] callback, between its [check_cancel] and
    its [update_job]; between the assignment to [RESULTS] and the last
    [update_job]; or at its end. *)
Inductive worker : Type :=
| Running (p : prog Package)
| Updating (percent : Z) (message : string) (k : prog Package)
| Closing
| Finished.

(** The state of the process: the two tables, the threads, the network, and
    the calls of [run_quick_audit] made so far, each with its job. *)
Record System (W : Type) : Type := mkSystem {
  JOBS : gmap string Job;
  RESULTS : gmap string Package;
  workers : gmap string worker;
  audit_calls : list (string * list string);
  world : W
}.
Arguments mkSystem {W}.
Arguments JOBS {W}.
Arguments RESULTS {W}.
Arguments workers {W}.
Arguments audit_calls {W}.
Arguments world {W}.

(** What can happen next: a request to start a job, whose identifier, time
    stamps and arguments are given; a request to cancel one; or one more
    step of the thread of a job, given the clock, the value [uuid4] would
    return and the rounds its crawl may take. *)
Inductive label : Type :=
| Start (job_id created_at : string) (started_epoch : float) (req : Request)
| Cancel (job_id : string)
| Work (job_id : string) (now : float) (uuid : string) (fuel : nat).

Section Jobs.
Context {U : UrlLib} {D : DiffLib} {N : NumLib} {C : CsvLib} {R : ReLib}.
Context {W : Type} {NW : Net W}.
Variable flags : FeatureFlags.

Definition program_of (req : Request) : prog Package :=
  perform_analysis flags (r_old_raw req) (r_new_raw req) (r_gsc_before_raw req)
                   (r_gsc_after_raw req) (r_site_url req) (r_run_audit req)
                   (r_audit_limit req) (r_crawl_site req) (r_crawl_limit req).

Definition set_worker (job_id : string) (wk : worker) (jobs : gmap string Job) (s : System W)
  : System W :=
  mkSystem jobs (RESULTS s) (<[job_id := wk]> (workers s)) (audit_calls s) (world s).

Definition resume (r : res unit) (k : prog Package) : worker :=
  match r with
  | Ok _ => Running k
  | Raise e => Running (Throw e)
  end.

(** One step of [run_analysis_job] for the job [job_id]. *)
Definition worker_step (job_id : string) (now : float) (uuid : string) (fuel : nat)
    (wk : worker) (s : System W) : option (System W) :=
  match wk with
  | Finished => None
  | Updating percent message k =>
      let '(r, jobs) := update_job now job_id (progress_update percent message) (JOBS s) in
      Some (set_worker job_id (resume r k) jobs s)
  | Running (Ret package) =>
      Some (mkSystem (JOBS s) (<[job_id := stored_package job_id package]> (RESULTS s))
                     (<[job_id := Closing]> (workers s)) (audit_calls s) (world s))
  | Closing =>
      let '(r, jobs) := update_job now job_id done_update (JOBS s) in
      Some (set_worker job_id (match r with
                               | Ok _ => Finished
                               | Raise e => Running (Throw e)
                               end) jobs s)
  | Running (Throw e) =>
      let '(_, jobs) := update_job now job_id (failure_update uuid e) (JOBS s) in
      Some (set_worker job_id Finished jobs s)
  | Running (Progress percent message k) =>
      match check_cancel flags job_id (JOBS s) with
      | Ok _ => Some (set_worker job_id (Updating percent message k) (JOBS s) s)
      | Raise e => Some (set_worker job_id (Running (Throw e)) (JOBS s) s)
      end
  | Running (CheckCancel k) =>
      Some (set_worker job_id (resume (check_cancel flags job_id (JOBS s)) k) (JOBS s) s)
  | Running (Discover site_url limit k) =>
      match discover_site_urls fuel site_url limit (world s) with
      | None => None
      | Some (r, w) =>
          Some (mkSystem (JOBS s) (RESULTS s)
                         (<[job_id := Running (match r with
                                               | Ok found => k found
                                               | Raise e => Throw e
                                               end)]> (workers s))
                         (audit_calls s) w)
      end
  | Running (QuickAudit urls k) =>
      let '(items, w) := run_quick_audit urls (world s) in
      Some (mkSystem (JOBS s) (RESULTS s) (<[job_id := Running (k items)]> (workers s))
                     (audit_calls s ++ [(job_id, urls)])%list w)
  | Running (RobotsCheck site_url k) =>
      let '(r, w) := check_robots_and_sitemap site_url (world s) in
      Some (mkSystem (JOBS s) (RESULTS s)
                     (<[job_id := Running (match r with
                                           | Ok checks => k checks
                                           | Raise e => Throw e
                                           end)]> (workers s))
                     (audit_calls s) w)
  | Running (Uuid4 k) => Some (set_worker job_id (Running (k uuid)) (JOBS s) s)
  end.

(** One step of the system; [None] when the step cannot be taken:
    [uuid4] never returns the identifier of an existing job, a thread that
    has ended takes no step, and asynchronous analysis can be switched off. *)
Definition sys_step (l : label) (s : System W) : option (System W) :=
  match l with
  | Start job_id created_at started_epoch req =>
      if ASYNC_ANALYSIS flags then
        match JOBS s !! job_id, workers s !! job_id with
        | None, None =>
            Some (set_worker job_id (Running (program_of req))
                             (<[job_id := new_job flags created_at started_epoch]> (JOBS s)) s)
        | _, _ => None
        end
      else None
  | Cancel job_id =>
      Some (mkSystem (snd (analyze_cancel flags job_id (JOBS s))) (RESULTS s) (workers s)
                     (audit_calls s) (world s))
  | Work job_id now uuid fuel =>
      match workers s !! job_id with
      | Some wk => worker_step job_id now uuid fuel wk s
      | None => None
      end
  end.

(** The process as it starts: empty tables and no thread. *)
Definition initial (w : W) : System W := mkSystem empty empty empty [] w.

(** A program run in the thread of its caller with the callbacks left out,
    so that [progress] and [cancel] do nothing: the result, the calls made
    and the world afterwards; [None] when a crawl needs more than [fuel]
    rounds. *)
Fixpoint run_sync {A : Type} (fuel : nat) (uuid : string) (p : prog A) (w : W)
  : option (res A * list call * W) :=
  match p with
  | Ret a => Some (Ok a, [], w)
  | Throw e => Some (Raise e, [], w)
  | Progress _ _ k => run_sync fuel uuid k w
  | CheckCancel k => run_sync fuel uuid k w
  | Discover site_url limit k =>
      match discover_site_urls fuel site_url limit w with
      | None => None
      | Some (Raise e, w') => Some (Raise e, [CDiscover site_url limit], w')
      | Some (Ok found, w') =>
          match run_sync fuel uuid (k found) w' with
          | Some (r, t, w'') => Some (r, CDiscover site_url limit :: t, w'')
          | None => None
          end
      end
  | QuickAudit urls k =>
      let '(items, w') := run_quick_audit urls w in
      match run_sync fuel uuid (k items) w' with
      | Some (r, t, w'') => Some (r, CQuickAudit urls :: t, w'')
      | None => None
      end
  | RobotsCheck site_url k =>
      match check_robots_and_sitemap site_url w with
      | (Raise e, w') => Some (Raise e, [CRobots site_url], w')
      | (Ok checks, w') =>
          match run_sync fuel uuid (k checks) w' with
          | Some (r, t, w'') => Some (r, CRobots site_url :: t, w'')
          | None => None
          end
      end
  | Uuid4 k => run_sync fuel uuid (k uuid) w
  end.

(** What [POST /analyze] answers: the form again with the lines of an
    [AppError] and status 400, or the result page. *)
Inductive page : Type :=
| ErrorPage (status : Z) (errors : list string)
| ResultPage (c : Context).

(** [analyze_fallback]: [job_id] and [uuid] are what the two calls of
    [uuid4] return.  An exception that is not an [AppError] is not caught. *)
Definition analyze_fallback (job_id uuid : string) (fuel : nat) (req : Request) (s : System W)
  : option (res page * System W) :=
  match run_sync fuel uuid (program_of req) (world s) with
  | None => None
  | Some (Ok package, _, w) =>
      let stored := stored_package job_id package in
      Some (Ok (ResultPage (context stored)),
            mkSystem (JOBS s) (<[job_id := stored]> (RESULTS s)) (workers s) (audit_calls s) w)
  | Some (Raise (AppError log_id user_message details), _, w) =>
      Some (Ok (ErrorPage 400 (to_lines log_id user_message details)),
            mkSystem (JOBS s) (RESULTS s) (workers s) (audit_calls s) w)
  | Some (Raise e, _, w) =>
      Some (Raise e, mkSystem (JOBS s) (RESULTS s) (workers s) (audit_calls s) w)
  end.

(** The state after a list of events, when each of them can happen. *)
Fixpoint run (ls : list label) (s : System W) : option (System W) :=
  match ls with
  | [] => Some s
  | l :: ls =>
      match sys_step l s with
      | Some s' => run ls s'
      | None => None
      end
  end.

End Jobs.
End Main.

(** ** Reference implementations of the libraries

    The theorems below hold for every implementation of the library classes.
    The closed examples and counterexamples need one: the following follow
    CPython on the inputs they are used on. *)

Module Ref.

(** *** [urllib.parse.urlparse], after CPython 3.12's [urlsplit] *)

Definition is_alpha (c : ascii) : bool :=
  let n := nat_of_ascii c in
  ((65 <=? n)%nat && (n <=? 90)%nat) || ((97 <=? n)%nat && (n <=? 122)%nat).

Definition is_digit (c : ascii) : bool :=
  let n := nat_of_ascii c in (48 <=? n)%nat && (n <=? 57)%nat.

Definition is_scheme_char (c : ascii) : bool :=
  is_alpha c || is_digit c || Ascii.eqb c "+" || Ascii.eqb c "-" || Ascii.eqb c ".".

Fixpoint all_chars (f : ascii -> bool) (s : string) : bool :=
  match s with
  | EmptyString => true
  | String c r => f c && all_chars f r
  end.

Fixpoint remove_chars (f : ascii -> bool) (s : string) : string :=
  match s with
  | EmptyString => EmptyString
  | String c r => if f c then remove_chars f r else String c (remove_chars f r)
  end.

Fixpoint lstrip_while (f : ascii -> bool) (s : string) : string :=
  match s with
  | EmptyString => EmptyString
  | String c r => if f c then lstrip_while f r else s
  end.

(** [s.partition(x)]: what precedes the first [x] and what follows it. *)
Fixpoint cut (x : ascii) (s : string) : string * option string :=
  match s with
  | EmptyString => (EmptyString, None)
  | String c r =>
      if Ascii.eqb c x then (EmptyString, Some r)
      else let '(a, b) := cut x r in (String c a, b)
  end.

(** What precedes the first character of [stops], and the rest. *)
Fixpoint cut_any (stops : list ascii) (s : string) : string * string :=
  match s with
  | EmptyString => (EmptyString, EmptyString)
  | String c r =>
      if existsb (Ascii.eqb c) stops then (EmptyString, s)
      else let '(a, b) := cut_any stops r in (String c a, b)
  end.

Definition split_scheme (url : string) : string * string :=
  match cut ":" url with
  | (String c r, Some rest) =>
      if is_alpha c && all_chars is_scheme_char (String c r)
      then (PyStr.lower (String c r), rest)
      else (EmptyString, url)
  | _ => (EmptyString, url)
  end.

Definition uses_params : list string :=
  [""; "ftp"; "hdl"; "prospero"; "http"; "imap"; "https"; "shttp"; "rtsp"; "rtspu"; "sip";
   "sips"; "mms"; "sftp"; "tel"].

(** [_splitparams]: the path and the parameters of its last segment. *)
Definition split_params (url : string) : string :=
  let last := PyStr.after_last "/" url in
  if PyStr.mem_char "/" url then
    match cut ";" last with
    | (a, Some _) =>
        PyStr.take (String.length url - String.length last) url +:+ a
    | (_, None) => url
    end
  else fst (cut ";" url).

Definition urlparse (url0 : string) : res ParseResult :=
  let url := lstrip_while (fun c => (nat_of_ascii c <=? 32)%nat) url0 in
  let url := remove_chars (fun c => Ascii.eqb c "009" || Ascii.eqb c "010" || Ascii.eqb c "013")
                          url in
  let '(scheme, url) := split_scheme url in
  let '(netloc, url) :=
    if PyStr.startswith url "//"
    then cut_any ["/"; "?"; "#"]%char (PyStr.rev (PyStr.drop_last (PyStr.drop_last (PyStr.rev url))))
    else (EmptyString, url) in
  if xorb (PyStr.mem_char "[" netloc) (PyStr.mem_char "]" netloc)
  then Raise (ValueError "Invalid IPv6 URL")
  else
    let '(url, fragment) := cut "#" url in
    let '(url, query) := cut "?" url in
    let path := if bool_decide (scheme ∈ uses_params) && PyStr.mem_char ";" url
                then split_params url else url in
    Ok (mkParse scheme netloc path (default EmptyString query) (default EmptyString fragment)).

(** [urljoin] on the two forms of reference the examples use: a URL with a
    scheme, returned as it is, and an absolute path, put after the scheme
    and authority of the base. *)
Definition urljoin (base ref : string) : res string :=
  let* r := urlparse ref in
  if PyStr.nonempty (scheme r) then Ok ref
  else
    let* b := urlparse base in
    if PyStr.startswith ref "/" then Ok (scheme b +:+ "://" +:+ netloc b +:+ ref)
    else Ok (scheme b +:+ "://" +:+ netloc b +:+ "/" +:+ ref).

#[export] Instance url_lib : UrlLib := Build_UrlLib urlparse urljoin.


(** *** [difflib.SequenceMatcher(None, a, b).ratio()]

    For a [b] shorter than 200 characters, where no element is taken for
    junk: twice the size of the matching blocks over the two lengths. *)

Fixpoint common_prefix (a b : string) : nat :=
  match a, b with
  | String x a', String y b' => if Ascii.eqb x y then S (common_prefix a' b') else O
  | _, _ => O
  end.

(** The longest block starting at the head of [a]: [(j, k)], the first [j]
    among the best. *)
Fixpoint best_in_b (a b : string) (j : nat) (best : nat * nat) : nat * nat :=
  match b with
  | EmptyString => best
  | String _ b' =>
      let k := common_prefix a b in
      best_in_b a b' (S j) (if (snd best <? k)%nat then (j, k) else best)
  end.

(** [find_longest_match]: [(i, j, k)] with [k] largest, then [i] smallest,
    then [j] smallest. *)
Fixpoint longest_match (a b : string) (i : nat) (best : nat * nat * nat) : nat * nat * nat :=
  match a with
  | EmptyString => best
  | String _ a' =>
      let '(j, k) := best_in_b a b O (O, snd best) in
      longest_match a' b (S i) (if (snd best <? k)%nat then (i, j, k) else best)
  end.

Fixpoint drop (n : nat) (s : string) : string :=
  match n, s with
  | O, _ => s
  | S _, EmptyString => EmptyString
  | S k, String _ r => drop k r
  end.

(** The total size of the matching blocks. *)
Fixpoint matches (fuel : nat) (a b : string) : nat :=
  match fuel with
  | O => O
  | S fuel =>
      let '(i, j, k) := longest_match a b O (O, O, O) in
      match k with
      | O => O
      | _ => (k + matches fuel (PyStr.take i a) (PyStr.take j b)
              + matches fuel (drop (i + k) a) (drop (j + k) b))%nat
      end
  end.

Definition ratio (a b : string) : float :=
  let total := (String.length a + String.length b)%nat in
  match total with
  | O => 1%float
  | _ => (2 * PyFloat.of_small_int (Z.of_nat (matches (S (String.length a)) a b))
          / PyFloat.of_small_int (Z.of_nat total))%float
  end.

#[export] Instance diff_lib : DiffLib := Build_DiffLib ratio.

(** *** [re.search] and [re.findall]

    A backtracking matcher for the patterns of [audit.py]: sequences of
    characters, [.], classes [[...]] and [[^...]], each with an optional
    [+], [*] or [*?], and one group.  Letters are compared without case under
    [IGNORECASE]; [.] matches a line feed under [DOTALL] only. *)

Inductive char_class : Type :=
| Lit (c : ascii)
| AnyChar
| OneOf (negated : bool) (cs : list ascii).

Inductive re_item : Type :=
| One (c : char_class)
| Star (c : char_class)
| LazyStar (c : char_class)
| GroupOpen
| GroupClose.

(** The members of a class, up to its closing bracket, and what follows. *)
Fixpoint class_members (s : string) : option (list ascii * string) :=
  match s with
  | EmptyString => None
  | String "]" r => Some ([], r)
  | String "\" (String c r) =>
      match class_members r with
      | Some (cs, rest) => Some (c :: cs, rest)
      | None => None
      end
  | String c r =>
      match class_members r with
      | Some (cs, rest) => Some (c :: cs, rest)
      | None => None
      end
  end.

(** An item with the quantifier that follows it. *)
Definition quantified (c : char_class) (rest : string) : list re_item * string :=
  match rest with
  | String "+" r => ([One c; Star c], r)
  | String "*" (String "?" r) => ([LazyStar c], r)
  | String "*" r => ([Star c], r)
  | _ => ([One c], rest)
  end.

Fixpoint re_parse (fuel : nat) (s : string) : option (list re_item) :=
  match fuel with
  | O => None
  | S fuel =>
      match s with
      | EmptyString => Some []
      | String c r =>
          let continue (head : list re_item) (rest : string) :=
            match re_parse fuel rest with
            | Some items => Some (head ++ items)%list
            | None => None
            end in
          if Ascii.eqb c "(" then continue [GroupOpen] r
          else if Ascii.eqb c ")" then continue [GroupClose] r
          else if Ascii.eqb c "." then let '(h, rest) := quantified AnyChar r in continue h rest
          else if Ascii.eqb c "[" then
            match r with
            | String "^" r' =>
                match class_members r' with
                | Some (cs, rest) =>
                    let '(h, rest) := quantified (OneOf true cs) rest in continue h rest
                | None => None
                end
            | _ =>
                match class_members r with
                | Some (cs, rest) =>
                    let '(h, rest) := quantified (OneOf false cs) rest in continue h rest
                | None => None
                end
            end
          else if Ascii.eqb c "\" then
            match r with
            | String c' r' => let '(h, rest) := quantified (Lit c') r' in continue h rest
            | EmptyString => None
            end
          else let '(h, rest) := quantified (Lit c) r in continue h rest
      end
  end.

Definition fold_case (icase : bool) (c : ascii) : ascii :=
  if icase then PyStr.lower_char c else c.

Definition class_matches (icase dotall : bool) (k : char_class) (c : ascii) : bool :=
  match k with
  | Lit x => Ascii.eqb (fold_case icase x) (fold_case icase c)
  | AnyChar => dotall || negb (Ascii.eqb c "010")
  | OneOf negated cs =>
      xorb negated (existsb (fun x => Ascii.eqb (fold_case icase x) (fold_case icase c)) cs)
  end.

(** The text a match captures, in reverse while it grows. *)
Definition capture (open : bool) (c : ascii) (group : string) : string :=
  if open then String c group else group.

(** A match of the items at the head of the text: the group and the rest
    of the text. *)
Fixpoint match_items (icase dotall : bool) (items : list re_item)
  : string -> bool -> string -> option (string * string) :=
  match items with
  | [] => fun s _ group => Some (PyStr.rev group, s)
  | it :: r =>
      let k := match_items icase dotall r in
      match it with
      | GroupOpen => fun s _ _ => k s true EmptyString
      | GroupClose => fun s _ group => k s false group
      | One c =>
          fun s open group =>
            match s with
            | String a s' =>
                if class_matches icase dotall c a then k s' open (capture open a group)
                else None
            | EmptyString => None
            end
      | Star c =>
          fix greedy (s : string) (open : bool) (group : string) : option (string * string) :=
            match s with
            | String a s' =>
                if class_matches icase dotall c a then
                  match greedy s' open (capture open a group) with
                  | Some m => Some m
                  | None => k s open group
                  end
                else k s open group
            | EmptyString => k s open group
            end
      | LazyStar c =>
          fix lazy (s : string) (open : bool) (group : string) : option (string * string) :=
            match k s open group with
            | Some m => Some m
            | None =>
                match s with
                | String a s' =>
                    if class_matches icase dotall c a then lazy s' open (capture open a group)
                    else None
                | EmptyString => None
                end
            end
      end
  end.

(** The leftmost match. *)
Fixpoint search_items (icase dotall : bool) (items : list re_item) (s : string)
  : option (string * string) :=
  match match_items icase dotall items s false EmptyString with
  | Some m => Some m
  | None =>
      match s with
      | String _ s' => search_items icase dotall items s'
      | EmptyString => None
      end
  end.

Definition has_flag (f : re_flag) (flags : list re_flag) : bool :=
  existsb (fun g => match f, g with
                    | IGNORECASE, IGNORECASE | DOTALL, DOTALL => true
                    | _, _ => false
                    end) flags.

Definition re_search (pattern : string) (flags : list re_flag) (s : string)
  : option (list string) :=
  match re_parse (S (String.length pattern)) pattern with
  | None => None
  | Some items =>
      match search_items (has_flag IGNORECASE flags) (has_flag DOTALL flags) items s with
      | Some (g, _) => Some [g]
      | None => None
      end
  end.

(** The matches one after the other, each search starting where the match
    before it ended. *)
Fixpoint findall_items (fuel : nat) (icase dotall : bool) (items : list re_item) (s : string)
  : list string :=
  match fuel with
  | O => []
  | S fuel =>
      match search_items icase dotall items s with
      | Some (g, rest) =>
          if (String.length rest <? String.length s)%nat
          then g :: findall_items fuel icase dotall items rest
          else [g]
      | None => []
      end
  end.

Definition re_findall (pattern : string) (flags : list re_flag) (s : string) : list string :=
  match re_parse (S (String.length pattern)) pattern with
  | None => []
  | Some items =>
      findall_items (S (String.length s)) (has_flag IGNORECASE flags) (has_flag DOTALL flags)
                    items s
  end.

#[export] Instance re_lib : ReLib := Build_ReLib re_search re_findall.

(** *** [float], [round(x, 2)] and [str] on metric values *)

Fixpoint digits_value (s : string) (acc : Z) : option Z :=
  match s with
  | EmptyString => Some acc
  | String c r =>
      if is_digit c then digits_value r (10 * acc + Z.of_nat (nat_of_ascii c - 48)) else None
  end.

(** [float(s)] on a decimal with an optional sign and an optional
    fraction: the double nearest to it.  Exponents, [inf] and [nan] are not
    read. *)
Definition float_of_string (s0 : string) : option float :=
  let s := PyStr.strip s0 in
  let '(negative, s) := match s with
                        | String "-" r => (true, r)
                        | String "+" r => (false, r)
                        | _ => (false, s)
                        end in
  let '(whole, fraction) := cut "." s in
  let fraction := default EmptyString fraction in
  if (String.length whole + String.length fraction =? 0)%nat then None
  else
    match digits_value (whole +:+ fraction) 0 with
    | None => None
    | Some 0 => Some (if negative then (-0)%float else 0%float)
    | Some n =>
        match PyFloat.int_truediv (if negative then - n else n)
                                  (10 ^ Z.of_nat (String.length fraction)) with
        | Ok x => Some x
        | Raise _ => Some (if negative then neg_infinity else infinity)
        end
    end.

(** The hundredths nearest to [x], ties going to the even number. *)
Definition hundredths (x : float) : option Z :=
  match Prim2SF x with
  | S754_zero _ => Some 0
  | S754_finite s m e => Some (cond_Zopp s (PyFloat.round_half_even (m * 100) e))
  | _ => None
  end.

(** [round(x, 2)]: the double nearest to the hundredths nearest to [x]. *)
Definition round2 (x : float) : float :=
  match hundredths x with
  | Some 0 => if PrimFloat.ltb x 0 then (-0)%float else x
  | Some n => match PyFloat.int_truediv n 100 with Ok y => y | Raise _ => x end
  | None => x
  end.

(** [str(x)] for the hundredths below [10^13], which is what [round(x, 2)]
    returns on metric values: the decimal with the fewest digits.  A value
    that is not one of them is printed as the hundredths nearest to it. *)
Definition str_of_float (x : float) : string :=
  match hundredths x with
  | None => if PrimFloat.ltb x 0 then "-inf" else if PrimFloat.ltb 0 x then "inf" else "nan"
  | Some n =>
      let a := Z.abs n in
      let sign := if (n <? 0) || (PrimFloat.eqb x 0 && PrimFloat.ltb (1 / x) 0) then "-"
                  else EmptyString in
      let d1 := str_of_Z (a / 10 mod 10) in
      let d2 := str_of_Z (a mod 10) in
      sign +:+ str_of_Z (a / 100) +:+ "." +:+ d1 +:+ (if a mod 10 =? 0 then EmptyString else d2)
  end.

#[export] Instance num_lib : NumLib := Build_NumLib float_of_string round2 str_of_float.

(** *** [csv] *)

(** [csv.writer]'s default dialect: a field is quoted when it holds a
    comma, a quote or a line break; a row ends with CR LF. *)
Definition needs_quotes (f : string) : bool :=
  PyStr.mem_char "," f || PyStr.mem_char (ascii_of_nat 34) f || PyStr.mem_char "010" f
  || PyStr.mem_char "013" f.

Fixpoint double_quotes (f : string) : string :=
  match f with
  | EmptyString => EmptyString
  | String c r =>
      if Ascii.eqb c (ascii_of_nat 34) then String c (String c (double_quotes r))
      else String c (double_quotes r)
  end.

Definition csv_field (f : string) : string :=
  if needs_quotes f then dq +:+ double_quotes f +:+ dq else f.

Definition csv_writerow (fields : list string) : string :=
  match fields with
  | [EmptyString] => dq +:+ dq +:+ String "013" (String "010" EmptyString)
  | _ => PyStr.join "," (map csv_field fields) +:+ String "013" (String "010" EmptyString)
  end.

(** Where [csv.reader] is in a row. *)
Inductive csv_state : Type :=
| StartRecord
| StartField
| InField
| InQuoted
| QuoteInQuoted
| EatNewline.

(** [csv.reader] on a text whose lines end in LF or CR LF: [field] is the
    current field in reverse, [row] the fields before it.  An empty line
    gives an empty row. *)
Fixpoint csv_read (s : string) (st : csv_state) (field : string) (row : list string)
  : list (list string) :=
  let close := (row ++ [PyStr.rev field])%list in
  match s with
  | EmptyString =>
      match st with
      | StartRecord | EatNewline => []
      | _ => [close]
      end
  | String c r =>
      let newline := Ascii.eqb c "010" || Ascii.eqb c "013" in
      match st with
      | EatNewline =>
          if newline then csv_read r StartRecord EmptyString []
          else if Ascii.eqb c "," then csv_read r StartField EmptyString [EmptyString]
          else if Ascii.eqb c (ascii_of_nat 34) then csv_read r InQuoted EmptyString []
          else csv_read r InField (String c EmptyString) []
      | StartRecord =>
          if newline then [] :: csv_read r EatNewline EmptyString []
          else if Ascii.eqb c "," then csv_read r StartField EmptyString [EmptyString]
          else if Ascii.eqb c (ascii_of_nat 34) then csv_read r InQuoted EmptyString []
          else csv_read r InField (String c EmptyString) []
      | StartField =>
          if newline then close :: csv_read r EatNewline EmptyString []
          else if Ascii.eqb c "," then csv_read r StartField EmptyString close
          else if Ascii.eqb c (ascii_of_nat 34) then csv_read r InQuoted EmptyString row
          else csv_read r InField (String c EmptyString) row
      | InField =>
          if newline then close :: csv_read r EatNewline EmptyString []
          else if Ascii.eqb c "," then csv_read r StartField EmptyString close
          else csv_read r InField (String c field) row
      | InQuoted =>
          if Ascii.eqb c (ascii_of_nat 34) then csv_read r QuoteInQuoted field row
          else csv_read r InQuoted (String c field) row
      | QuoteInQuoted =>
          if Ascii.eqb c (ascii_of_nat 34) then csv_read r InQuoted (String c field) row
          else if newline then close :: csv_read r EatNewline EmptyString []
          else if Ascii.eqb c "," then csv_read r StartField EmptyString close
          else csv_read r InField (String c field) row
      end
  end.

(** [dict(zip(fieldnames, row))] *)
Fixpoint zip_row (fieldnames row : list string) (m : gmap string string) : gmap string string :=
  match fieldnames, row with
  | f :: fs, v :: vs => zip_row fs vs (<[f := v]> m)
  | _, _ => m
  end.

(** [csv.DictReader]: the first row holds the field names; of the others,
    those that are not empty are the records. *)
Definition csv_dictreader (text : string) : list string * list (gmap string string) :=
  match csv_read text StartRecord EmptyString [] with
  | [] => ([], [])
  | fieldnames :: rows =>
      (fieldnames,
       map (fun r => zip_row fieldnames r empty)
           (List.filter (fun r => negb (bool_decide (r = []))) rows))
  end.

(** [decode("utf-8-sig")] of well-formed UTF-8: without the byte order
    mark. *)
Definition decode_utf8_sig (raw : string) : string :=
  match raw with
  | String "239" (String "187" (String "191" r)) => r
  | _ => raw
  end.

#[export] Instance csv_lib : CsvLib := Build_CsvLib csv_writerow csv_dictreader decode_utf8_sig.

(** *** A site

    The pages of a site, by URL.  A request for another URL fails; the
    world is the list of the requests made so far.  The pool serves the
    requests in the order it is given them, and the last one served is the
    first to complete. *)
Definition Site : Type := list (string * Response).

Definition page_of (site : Site) (url : string) : option Response :=
  match List.find (fun p => String.eqb (fst p) url) site with
  | Some p => Some (snd p)
  | None => None
  end.

Definition site_get (site : Site) (url : string) (w : list string)
  : res Response * list string :=
  (match page_of site url with
   | Some r => Ok r
   | None => Raise (TransportError "[Errno -2] Name or service not known")
   end, (w ++ [url])%list).

Definition net (site : Site) : Net (list string) :=
  Build_Net (list string) (site_get site) (fun l _ => l) (fun A l _ => List.rev l)
            (fun l _ => Permutation_refl l)
            (fun A l _ => Permutation_sym (Permutation_rev l)).

End Ref.

(** * Properties *)

(** ** Strings *)

Module PyStrFacts.
Import PyStr.

Lemma append_cons (c : ascii) (a b : string) : String c a +:+ b = String c (a +:+ b).
Proof. reflexivity. Qed.


Lemma append_assoc (a b c : string) : (a +:+ b) +:+ c = a +:+ (b +:+ c).
Proof. induction a as [|x a IH]; [reflexivity | rewrite !append_cons, IH; reflexivity]. Qed.

Lemma rev_onto_spec (s acc : string) : rev_onto s acc = rev s +:+ acc.
Proof.
  unfold rev. revert acc.
  induction s as [|c s IH]; intros acc; simpl; [reflexivity|].
  rewrite (IH (String c EmptyString)), IH, append_assoc. reflexivity.
Qed.

Lemma rev_cons (c : ascii) (s : string) : rev (String c s) = rev s +:+ String c EmptyString.
Proof. unfold rev at 1. simpl. apply rev_onto_spec. Qed.

Lemma rev_snoc (s : string) (c : ascii) : rev (s +:+ String c EmptyString) = String c (rev s).
Proof.
  induction s as [|x s IH]; [reflexivity|].
  rewrite append_cons, !rev_cons, IH. reflexivity.
Qed.

Lemma rev_involutive (s : string) : rev (rev s) = s.
Proof.
  induction s as [|c s IH]; [reflexivity|].
  rewrite rev_cons, rev_snoc, IH. reflexivity.
Qed.

Lemma drop_last_snoc (s : string) (c : ascii) : drop_last (s +:+ String c EmptyString) = s.
Proof.
  induction s as [|x s IH]; [reflexivity|].
  rewrite append_cons. simpl. rewrite IH. destruct s; reflexivity.
Qed.

(** A string that ends with a character is its [drop_last] followed by it. *)
Lemma endswith_char (s : string) (c : ascii) :
  endswith s (String c EmptyString) = true -> s = drop_last s +:+ String c EmptyString.
Proof.
  unfold endswith. change (rev (String c EmptyString)) with (String c EmptyString).
  intros H. rewrite <- (rev_involutive s) at 1 2.
  destruct (rev s) as [|x r] eqn:E; [discriminate|].
  simpl in H. destruct (ascii_dec c x) as [->|]; [|discriminate].
  rewrite rev_cons, drop_last_snoc. reflexivity.
Qed.

Lemma lower_append (a b : string) : lower (a +:+ b) = lower a +:+ lower b.
Proof.
  induction a as [|x a IH]; [reflexivity|].
  rewrite append_cons. simpl. rewrite IH, append_cons. reflexivity.
Qed.

Lemma or_else_nonempty (a b : string) : nonempty b = true -> nonempty (or_else a b) = true.
Proof. unfold or_else. destruct (nonempty a) eqn:E; auto. Qed.

End PyStrFacts.

(** ** Floats

    The binary64 operations, as the kernel specifies them, never round a
    result past a representable bound: the float facts the claims need. *)

Module FloatFacts.
Import PyFloat.

(** [lia] with the quotients and remainders of the goal named. *)
Ltac dlia := Z.to_euclidean_division_equations; lia.

(** [fexp] of binary64. *)
Lemma fexp_64 (e : Z) : fexp prec emax e = Z.max (e - 53) (-1074).
Proof. reflexivity. Qed.

Lemma digits2_pos_bounds (p : positive) :
  2 ^ (Zpos (digits2_pos p) - 1) <= Zpos p < 2 ^ Zpos (digits2_pos p).
Proof.
  induction p as [p IH|p IH|]; simpl digits2_pos.
  - rewrite Pos2Z.inj_succ.
    replace (Z.succ (Zpos (digits2_pos p)) - 1) with (Z.succ (Zpos (digits2_pos p) - 1)) by lia.
    rewrite !Z.pow_succ_r by lia. lia.
  - rewrite Pos2Z.inj_succ.
    replace (Z.succ (Zpos (digits2_pos p)) - 1) with (Z.succ (Zpos (digits2_pos p) - 1)) by lia.
    rewrite !Z.pow_succ_r by lia. lia.
  - simpl. lia.
Qed.

Lemma Zdigits2_nonneg (m : Z) : 0 <= Zdigits2 m.
Proof. destruct m; simpl; lia. Qed.

Lemma Zdigits2_bounds (m : Z) :
  0 < m -> 2 ^ (Zdigits2 m - 1) <= m < 2 ^ Zdigits2 m.
Proof. destruct m as [|p|p]; try lia. intros _. apply digits2_pos_bounds. Qed.

Lemma Zdigits2_pos (m : Z) : 0 < m -> 0 < Zdigits2 m.
Proof. destruct m; simpl; lia. Qed.

Lemma pow2_pos (e : Z) : 0 <= e -> 0 < 2 ^ e.
Proof. intros. apply Z.pow_pos_nonneg; lia. Qed.

(** The number of digits is the only [d] with [2^(d-1) <= m < 2^d]. *)
Lemma Zdigits2_unique (m d : Z) :
  0 < d -> 2 ^ (d - 1) <= m < 2 ^ d -> Zdigits2 m = d.
Proof.
  intros Hd [Hlo Hhi].
  assert (0 < m) by (pose proof (pow2_pos (d - 1)); lia).
  pose proof (Zdigits2_bounds m H) as [Blo Bhi].
  pose proof (Zdigits2_pos m H).
  destruct (Z.lt_trichotomy (Zdigits2 m) d) as [L|[E|G]]; [|exact E|].
  - assert (2 ^ Zdigits2 m <= 2 ^ (d - 1)) by (apply Z.pow_le_mono_r; lia). lia.
  - assert (2 ^ d <= 2 ^ (Zdigits2 m - 1)) by (apply Z.pow_le_mono_r; lia). lia.
Qed.

Lemma Zdigits2_mono (a b : Z) : 0 <= a <= b -> Zdigits2 a <= Zdigits2 b.
Proof.
  intros [Ha Hab].
  destruct (Z.eq_dec a 0) as [->|Hne]; [simpl; apply Zdigits2_nonneg|].
  assert (0 < a) by lia. assert (0 < b) by lia.
  pose proof (Zdigits2_bounds a H) as [Alo Ahi].
  pose proof (Zdigits2_bounds b H0) as [Blo Bhi].
  destruct (Z_lt_le_dec (Zdigits2 b) (Zdigits2 a)) as [L|]; [|assumption].
  assert (2 ^ Zdigits2 b <= 2 ^ (Zdigits2 a - 1)) by (apply Z.pow_le_mono_r; pose proof (Zdigits2_pos b H0); lia).
  lia.
Qed.

(** Digits of a quotient by a power of two. *)
Lemma Zdigits2_div_pow2 (m n : Z) :
  0 <= n -> 0 < m / 2 ^ n -> Zdigits2 (m / 2 ^ n) = Zdigits2 m - n.
Proof.
  intros Hn Hq.
  assert (Hp : 0 < 2 ^ n) by (apply pow2_pos; lia).
  assert (Hm : 0 < m).
  { destruct (Z_lt_le_dec 0 m); [assumption|].
    assert (m / 2 ^ n <= 0) by (apply Z.div_le_upper_bound; lia). lia. }
  pose proof (Zdigits2_bounds m Hm) as [Blo Bhi].
  pose proof (Zdigits2_pos m Hm) as Hd.
  assert (Hge : 2 ^ n <= m).
  { destruct (Z_lt_le_dec m (2 ^ n)); [|assumption].
    rewrite Z.div_small in Hq by lia. lia. }
  assert (Hdn : n < Zdigits2 m).
  { destruct (Z_lt_le_dec n (Zdigits2 m)); [assumption|].
    assert (2 ^ Zdigits2 m <= 2 ^ n) by (apply Z.pow_le_mono_r; lia). lia. }
  apply Zdigits2_unique; [lia|].
  split.
  - apply Z.div_le_lower_bound; [lia|].
    rewrite <- Z.pow_add_r by lia.
    replace (n + (Zdigits2 m - n - 1)) with (Zdigits2 m - 1) by lia. exact Blo.
  - apply Z.div_lt_upper_bound; [lia|].
    rewrite <- Z.pow_add_r by lia.
    replace (n + (Zdigits2 m - n)) with (Zdigits2 m) by lia. exact Bhi.
Qed.


(** *** Shifting right *)

Lemma iter_pos_nat {A : Type} (f : A -> A) (p : positive) (x : A) :
  SpecFloat.iter_pos f p x = Nat.iter (Pos.to_nat p) f x.
Proof.
  revert x. induction p as [p IH|p IH|]; intros x; simpl SpecFloat.iter_pos.
  - rewrite !IH, Pos2Nat.inj_xI, <- Nat.iter_add.
    replace (Pos.to_nat p + Pos.to_nat p)%nat with (2 * Pos.to_nat p)%nat by lia.
    symmetry. apply Nat.iter_succ_r.
  - rewrite !IH, Pos2Nat.inj_xO, <- Nat.iter_add.
    replace (Pos.to_nat p + Pos.to_nat p)%nat with (2 * Pos.to_nat p)%nat by lia.
    reflexivity.
  - reflexivity.
Qed.

(** No bit was lost so far. *)
Definition rs_clear (mrs : shr_record) : Prop := shr_r mrs = false /\ shr_s mrs = false.

Lemma shr_1_m (mrs : shr_record) : 0 <= shr_m mrs -> shr_m (shr_1 mrs) = shr_m mrs / 2.
Proof.
  destruct mrs as [m r s]. cbn [shr_m]. intros Hm.
  destruct m as [|p|p]; [reflexivity| |lia].
  destruct p as [p|p|]; cbn [shr_1 shr_m];
    [rewrite (Pos2Z.inj_xI p)|rewrite (Pos2Z.inj_xO p)|reflexivity]; dlia.
Qed.

Lemma shr_1_clear (mrs : shr_record) :
  0 <= shr_m mrs -> rs_clear mrs -> shr_m mrs mod 2 = 0 -> rs_clear (shr_1 mrs).
Proof.
  destruct mrs as [m r s]. unfold rs_clear. cbn [shr_m shr_r shr_s]. intros Hm [-> ->] He.
  destruct m as [|p|p]; [split; reflexivity| |lia].
  destruct p as [p|p|]; cbn [shr_1 shr_r shr_s orb];
    [rewrite (Pos2Z.inj_xI p) in He; dlia|split; reflexivity|dlia].
Qed.

Lemma iter_shr_m (n : nat) (mrs : shr_record) :
  0 <= shr_m mrs -> shr_m (Nat.iter n shr_1 mrs) = shr_m mrs / 2 ^ Z.of_nat n.
Proof.
  intros Hm. induction n as [|n IH].
  - simpl. rewrite Z.div_1_r. reflexivity.
  - simpl Nat.iter. rewrite shr_1_m.
    + rewrite IH, Nat2Z.inj_succ, Z.pow_succ_r by lia.
      rewrite Z.div_div by (try apply pow2_pos; lia).
      f_equal. lia.
    + rewrite IH. apply Z.div_pos; [lia | apply pow2_pos; lia].
Qed.

Lemma iter_shr_clear (n : nat) (mrs : shr_record) :
  0 <= shr_m mrs -> rs_clear mrs -> shr_m mrs mod 2 ^ Z.of_nat n = 0 ->
  rs_clear (Nat.iter n shr_1 mrs).
Proof.
  intros Hm Hc. induction n as [|n IH]; intros Hd; [exact Hc|].
  rewrite Nat2Z.inj_succ, Z.pow_succ_r in Hd by lia.
  assert (Hp : 0 < 2 ^ Z.of_nat n) by (apply pow2_pos; lia).
  apply Z.mod_divide in Hd; [|lia]. destruct Hd as [q Hq].
  simpl Nat.iter. apply shr_1_clear.
  - rewrite iter_shr_m by assumption. apply Z.div_pos; lia.
  - apply IH. apply Z.mod_divide; [lia|]. exists (q * 2). lia.
  - rewrite iter_shr_m by assumption.
    replace (shr_m mrs) with (q * 2 * 2 ^ Z.of_nat n) by lia.
    rewrite Z.div_mul by lia. apply Z.mod_mul. lia.
Qed.

Lemma shr_spec (mrs : shr_record) (e n : Z) :
  0 <= shr_m mrs ->
  snd (shr mrs e n) = e + Z.max n 0
  /\ shr_m (fst (shr mrs e n)) = shr_m mrs / 2 ^ Z.max n 0
  /\ (rs_clear mrs -> shr_m mrs mod 2 ^ Z.max n 0 = 0 -> rs_clear (fst (shr mrs e n))).
Proof.
  intros Hm. destruct n as [|p|p]; cbn [shr fst snd].
  - rewrite Z.max_r by lia. change (2 ^ 0) with 1. rewrite Z.div_1_r.
    split; [lia|split; [reflexivity|intros Hc _; exact Hc]].
  - rewrite Z.max_l by lia. rewrite iter_pos_nat.
    rewrite <- (positive_nat_Z p).
    split; [lia|split].
    + apply iter_shr_m; assumption.
    + apply iter_shr_clear; assumption.
  - rewrite Z.max_r by lia. change (2 ^ 0) with 1. rewrite Z.div_1_r.
    split; [lia|split; [reflexivity|intros Hc _; exact Hc]].
Qed.

Lemma round_nearest_even_bounds (m : Z) (l : location) :
  m <= round_nearest_even m l <= m + 1.
Proof. destruct l as [|[]]; simpl; try lia. destruct (Z.even m); lia. Qed.

Lemma loc_of_clear (mrs : shr_record) : rs_clear mrs -> loc_of_shr_record mrs = loc_Exact.
Proof. destruct mrs as [m r s]. intros [H1 H2]. simpl in *. subst. reflexivity. Qed.


(** *** Rounding does not pass a representable bound *)

Definition fe (e : Z) : Z := Z.max (e - 53) (-1074).

(** [(m, e)] is the canonical form of a positive binary64 number. *)
Definition canonical (m e : Z) : Prop := 0 < m /\ fe (Zdigits2 m + e) = e.

Lemma canonical_digits (m e : Z) : canonical m e -> Zdigits2 m <= 53 /\ -1074 <= e.
Proof. unfold canonical, fe. intros [H1 H2]. lia. Qed.

Lemma canonical_lt_pow (m e : Z) : canonical m e -> m < 2 ^ 53.
Proof.
  intros Hc. pose proof (canonical_digits m e Hc) as [Hd _]. destruct Hc as [Hm _].
  pose proof (Zdigits2_bounds m Hm) as [_ Hhi].
  assert (2 ^ Zdigits2 m <= 2 ^ 53) by (apply Z.pow_le_mono_r; lia). lia.
Qed.

(** A number that takes [d] digits at exponent [e] is at least
    [2^(d-1+e)]. *)
Lemma scaled_lower (m e o : Z) :
  0 < m -> 0 <= e + o -> 2 ^ (Zdigits2 m - 1 + e + o) <= m * 2 ^ (e + o).
Proof.
  intros Hm Ho.
  pose proof (Zdigits2_bounds m Hm) as [Hlo _]. pose proof (Zdigits2_pos m Hm).
  replace (Zdigits2 m - 1 + e + o) with ((Zdigits2 m - 1) + (e + o)) by lia.
  rewrite (Z.pow_add_r 2 (Zdigits2 m - 1) (e + o)) by lia.
  apply Z.mul_le_mono_nonneg_r; [apply Z.lt_le_incl, pow2_pos; lia | exact Hlo].
Qed.

Lemma scaled_upper (m e o : Z) :
  canonical m e -> 0 <= e + o -> m * 2 ^ (e + o) < 2 ^ (53 + e + o).
Proof.
  intros Hc Ho. pose proof (canonical_lt_pow m e Hc).
  replace (53 + e + o) with (53 + (e + o)) by lia.
  rewrite (Z.pow_add_r 2 53 (e + o)) by lia.
  apply Z.mul_lt_mono_pos_r; [apply pow2_pos; lia | assumption].
Qed.

Lemma key_bound (N D ex n1 m1 mC eC o : Z) :
  0 < D -> 0 <= N -> 0 <= n1 ->
  N / D / 2 ^ n1 <= m1 <= N / D / 2 ^ n1 + 1 ->
  (N mod (D * 2 ^ n1) = 0 -> m1 = N / D / 2 ^ n1) ->
  ex + n1 = fe (Zdigits2 (N / D) + ex) ->
  canonical mC eC ->
  0 <= ex + o -> 0 <= eC + o ->
  N * 2 ^ (ex + o) <= D * (mC * 2 ^ (eC + o)) ->
  m1 * 2 ^ (ex + n1 + o) <= mC * 2 ^ (eC + o).
Proof.
  intros HD HN Hn1 Hm1 Hex He1 HC Ho1 Ho2 Hle.
  assert (HP : 0 < 2 ^ (ex + o)) by (apply pow2_pos; lia).
  assert (HQ : 0 < 2 ^ n1) by (apply pow2_pos; lia).
  rewrite Z.div_div in Hm1, Hex by lia.
  destruct (Z_le_gt_dec (ex + n1) eC) as [Hcase|Hcase].
  - (* the bound lies on the grid of the result *)
    assert (HR : 0 < 2 ^ (eC - (ex + n1))) by (apply pow2_pos; lia).
    replace (eC + o) with ((eC - (ex + n1)) + (n1 + (ex + o))) in * by lia.
    replace (ex + n1 + o) with (n1 + (ex + o)) by lia.
    rewrite (Z.pow_add_r 2 (eC - (ex + n1)) (n1 + (ex + o))) in * by lia.
    rewrite (Z.pow_add_r 2 n1 (ex + o)) in * by lia.
    set (K := mC * 2 ^ (eC - (ex + n1))) in *.
    assert (HK : N <= K * (D * 2 ^ n1)).
    { apply Z.mul_le_mono_pos_r with (p := 2 ^ (ex + o)); [assumption|].
      unfold K. lia. }
    assert (Hq : N / (D * 2 ^ n1) <= K) by (apply Z.div_le_upper_bound; lia).
    assert (HmK : m1 <= K).
    { destruct (Z.eq_dec (N / (D * 2 ^ n1)) K) as [E|NE]; [|lia].
      rewrite Hex; [lia|].
      assert (Hdm := Z.div_mod N (D * 2 ^ n1)).
      assert (Hmb := Z.mod_pos_bound N (D * 2 ^ n1)).
      rewrite E in Hdm. lia. }
    replace (mC * (2 ^ (eC - (ex + n1)) * (2 ^ n1 * 2 ^ (ex + o))))
      with (K * (2 ^ n1 * 2 ^ (ex + o))) by (unfold K; lia).
    apply Z.mul_le_mono_nonneg_r; lia.
  - (* the result is coarser than the bound: the bound is too small *)
    exfalso.
    pose proof (canonical_digits mC eC HC) as [_ HeC].
    assert (Hmx : 0 < N / D).
    { destruct (Z_lt_le_dec 0 (N / D)) as [|Hz]; [assumption|].
      assert (N / D = 0) by (pose proof (Z.div_pos N D); lia).
      rewrite H in He1. simpl Zdigits2 in He1. unfold fe in He1. lia. }
    assert (He1' : ex + n1 = Zdigits2 (N / D) + ex - 53) by (unfold fe in He1; lia).
    pose proof (scaled_lower (N / D) ex o Hmx Ho1) as Hlow.
    pose proof (scaled_upper mC eC o HC Ho2) as Hup.
    assert (Hpow : 2 ^ (53 + eC + o) <= 2 ^ (Zdigits2 (N / D) - 1 + ex + o))
      by (apply Z.pow_le_mono_r; lia).
    assert (HND : N / D * D <= N).
    { pose proof (Z.div_mod N D). pose proof (Z.mod_pos_bound N D). lia. }
    assert (N / D * 2 ^ (ex + o) * D <= N * 2 ^ (ex + o)).
    { replace (N / D * 2 ^ (ex + o) * D) with (N / D * D * 2 ^ (ex + o)) by lia.
      apply Z.mul_le_mono_nonneg_r; lia. }
    assert (D * (mC * 2 ^ (eC + o)) < D * (N / D * 2 ^ (ex + o))).
    { apply Z.mul_lt_mono_pos_l; lia. }
    lia.
Qed.


Lemma shr_m_of_loc (m : Z) (l : location) : shr_m (shr_record_of_loc m l) = m.
Proof. destruct l as [|[]]; reflexivity. Qed.

Lemma clear_of_exact (m : Z) : rs_clear (shr_record_of_loc m loc_Exact).
Proof. split; reflexivity. Qed.

Lemma divides_split (N D Q : Z) :
  0 < D -> 0 < Q -> N mod (D * Q) = 0 -> N mod D = 0 /\ (N / D) mod Q = 0.
Proof.
  intros HD HQ H. apply Z.mod_divide in H; [|lia]. destruct H as [q Hq].
  split.
  - apply Z.mod_divide; [lia|]. exists (q * Q). lia.
  - replace N with (q * Q * D) by lia. rewrite Z.div_mul by lia.
    apply Z.mod_mul. lia.
Qed.

Lemma div_pow2_mul_le (m k : Z) : 0 <= m -> 0 <= k -> m / 2 ^ k * 2 ^ k <= m.
Proof.
  intros Hm Hk. pose proof (pow2_pos k Hk).
  pose proof (Z.div_mod m (2 ^ k)). pose proof (Z.mod_pos_bound m (2 ^ k)). lia.
Qed.

(** The rounding of [N/D * 2^ex], known through the quotient [N / D] and a
    location that is exact whenever the quotient is, does not pass a
    canonical number [mC * 2^eC] that [N/D * 2^ex] does not pass; what it
    returns is zero or canonical itself. *)
Lemma round_aux_upper (N D ex : Z) (lx : location) (mC eC o : Z) :
  0 < D -> 0 <= N ->
  (N mod D = 0 -> lx = loc_Exact) ->
  ex <= fe (Zdigits2 (N / D) + ex) ->
  canonical mC eC -> eC <= 971 ->
  0 <= ex + o -> 0 <= eC + o ->
  N * 2 ^ (ex + o) <= D * (mC * 2 ^ (eC + o)) ->
  binary_round_aux prec emax false (N / D) ex lx = S754_zero false
  \/ exists m e,
      binary_round_aux prec emax false (N / D) ex lx = S754_finite false m e
      /\ canonical (Zpos m) e /\ e <= 971 /\ 0 <= e + o
      /\ Zpos m * 2 ^ (e + o) <= mC * 2 ^ (eC + o).
Proof.
  intros HD HN Hloc Hpre HC HeC Ho1 Ho2 Hle.
  assert (Hmx : 0 <= N / D) by (apply Z.div_pos; lia).
  unfold binary_round_aux, shr_fexp.
  change (fexp prec emax) with fe.
  set (mx := N / D) in *.
  set (n1 := fe (Zdigits2 mx + ex) - ex).
  assert (Hn1 : 0 <= n1) by (unfold n1; lia).
  destruct (shr_spec (shr_record_of_loc mx lx) ex n1) as (E1 & M1 & C1);
    [rewrite shr_m_of_loc; exact Hmx|].
  destruct (shr (shr_record_of_loc mx lx) ex n1) as [mrs1 e1].
  cbn [fst snd] in E1, M1, C1.
  rewrite shr_m_of_loc in M1, C1. rewrite Z.max_l in E1, M1, C1 by lia.
  set (m1 := round_nearest_even (shr_m mrs1) (loc_of_shr_record mrs1)).
  pose proof (round_nearest_even_bounds (shr_m mrs1) (loc_of_shr_record mrs1)) as Hm1.
  fold m1 in Hm1.
  assert (HQ : 0 < 2 ^ n1) by (apply pow2_pos; lia).
  assert (Hm' : 0 <= shr_m mrs1) by (rewrite M1; apply Z.div_pos; lia).
  assert (Hexact : N mod (D * 2 ^ n1) = 0 -> m1 = shr_m mrs1).
  { intros Hd. destruct (divides_split N D (2 ^ n1) HD HQ Hd) as [Hd1 Hd2].
    unfold m1. rewrite (loc_of_clear mrs1); [reflexivity|].
    apply C1; [|exact Hd2]. rewrite (Hloc Hd1). apply clear_of_exact. }
  assert (He1 : e1 = fe (Zdigits2 mx + ex)) by (unfold n1 in E1; lia).
  assert (Hkey : m1 * 2 ^ (e1 + o) <= mC * 2 ^ (eC + o)).
  { rewrite E1. apply (key_bound N D ex n1 m1 mC eC o); try assumption.
    - fold mx. rewrite <- M1. exact Hm1.
    - fold mx. rewrite <- M1. exact Hexact.
    - fold mx. lia. }
  set (n2 := fe (Zdigits2 m1 + e1) - e1).
  assert (Hm1pos : 0 <= m1) by lia.
  destruct (shr_spec (shr_record_of_loc m1 loc_Exact) e1 n2) as (E2 & M2 & _);
    [rewrite shr_m_of_loc; exact Hm1pos|].
  destruct (shr (shr_record_of_loc m1 loc_Exact) e1 n2) as [mrs2 e2].
  cbn [fst snd] in E2, M2. rewrite shr_m_of_loc in M2.
  set (k := Z.max n2 0) in *.
  assert (Hk : 0 <= k) by (unfold k; lia).
  assert (HR : 0 < 2 ^ k) by (apply pow2_pos; lia).
  assert (Hm2 : 0 <= shr_m mrs2) by (rewrite M2; apply Z.div_pos; lia).
  destruct (shr_m mrs2) as [|m2|m2] eqn:Em2; [left; reflexivity| |lia].
  assert (Hval : Zpos m2 * 2 ^ (e2 + o) <= mC * 2 ^ (eC + o)).
  { apply Z.le_trans with (m1 * 2 ^ (e1 + o)); [|exact Hkey].
    rewrite E2. replace (e1 + k + o) with (k + (e1 + o)) by lia.
    rewrite (Z.pow_add_r 2 k (e1 + o)) by lia.
    rewrite Z.mul_assoc. apply Z.mul_le_mono_nonneg_r; [apply Z.lt_le_incl, pow2_pos; lia|].
    rewrite M2. apply div_pow2_mul_le; assumption. }
  assert (Hcan : canonical (Zpos m2) e2).
  { split; [lia|].
    destruct (Z_lt_le_dec 0 n2) as [Hpos|Hneg].
    - assert (k = n2) by (unfold k; lia).
      assert (Zdigits2 (Zpos m2) = Zdigits2 m1 - n2).
      { rewrite M2, H. apply Zdigits2_div_pow2; [lia|]. rewrite <- H, <- M2. lia. }
      unfold n2 in *. rewrite E2. replace (Zdigits2 (Zpos m2) + (e1 + k)) with (Zdigits2 m1 + e1) by lia.
      lia.
    - assert (k = 0) by (unfold k; lia).
      rewrite H in *. change (2 ^ 0) with 1 in M2. rewrite Z.div_1_r in M2.
      rewrite E2, Z.add_0_r, M2.
      assert (fe (Zdigits2 m1 + e1) <= e1) by (unfold n2 in Hneg; lia).
      assert (e1 <= fe (Zdigits2 m1 + e1)); [|lia].
      destruct (Z.eq_dec (shr_m mrs1) 0) as [Hz|Hnz].
      + (* the first shift left nothing: the exponent is the least one *)
        assert (e1 = -1074); [|unfold fe; lia].
        rewrite Hz in M1.
        destruct (Z.eq_dec mx 0) as [Hmx0|Hmx0].
        * rewrite Hmx0 in He1. simpl Zdigits2 in He1. unfold n1, fe in *. lia.
        * assert (0 < mx) by lia.
          pose proof (Zdigits2_bounds mx H1) as [Blo _].
          assert (mx < 2 ^ n1).
          { destruct (Z_lt_le_dec mx (2 ^ n1)); [assumption|].
            assert (1 <= mx / 2 ^ n1) by (apply Z.div_le_lower_bound; lia). lia. }
          assert (Zdigits2 mx - 1 < n1).
          { destruct (Z_lt_le_dec (Zdigits2 mx - 1) n1); [assumption|].
            assert (2 ^ n1 <= 2 ^ (Zdigits2 mx - 1)) by (apply Z.pow_le_mono_r; lia). lia. }
          unfold n1, fe in *. lia.
      + assert (Hd : Zdigits2 (shr_m mrs1) = Zdigits2 mx - n1).
        { rewrite M1. apply Zdigits2_div_pow2; [lia|]. rewrite <- M1. lia. }
        assert (Zdigits2 (shr_m mrs1) <= Zdigits2 m1) by (apply Zdigits2_mono; lia).
        rewrite He1 at 1. unfold fe. lia. }
  assert (He2 : e2 <= 971).
  { destruct Hcan as [_ Hfe].
    destruct (Z.eq_dec e2 (-1074)) as [|Hne]; [lia|].
    assert (Hd53 : Zdigits2 (Zpos m2) = 53) by (unfold fe in Hfe; lia).
    assert (0 <= e2 + o) by lia.
    pose proof (scaled_lower (Zpos m2) e2 o ltac:(lia) H) as Hlow.
    pose proof (scaled_upper mC eC o HC Ho2) as Hup.
    rewrite Hd53 in Hlow.
    destruct (Z_le_gt_dec e2 eC) as [|Hgt]; [lia|].
    assert (2 ^ (53 + eC + o) <= 2 ^ (53 - 1 + e2 + o)) by (apply Z.pow_le_mono_r; lia).
    lia. }
  right. exists m2, e2.
  replace (e2 <=? emax - prec) with true by (symmetry; apply Z.leb_le; exact He2).
  repeat split; try assumption; try lia.
  - apply Hcan.
Qed.


(** *** Order *)

(** Valid binary64 numbers have exponents from [-1074] on. *)
Definition off : Z := 1074.

Lemma bounded_canonical (m : positive) (e : Z) :
  bounded prec emax m e = true <-> canonical (Zpos m) e /\ e <= 971.
Proof.
  unfold bounded, canonical_mantissa, canonical.
  change (fexp prec emax) with fe. change (emax - prec) with 971.
  change (Zpos (digits2_pos m)) with (Zdigits2 (Zpos m)).
  rewrite andb_true_iff, Z.eqb_eq, Z.leb_le. split.
  - intros [H1 H2]. split; [split; [lia|exact H1]|exact H2].
  - intros [[_ H1] H2]. split; assumption.
Qed.

(** On canonical numbers the order of the values is that of the exponents,
    then of the mantissas. *)
Lemma canonical_exp_lt (m1 e1 m2 e2 : Z) :
  canonical m1 e1 -> canonical m2 e2 -> e1 < e2 ->
  m1 * 2 ^ (e1 + off) < m2 * 2 ^ (e2 + off).
Proof.
  intros C1 C2 Hlt.
  pose proof (canonical_digits m1 e1 C1) as [_ H1].
  pose proof (canonical_digits m2 e2 C2) as [_ H2].
  pose proof (scaled_upper m1 e1 off C1 ltac:(unfold off; lia)) as Hup.
  destruct C2 as [Hm2 Hfe].
  assert (Hd : Zdigits2 m2 = 53) by (unfold fe in Hfe; lia).
  pose proof (scaled_lower m2 e2 off Hm2 ltac:(unfold off; lia)) as Hlow.
  rewrite Hd in Hlow.
  assert (2 ^ (53 + e1 + off) <= 2 ^ (53 - 1 + e2 + off))
    by (apply Z.pow_le_mono_r; unfold off; lia).
  lia.
Qed.

Lemma SFleb_canonical (m1 m2 : positive) (e1 e2 : Z) :
  canonical (Zpos m1) e1 -> canonical (Zpos m2) e2 ->
  (SFleb (S754_finite false m1 e1) (S754_finite false m2 e2) = true
   <-> Zpos m1 * 2 ^ (e1 + off) <= Zpos m2 * 2 ^ (e2 + off)).
Proof.
  intros C1 C2. unfold SFleb, SFcompare.
  destruct (Z.compare_spec e1 e2) as [E|L|G].
  - subst e2. rewrite Pos.compare_cont_spec. simpl.
    pose proof (canonical_digits _ _ C1) as [_ H1].
    assert (HP : 0 < 2 ^ (e1 + off)) by (apply pow2_pos; unfold off; lia).
    destruct (Pos.compare_spec m1 m2) as [E|L|G]; split; intros H; try reflexivity;
      try discriminate; try (subst; lia); try nia.
  - pose proof (canonical_exp_lt _ _ _ _ C1 C2 L). split; [lia|reflexivity].
  - pose proof (canonical_exp_lt _ _ _ _ C2 C1 ltac:(lia)). split; [discriminate|lia].
Qed.

(** [x] is a number with [0 <= x <= c]. *)
Definition upto (c x : float) : Prop :=
  (0 <=? x)%float = true /\ (x <=? c)%float = true.

(** The same on specifications, the bound being [mC * 2^eC]. *)
Definition sf_upto (mC eC : Z) (x : spec_float) : Prop :=
  match x with
  | S754_zero _ => True
  | S754_finite false m e =>
      canonical (Zpos m) e /\ e <= 971
      /\ Zpos m * 2 ^ (e + off) <= mC * 2 ^ (eC + off)
  | _ => False
  end.

Lemma upto_sf (c x : float) (mC : positive) (eC : Z) :
  Prim2SF c = S754_finite false mC eC ->
  (upto c x <-> sf_upto (Zpos mC) eC (Prim2SF x)).
Proof.
  intros Hc. unfold upto. rewrite !leb_spec, Hc.
  change (Prim2SF 0) with (S754_zero false).
  pose proof (Prim2SF_valid x) as Hv. pose proof (Prim2SF_valid c) as Hvc.
  rewrite Hc in Hvc. simpl in Hvc. apply bounded_canonical in Hvc. destruct Hvc as [HcC _].
  destruct (Prim2SF x) as [s|s| |s m e]; simpl.
  - split; auto.
  - destruct s; split; intros H; try contradiction; destruct H; discriminate.
  - split; intros H; try contradiction; destruct H; discriminate.
  - destruct s.
    + split; intros H; try contradiction; destruct H; discriminate.
    + simpl in Hv. apply bounded_canonical in Hv. destruct Hv as [Hcx Hex].
      rewrite <- (SFleb_canonical m mC e eC Hcx HcC).
      split; [intros [_ H]; auto | intros (_ & _ & H); auto].
Qed.

Lemma sf_upto_valid (mC eC : Z) (x : spec_float) :
  sf_upto mC eC x -> valid_binary x = true.
Proof.
  destruct x as [s|s| |[] m e]; simpl; try contradiction; try reflexivity.
  intros (H1 & H2 & _). apply bounded_canonical. split; assumption.
Qed.


(** *** Multiplication *)

Lemma Zdigits2_mul (a b : Z) :
  0 < a -> 0 < b -> Zdigits2 a + Zdigits2 b - 1 <= Zdigits2 (a * b).
Proof.
  intros Ha Hb.
  pose proof (Zdigits2_bounds a Ha) as [Alo _]. pose proof (Zdigits2_bounds b Hb) as [Blo _].
  pose proof (Zdigits2_pos a Ha). pose proof (Zdigits2_pos b Hb).
  assert (Hab : 0 < a * b) by lia.
  pose proof (Zdigits2_bounds (a * b) Hab) as [_ Phi].
  destruct (Z_le_gt_dec (Zdigits2 a + Zdigits2 b - 1) (Zdigits2 (a * b))) as [|G]; [assumption|].
  assert (2 ^ Zdigits2 (a * b) <= 2 ^ ((Zdigits2 a - 1) + (Zdigits2 b - 1)))
    by (apply Z.pow_le_mono_r; lia).
  rewrite Z.pow_add_r in H1 by lia.
  assert (2 ^ (Zdigits2 a - 1) * 2 ^ (Zdigits2 b - 1) <= a * b)
    by (apply Z.mul_le_mono_nonneg; try assumption; apply Z.lt_le_incl, pow2_pos; lia).
  lia.
Qed.

Lemma pow2_split (a b : Z) : 0 <= a -> 0 <= b -> 2 ^ (a + b) = 2 ^ a * 2 ^ b.
Proof. intros. apply Z.pow_add_r; assumption. Qed.

(** Passing from the offset of products to that of numbers. *)
Lemma offset_drop (m e mC eC : Z) :
  0 <= e + off -> 0 <= eC + off ->
  m * 2 ^ (e + 2 * off) <= mC * 2 ^ (eC + 2 * off) ->
  m * 2 ^ (e + off) <= mC * 2 ^ (eC + off).
Proof.
  intros He HeC H.
  replace (e + 2 * off) with ((e + off) + off) in H by lia.
  replace (eC + 2 * off) with ((eC + off) + off) in H by lia.
  rewrite (pow2_split (e + off) off), (pow2_split (eC + off) off) in H
    by (unfold off in *; lia).
  assert (0 < 2 ^ off) by (apply pow2_pos; unfold off; lia).
  apply Z.mul_le_mono_pos_r with (p := 2 ^ off); [assumption|]. lia.
Qed.

Lemma sf_upto_mul (mA eA mB eB mC eC : Z) (x y : spec_float) :
  0 <= mA -> 0 <= mB -> -1074 <= eA -> -1074 <= eB ->
  canonical mC eC -> eC <= 971 ->
  mA * mB * 2 ^ (eA + eB + 2 * off) <= mC * 2 ^ (eC + 2 * off) ->
  sf_upto mA eA x -> sf_upto mB eB y -> sf_upto mC eC (SF64mul x y).
Proof.
  intros HmA HmB HeA HeB HC HeC Hprod Hx Hy.
  pose proof (canonical_digits mC eC HC) as [_ HeC'].
  destruct x as [sx|sx| |[] mx ex]; simpl in Hx; try contradiction;
    destruct y as [sy|sy| |[] my ey]; simpl in Hy; try contradiction;
    try exact I.
  destruct Hx as (Cx & Ex & Vx). destruct Hy as (Cy & Ey & Vy).
  pose proof (canonical_digits _ _ Cx) as [Dx Lx].
  pose proof (canonical_digits _ _ Cy) as [Dy Ly].
  unfold SF64mul, SFmul. cbn [xorb].
  replace (Zpos (mx * my)) with (Zpos (mx * my) / 1) by apply Z.div_1_r.
  assert (Hpre : ex + ey <= fe (Zdigits2 (Zpos (mx * my) / 1) + (ex + ey))).
  { rewrite Z.div_1_r, Pos2Z.inj_mul.
    pose proof (Zdigits2_mul (Zpos mx) (Zpos my) ltac:(lia) ltac:(lia)).
    pose proof (Zdigits2_pos (Zpos mx) ltac:(lia)). pose proof (Zdigits2_pos (Zpos my) ltac:(lia)).
    destruct Cx as [_ Fx]. destruct Cy as [_ Fy]. unfold fe in *. lia. }
  assert (Hval : Zpos (mx * my) * 2 ^ (ex + ey + 2 * off) <= 1 * (mC * 2 ^ (eC + 2 * off))).
  { rewrite Z.mul_1_l.
    apply Z.le_trans with (mA * mB * 2 ^ (eA + eB + 2 * off)); [|exact Hprod].
    replace (ex + ey + 2 * off) with ((ex + off) + (ey + off)) by lia.
    replace (eA + eB + 2 * off) with ((eA + off) + (eB + off)) by lia.
    rewrite (pow2_split (ex + off) (ey + off)), (pow2_split (eA + off) (eB + off))
      by (unfold off; lia).
    rewrite Pos2Z.inj_mul.
    replace (Zpos mx * Zpos my * (2 ^ (ex + off) * 2 ^ (ey + off)))
      with ((Zpos mx * 2 ^ (ex + off)) * (Zpos my * 2 ^ (ey + off))) by lia.
    replace (mA * mB * (2 ^ (eA + off) * 2 ^ (eB + off)))
      with ((mA * 2 ^ (eA + off)) * (mB * 2 ^ (eB + off))) by lia.
    assert (0 < 2 ^ (ex + off)) by (apply pow2_pos; unfold off; lia).
    assert (0 < 2 ^ (ey + off)) by (apply pow2_pos; unfold off; lia).
    apply Z.mul_le_mono_nonneg; lia. }
  destruct (round_aux_upper (Zpos (mx * my)) 1 (ex + ey) loc_Exact mC eC (2 * off)
              ltac:(lia) ltac:(lia) ltac:(reflexivity) Hpre HC HeC
              ltac:(unfold off; lia) ltac:(unfold off; lia) Hval)
    as [Hz | (m & e & Hr & Cr & Er & Or & Vr)].
  - rewrite Hz. exact I.
  - rewrite Hr. simpl. pose proof (canonical_digits _ _ Cr) as [_ Lr].
    split; [exact Cr|split; [exact Er|]].
    apply offset_drop; [unfold off; lia | unfold off; lia | exact Vr].
Qed.


Lemma sf_upto_weaken (mA eA mC eC : Z) (x : spec_float) :
  mA * 2 ^ (eA + off) <= mC * 2 ^ (eC + off) -> sf_upto mA eA x -> sf_upto mC eC x.
Proof.
  intros H. destruct x as [s|s| |[] m e]; simpl; auto.
  intros (H1 & H2 & H3). split; [assumption|split; [assumption|lia]].
Qed.

(** *** Addition *)

Lemma iter_xO (m d : positive) : Zpos (Pos.iter xO m d) = Zpos m * 2 ^ Zpos d.
Proof.
  induction d as [|d IH] using Pos.peano_ind.
  - simpl. rewrite (Pos2Z.inj_xO m). change (2 ^ 1) with 2. lia.
  - rewrite Pos.iter_succ, Pos2Z.inj_xO, IH, Pos2Z.inj_succ, Z.pow_succ_r by lia. lia.
Qed.

Lemma shl_align_spec (m : positive) (e e0 : Z) :
  snd (shl_align m e e0) = Z.min e e0
  /\ Zpos (fst (shl_align m e e0)) = Zpos m * 2 ^ (e - Z.min e e0).
Proof.
  unfold shl_align. destruct (e0 - e) as [|d|d] eqn:E; cbn [fst snd].
  - rewrite Z.min_l by lia. rewrite Z.sub_diag. change (2 ^ 0) with 1. lia.
  - rewrite Z.min_l by lia. rewrite Z.sub_diag. change (2 ^ 0) with 1. lia.
  - rewrite Z.min_r by lia. rewrite iter_xO.
    replace (e - e0) with (Zpos d) by lia. lia.
Qed.

Lemma Zdigits2_mul_pow2 (m k : Z) :
  0 < m -> 0 <= k -> Zdigits2 (m * 2 ^ k) = Zdigits2 m + k.
Proof.
  intros Hm Hk. pose proof (Zdigits2_bounds m Hm) as [Lo Hi].
  pose proof (Zdigits2_pos m Hm). pose proof (pow2_pos k Hk).
  apply Zdigits2_unique; [lia|].
  replace (Zdigits2 m + k - 1) with ((Zdigits2 m - 1) + k) by lia.
  rewrite (pow2_split (Zdigits2 m - 1) k), (pow2_split (Zdigits2 m) k) by lia.
  split; [apply Z.mul_le_mono_nonneg_r; lia | apply Z.mul_lt_mono_pos_r; lia].
Qed.

Lemma binary_round_upper (S : positive) (ez mC eC : Z) :
  -1074 <= ez -> canonical mC eC -> eC <= 971 ->
  Zpos S * 2 ^ (ez + off) <= mC * 2 ^ (eC + off) ->
  sf_upto mC eC (binary_round prec emax false S ez).
Proof.
  intros Hez HC HeC Hval. pose proof (canonical_digits _ _ HC) as [_ LC].
  unfold binary_round. change (fexp prec emax) with fe.
  change (Zpos (digits2_pos S)) with (Zdigits2 (Zpos S)).
  set (t := fe (Zdigits2 (Zpos S) + ez)).
  destruct (shl_align_spec S ez t) as [E M].
  destruct (shl_align S ez t) as [mz ez2]. cbn [fst snd] in E, M.
  assert (Ht : -1074 <= t) by (unfold t, fe; lia).
  assert (Hd : Zdigits2 (Zpos mz) = Zdigits2 (Zpos S) + (ez - Z.min ez t))
    by (rewrite M; apply Zdigits2_mul_pow2; lia).
  replace (Zpos mz) with (Zpos mz / 1) by apply Z.div_1_r.
  assert (Hpre : ez2 <= fe (Zdigits2 (Zpos mz / 1) + ez2)).
  { rewrite Z.div_1_r, Hd, E.
    replace (Zdigits2 (Zpos S) + (ez - Z.min ez t) + Z.min ez t)
      with (Zdigits2 (Zpos S) + ez) by lia.
    fold t. lia. }
  assert (Hv : Zpos mz * 2 ^ (ez2 + off) <= 1 * (mC * 2 ^ (eC + off))).
  { rewrite Z.mul_1_l, M, E.
    replace (Zpos S * 2 ^ (ez - Z.min ez t) * 2 ^ (Z.min ez t + off))
      with (Zpos S * 2 ^ (ez + off)); [exact Hval|].
    rewrite <- Z.mul_assoc, <- pow2_split by (unfold off; lia).
    f_equal. f_equal. lia. }
  destruct (round_aux_upper (Zpos mz) 1 ez2 loc_Exact mC eC off
              ltac:(lia) ltac:(lia) ltac:(reflexivity) Hpre HC HeC
              ltac:(unfold off; lia) ltac:(unfold off; lia) Hv)
    as [Hz | (m & e & Hr & Cr & Er & Or & Vr)].
  - rewrite Hz. exact I.
  - rewrite Hr. simpl. split; [exact Cr|split; [exact Er|exact Vr]].
Qed.

Lemma sf_upto_add (mA eA mB eB mC eC : Z) (x y : spec_float) :
  0 <= mA -> 0 <= mB -> -1074 <= eA -> -1074 <= eB ->
  canonical mC eC -> eC <= 971 ->
  mA * 2 ^ (eA + off) + mB * 2 ^ (eB + off) <= mC * 2 ^ (eC + off) ->
  sf_upto mA eA x -> sf_upto mB eB y -> sf_upto mC eC (SF64add x y).
Proof.
  intros HmA HmB HeA HeB HC HeC Hsum Hx Hy.
  assert (0 < 2 ^ (eA + off)) by (apply pow2_pos; unfold off; lia).
  assert (0 < 2 ^ (eB + off)) by (apply pow2_pos; unfold off; lia).
  destruct x as [sx|sx| |[] mx ex]; simpl in Hx; try contradiction;
    destruct y as [sy|sy| |[] my ey]; simpl in Hy; try contradiction.
  - unfold SF64add, SFadd. destruct sx, sy; exact I.
  - unfold SF64add, SFadd. apply (sf_upto_weaken mB eB); [nia|exact Hy].
  - unfold SF64add, SFadd. apply (sf_upto_weaken mA eA); [nia|exact Hx].
  - destruct Hx as (Cx & Ex & Vx). destruct Hy as (Cy & Ey & Vy).
    pose proof (canonical_digits _ _ Cx) as [_ Lx].
    pose proof (canonical_digits _ _ Cy) as [_ Ly].
    unfold SF64add, SFadd. cbn [cond_Zopp].
    destruct (shl_align_spec mx ex (Z.min ex ey)) as [_ Mx].
    destruct (shl_align_spec my ey (Z.min ex ey)) as [_ My].
    replace (Z.min ex (Z.min ex ey)) with (Z.min ex ey) in Mx by lia.
    replace (Z.min ey (Z.min ex ey)) with (Z.min ex ey) in My by lia.
    set (ax := fst (shl_align mx ex (Z.min ex ey))) in *.
    set (ay := fst (shl_align my ey (Z.min ex ey))) in *.
    change (Zpos ax + Zpos ay) with (Zpos (ax + ay)).
    unfold binary_normalize.
    apply binary_round_upper; [lia|assumption|assumption|].
    rewrite Pos2Z.inj_add, Mx, My, Z.mul_add_distr_r.
    rewrite <- !Z.mul_assoc, <- !pow2_split by (unfold off; lia).
    replace (ex - Z.min ex ey + (Z.min ex ey + off)) with (ex + off) by lia.
    replace (ey - Z.min ex ey + (Z.min ex ey + off)) with (ey + off) by lia.
    lia.
Qed.


(** *** Division of two integers *)

Lemma new_location_zero (nb : Z) : new_location nb 0 = loc_Exact.
Proof. unfold new_location. destruct (Z.even nb); reflexivity. Qed.

Lemma Zdigits2_lower (q t : Z) : 0 <= t -> 2 ^ t <= q -> t + 1 <= Zdigits2 q.
Proof.
  intros Ht Hq. pose proof (pow2_pos t Ht).
  pose proof (Zdigits2_bounds q ltac:(lia)) as [_ Hi].
  destruct (Z_le_gt_dec (t + 1) (Zdigits2 q)) as [|G]; [assumption|].
  assert (2 ^ Zdigits2 q <= 2 ^ t) by (apply Z.pow_le_mono_r; [lia|]; lia). lia.
Qed.

Lemma sf_upto_div (a b : Z) (mC eC : Z) :
  0 <= a -> 0 < b -> canonical mC eC -> eC <= 971 ->
  a * 2 ^ off <= b * (mC * 2 ^ (eC + off)) ->
  sf_upto mC eC (SF64div (Z2SF a) (Z2SF b)).
Proof.
  intros Ha Hb HC HeC Hval. pose proof (canonical_digits _ _ HC) as [_ LC].
  destruct b as [|pb|pb]; try lia.
  destruct a as [|pa|pa]; try lia; [exact I|].
  unfold Z2SF, SF64div, SFdiv, SFdiv_core_binary. cbn [xorb].
  change (fexp prec emax) with fe.
  set (d1 := Zdigits2 (Zpos pa)). set (d2 := Zdigits2 (Zpos pb)).
  replace (d1 + 0 - (d2 + 0)) with (d1 - d2) by lia.
  change (0 - 0) with 0.
  set (e' := Z.min (fe (d1 - d2)) 0).
  set (s := 0 - e').
  assert (Hs : 0 <= s) by (unfold s, e'; lia).
  set (m' := match s with
             | 0 => Zpos pa
             | Zpos _ => Z.shiftl (Zpos pa) s
             | Zneg _ => 0
             end).
  assert (Hm' : m' = Zpos pa * 2 ^ s).
  { unfold m'. destruct s as [|ps|ps] eqn:Es; [change (2 ^ 0) with 1; lia| |lia].
    apply Z.shiftl_mul_pow2. lia. }
  assert (HQ : 0 < 2 ^ s) by (apply pow2_pos; lia).
  assert (Hm'pos : 0 < m') by (rewrite Hm'; lia).
  assert (Hq : Z.div_eucl m' (Zpos pb) = (m' / Zpos pb, m' mod Zpos pb)).
  { unfold Z.div, Z.modulo. destruct (Z.div_eucl m' (Zpos pb)); reflexivity. }
  rewrite Hq.
  pose proof (Zdigits2_bounds (Zpos pa) ltac:(lia)) as [Lo1 Hi1].
  pose proof (Zdigits2_bounds (Zpos pb) ltac:(lia)) as [Lo2 Hi2].
  pose proof (Zdigits2_pos (Zpos pa) ltac:(lia)) as P1.
  pose proof (Zdigits2_pos (Zpos pb) ltac:(lia)) as P2.
  fold d1 in Lo1, Hi1, P1. fold d2 in Lo2, Hi2, P2.
  assert (Hpre : e' <= fe (Zdigits2 (m' / Zpos pb) + e')).
  { destruct (Z_le_gt_dec 0 (d1 - 1 + s - d2)) as [Hbig|Hsmall].
    - assert (Hlow : 2 ^ (d1 - 1 + s - d2) <= m' / Zpos pb).
      { apply Z.div_le_lower_bound; [lia|].
        apply Z.le_trans with (2 ^ d2 * 2 ^ (d1 - 1 + s - d2)).
        - apply Z.mul_le_mono_nonneg_r; [apply Z.lt_le_incl, pow2_pos; lia | lia].
        - rewrite <- pow2_split by lia.
          replace (d2 + (d1 - 1 + s - d2)) with ((d1 - 1) + s) by lia.
          rewrite pow2_split by lia. rewrite Hm'.
          apply Z.mul_le_mono_nonneg_r; lia. }
      pose proof (Zdigits2_lower _ _ Hbig Hlow).
      unfold s, e', fe in *. lia.
    - pose proof (Zdigits2_nonneg (m' / Zpos pb)).
      unfold s, e', fe in *. lia. }
  assert (Hv : m' * 2 ^ (e' + off) <= Zpos pb * (mC * 2 ^ (eC + off))).
  { apply Z.le_trans with (Zpos pa * 2 ^ off); [|exact Hval].
    rewrite Hm', <- Z.mul_assoc, <- pow2_split by (unfold s, e', fe, off in *; lia).
    replace (s + (e' + off)) with off by (unfold s; lia). lia. }
  destruct (round_aux_upper m' (Zpos pb) e' (new_location (Zpos pb) (m' mod Zpos pb)) mC eC off
              ltac:(lia) ltac:(lia)
              (fun H => eq_trans (f_equal _ H) (new_location_zero _))
              Hpre HC HeC ltac:(unfold e', fe, off; lia) ltac:(unfold off; lia) Hv)
    as [Hz | (m & e & Hr & Cr & Er & Or & Vr)].
  - rewrite Hz. exact I.
  - rewrite Hr. simpl. split; [exact Cr|split; [exact Er|exact Vr]].
Qed.

(** *** Rounding to an integer *)

Lemma round_half_even_upto (m : positive) (e K : Z) :
  -1074 <= e -> Zpos m * 2 ^ (e + off) <= K * 2 ^ off ->
  0 <= round_half_even m e <= K.
Proof.
  intros He Hv. assert (HO : 0 < 2 ^ off) by (apply pow2_pos; unfold off; lia).
  unfold round_half_even. destruct e as [|pe|pe].
  - rewrite Z.add_0_l in Hv. change (2 ^ 0) with 1. nia.
  - assert (0 < 2 ^ Zpos pe) by (apply pow2_pos; lia).
    rewrite pow2_split in Hv by (unfold off; lia). nia.
  - set (d := 2 ^ Zpos pe) in *.
    assert (Hd : 0 < d) by (apply pow2_pos; lia).
    assert (Hm : Zpos m <= K * d).
    { replace off with ((Zneg pe + off) + Zpos pe) in Hv at 2 by lia.
      rewrite (pow2_split (Zneg pe + off) (Zpos pe)) in Hv by (unfold off in *; lia).
      fold d in Hv.
      assert (0 < 2 ^ (Zneg pe + off)) by (apply pow2_pos; unfold off in *; lia).
      apply Z.mul_le_mono_pos_l with (p := 2 ^ (Zneg pe + off)); [assumption|]. lia. }
    pose proof (Z.div_mod (Zpos m) d ltac:(lia)) as Hdm.
    pose proof (Z.mod_pos_bound (Zpos m) d Hd) as Hmb.
    assert (Hq : 0 <= Zpos m / d) by (apply Z.div_pos; lia).
    assert (HqK : Zpos m / d <= K) by (apply Z.div_le_upper_bound; lia).
    destruct (Z.compare_spec (2 * (Zpos m mod d)) d) as [E|L|G].
    + destruct (Z.even (Zpos m / d)); [lia|]. nia.
    + lia.
    + nia.
Qed.

(** *** On floats *)

Lemma upto_mul (a b c x y : float) (mA mB mC : positive) (eA eB eC : Z) :
  Prim2SF a = S754_finite false mA eA ->
  Prim2SF b = S754_finite false mB eB ->
  Prim2SF c = S754_finite false mC eC ->
  Zpos mA * Zpos mB * 2 ^ (eA + eB + 2 * off) <= Zpos mC * 2 ^ (eC + 2 * off) ->
  upto a x -> upto b y -> upto c (x * y)%float.
Proof.
  intros Ha Hb Hc Hprod Hx Hy.
  pose proof (Prim2SF_valid a) as Va. rewrite Ha in Va. apply bounded_canonical in Va.
  pose proof (Prim2SF_valid b) as Vb. rewrite Hb in Vb. apply bounded_canonical in Vb.
  pose proof (Prim2SF_valid c) as Vc. rewrite Hc in Vc. apply bounded_canonical in Vc.
  destruct Va as [Ca _], Vb as [Cb _], Vc as [Cc Ec].
  apply (upto_sf a x mA eA Ha) in Hx. apply (upto_sf b y mB eB Hb) in Hy.
  apply (upto_sf c _ mC eC Hc). rewrite mul_spec.
  apply (sf_upto_mul (Zpos mA) eA (Zpos mB) eB); try assumption; try lia.
  - apply (canonical_digits _ _ Ca).
  - apply (canonical_digits _ _ Cb).
Qed.

Lemma upto_add (a b c x y : float) (mA mB mC : positive) (eA eB eC : Z) :
  Prim2SF a = S754_finite false mA eA ->
  Prim2SF b = S754_finite false mB eB ->
  Prim2SF c = S754_finite false mC eC ->
  Zpos mA * 2 ^ (eA + off) + Zpos mB * 2 ^ (eB + off) <= Zpos mC * 2 ^ (eC + off) ->
  upto a x -> upto b y -> upto c (x + y)%float.
Proof.
  intros Ha Hb Hc Hsum Hx Hy.
  pose proof (Prim2SF_valid a) as Va. rewrite Ha in Va. apply bounded_canonical in Va.
  pose proof (Prim2SF_valid b) as Vb. rewrite Hb in Vb. apply bounded_canonical in Vb.
  pose proof (Prim2SF_valid c) as Vc. rewrite Hc in Vc. apply bounded_canonical in Vc.
  destruct Va as [Ca _], Vb as [Cb _], Vc as [Cc Ec].
  apply (upto_sf a x mA eA Ha) in Hx. apply (upto_sf b y mB eB Hb) in Hy.
  apply (upto_sf c _ mC eC Hc). rewrite add_spec.
  apply (sf_upto_add (Zpos mA) eA (Zpos mB) eB); try assumption; try lia.
  - apply (canonical_digits _ _ Ca).
  - apply (canonical_digits _ _ Cb).
Qed.

(** The quotient of two integers [0 <= a <= b], [b] positive, is a float
    between zero and one. *)
Lemma int_truediv_unit (a b : Z) :
  0 <= a <= b -> 0 < b -> exists q, int_truediv a b = Ok q /\ upto 1 q.
Proof.
  intros Hab Hb.
  assert (H1 : Prim2SF 1 = S754_finite false 4503599627370496 (-52)) by reflexivity.
  assert (HC : canonical 4503599627370496 (-52)) by (split; [lia|reflexivity]).
  assert (Hs : sf_upto 4503599627370496 (-52) (SF64div (Z2SF a) (Z2SF b))).
  { apply sf_upto_div; try assumption; try lia.
    replace (4503599627370496 * 2 ^ (-52 + off)) with (2 ^ off) by reflexivity.
    assert (0 < 2 ^ off) by (apply pow2_pos; unfold off; lia). nia. }
  unfold int_truediv. replace (b =? 0) with false by (symmetry; apply Z.eqb_neq; lia).
  exists (SF2Prim (SF64div (Z2SF a) (Z2SF b))). split.
  - destruct (SF64div (Z2SF a) (Z2SF b)) as [s|s| |s m e]; simpl in Hs; try contradiction;
      reflexivity.
  - apply (upto_sf 1 _ _ _ H1). rewrite Prim2SF_SF2Prim; [exact Hs|].
    apply (sf_upto_valid _ _ _ Hs).
Qed.

Lemma py_round_upto (c x : float) (mC : positive) (eC K : Z) :
  Prim2SF c = S754_finite false mC eC ->
  Zpos mC * 2 ^ (eC + off) = K * 2 ^ off ->
  upto c x -> exists n, py_round x = Ok n /\ 0 <= n <= K.
Proof.
  intros Hc HK Hx. apply (upto_sf c x mC eC Hc) in Hx.
  assert (HO : 0 < 2 ^ off) by (apply pow2_pos; unfold off; lia).
  assert (0 < K).
  { destruct (Z_lt_le_dec 0 K); [assumption|].
    assert (0 < Zpos mC * 2 ^ (eC + off)); [|nia].
    apply Z.mul_pos_pos; [lia|].
    pose proof (Prim2SF_valid c) as Vc. rewrite Hc in Vc. apply bounded_canonical in Vc.
    destruct Vc as [Cc _]. pose proof (canonical_digits _ _ Cc).
    apply pow2_pos. unfold off. lia. }
  unfold py_round.
  destruct (Prim2SF x) as [s|s| |[] m e]; simpl in Hx; try contradiction.
  - exists 0. split; [reflexivity|lia].
  - destruct Hx as (Cx & Ex & Vx). pose proof (canonical_digits _ _ Cx) as [_ Lx].
    exists (round_half_even m e). split; [reflexivity|].
    apply round_half_even_upto; [exact Lx|]. rewrite <- HK. exact Vx.
Qed.


(** *** The constants of the code *)

Lemma upto_times_075 (x : float) : upto 1 x -> upto 0.75 (x * 0.75)%float.
Proof.
  intros Hx.
  apply (upto_mul 1 0.75 0.75 x 0.75 4503599627370496 6755399441055744 6755399441055744
                  (-52) (-53) (-53)); try reflexivity; try assumption;
    first [split; reflexivity | vm_compute; discriminate].
Qed.

Lemma upto_times_025 (x : float) : upto 1 x -> upto 0.25 (x * 0.25)%float.
Proof.
  intros Hx.
  apply (upto_mul 1 0.25 0.25 x 0.25 4503599627370496 4503599627370496 4503599627370496
                  (-52) (-54) (-54)); try reflexivity; try assumption;
    first [split; reflexivity | vm_compute; discriminate].
Qed.

Lemma upto_times_100 (x : float) : upto 1 x -> upto 100 (x * 100)%float.
Proof.
  intros Hx.
  apply (upto_mul 1 100 100 x 100 4503599627370496 7036874417766400 7036874417766400
                  (-52) (-46) (-46)); try reflexivity; try assumption;
    first [split; reflexivity | vm_compute; discriminate].
Qed.

Lemma upto_weighted_sum (a b : float) : upto 0.75 a -> upto 0.25 b -> upto 1 (a + b)%float.
Proof.
  intros Ha Hb.
  apply (upto_add 0.75 0.25 1 a b 6755399441055744 4503599627370496 4503599627370496
                  (-53) (-54) (-52)); try reflexivity; try assumption.
Qed.

Lemma py_round_percent (x : float) : upto 100 x -> exists n, py_round x = Ok n /\ 0 <= n <= 100.
Proof.
  intros Hx.
  apply (py_round_upto 100 x 7036874417766400 (-46) 100); try reflexivity; assumption.
Qed.

(** *** The order of the numbers between 0 and 1 *)

(** The value of a number that is not negative, as a multiple of
    [2^-1074]. *)
Definition scaled (x : spec_float) : Z :=
  match x with
  | S754_finite false m e => Zpos m * 2 ^ (e + off)
  | _ => 0
  end.

Lemma sf_upto_compare (mA eA mB eB : Z) (x y : spec_float) :
  sf_upto mA eA x -> sf_upto mB eB y -> SFcompare x y = Some (scaled x ?= scaled y).
Proof.
  assert (Hpos : forall m e, canonical (Zpos m) e -> 0 < Zpos m * 2 ^ (e + off)).
  { intros m e Hc. pose proof (canonical_digits _ _ Hc) as [_ He].
    assert (0 < 2 ^ (e + off)) by (apply pow2_pos; unfold off; lia). nia. }
  destruct x as [s1|s1| |[] m1 e1], y as [s2|s2| |[] m2 e2]; simpl; try contradiction;
    try reflexivity.
  - intros _ (Hc & _). pose proof (Hpos _ _ Hc) as H.
    destruct (Zpos m2 * 2 ^ (e2 + off)); [lia | reflexivity | lia].
  - intros (Hc & _) _. pose proof (Hpos _ _ Hc) as H.
    destruct (Zpos m1 * 2 ^ (e1 + off)); [lia | reflexivity | lia].
  - intros (C1 & _) (C2 & _). f_equal.
    destruct (Z.compare_spec e1 e2) as [E|L|G].
    + subst e2. rewrite Pos.compare_cont_spec. simpl.
      pose proof (canonical_digits _ _ C1) as [_ H1].
      assert (HP : 0 < 2 ^ (e1 + off)) by (apply pow2_pos; unfold off; lia).
      destruct (Pos.compare_spec m1 m2) as [E|L|G]; symmetry.
      * subst. apply Z.compare_refl.
      * apply Z.compare_lt_iff. nia.
      * apply Z.compare_gt_iff. nia.
    + symmetry. apply Z.compare_lt_iff. exact (canonical_exp_lt _ _ _ _ C1 C2 L).
    + symmetry. apply Z.compare_gt_iff. apply (canonical_exp_lt _ _ _ _ C2 C1). lia.
Qed.

Lemma one_spec : Prim2SF 1 = S754_finite false 4503599627370496 (-52).
Proof. reflexivity. Qed.

(** Between 0 and 1 the comparisons of floats are those of the values. *)
Lemma upto_ltb (x y : float) :
  upto 1 x -> upto 1 y ->
  (x <? y)%float = (scaled (Prim2SF x) <? scaled (Prim2SF y)).
Proof.
  intros Hx Hy. apply (upto_sf 1 x _ _ one_spec) in Hx. apply (upto_sf 1 y _ _ one_spec) in Hy.
  rewrite ltb_spec. unfold SFltb. rewrite (sf_upto_compare _ _ _ _ _ _ Hx Hy).
  unfold Z.ltb. destruct (scaled (Prim2SF x) ?= scaled (Prim2SF y)); reflexivity.
Qed.

Lemma upto_leb (x y : float) :
  upto 1 x -> upto 1 y ->
  (x <=? y)%float = (scaled (Prim2SF x) <=? scaled (Prim2SF y)).
Proof.
  intros Hx Hy. apply (upto_sf 1 x _ _ one_spec) in Hx. apply (upto_sf 1 y _ _ one_spec) in Hy.
  rewrite leb_spec. unfold SFleb. rewrite (sf_upto_compare _ _ _ _ _ _ Hx Hy).
  unfold Z.leb. destruct (scaled (Prim2SF x) ?= scaled (Prim2SF y)); reflexivity.
Qed.

Lemma upto_zero : upto 1 0.
Proof. split; reflexivity. Qed.

End FloatFacts.

(** ** The matcher: URL normalisation *)

Module NormalizeFacts.
Import PyStr PyStrFacts Matching.

(** The normal form as the glossary words it: scheme, host and path all
    lowercased. *)
Definition spec_normalize_url {U : UrlLib} (url : string) : res string :=
  let* parsed := urlparse (strip url) in
  Ok (lower (scheme parsed) +:+ "://" +:+ lower (netloc parsed)
      +:+ lower (strip_trailing_slash (or_else (path parsed) "/"))).

(** C2, as stated, fails: the path keeps its case. *)
Lemma normalize_url_keeps_path_case :
  @normalize_url Ref.url_lib "https://Example.com/Foo"
  <> @spec_normalize_url Ref.url_lib "https://Example.com/Foo"
  /\ @normalize_url Ref.url_lib "https://Example.com/Foo" = Ok "https://example.com/Foo".
Proof. split; [vm_compute; discriminate | vm_compute; reflexivity]. Qed.

Lemma endswith_snoc (q : string) (c : ascii) :
  endswith (q +:+ String c EmptyString) (String c EmptyString) = true.
Proof.
  unfold endswith. rewrite rev_snoc. change (rev (String c EmptyString)) with (String c EmptyString).
  simpl. destruct (ascii_dec c c) as [_|Hne]; [destruct (rev q); reflexivity | contradiction].
Qed.

(** What [path[:-1] if path != "/" and path.endswith("/") else path] is:
    the root stays, a path [q/] with [q] not empty becomes [q], and a path
    that does not end with a slash stays. *)
Lemma strip_trailing_slash_spec (p : string) :
  (p = "/" -> strip_trailing_slash p = "/")
  /\ (forall q, q <> EmptyString -> p = q +:+ "/" -> strip_trailing_slash p = q)
  /\ ((forall q, p <> q +:+ "/") -> strip_trailing_slash p = p).
Proof.
  unfold strip_trailing_slash. split; [|split].
  - intros ->. reflexivity.
  - intros q Hq ->.
    destruct (String.eqb_spec (q +:+ "/") "/") as [Heq|_].
    + apply (f_equal drop_last) in Heq. rewrite drop_last_snoc in Heq.
      simpl in Heq. contradiction.
    + rewrite endswith_snoc. simpl. apply drop_last_snoc.
  - intros Hno. destruct (String.eqb p "/"); simpl; [reflexivity|].
    destruct (endswith p "/") eqn:F; [|reflexivity].
    apply endswith_char in F. destruct (Hno _ F).
Qed.

(** C2, amended: whatever the parser, the normal form of a URL it accepts
    is the lowercased scheme, ["://"], the lowercased host and then a path
    [p] in the case the parser returned it.  With [full] the parsed path,
    or ["/"] when that is empty: [p] is ["/"] when [full] is the root; [p]
    is [q] when [full] is [q/] for a [q] that is not empty, so that the
    trailing slash is removed; and [p] is [full] when [full] does not end
    with a slash.  The path is never empty, query and fragment do not occur
    in the normal form, and a URL the parser rejects has none. *)
Theorem normalize_url_shape {U : UrlLib} (url : string) :
  match urlparse (strip url) with
  | Raise e => normalize_url url = Raise e
  | Ok parsed =>
      exists p,
        normalize_url url
        = Ok (lower (scheme parsed) +:+ "://" +:+ lower (netloc parsed) +:+ p)
        /\ p <> EmptyString
        /\ let full := or_else (path parsed) "/" in
           (full = "/" -> p = "/")
           /\ (forall q, q <> EmptyString -> full = q +:+ "/" -> p = q)
           /\ ((forall q, full <> q +:+ "/") -> p = full)
  end.
Proof.
  unfold normalize_url.
  destruct (urlparse (strip url)) as [parsed|e]; simpl; [|reflexivity].
  exists (strip_trailing_slash (or_else (path parsed) "/")).
  split; [reflexivity|].
  assert (Hne : or_else (path parsed) "/" <> EmptyString).
  { unfold or_else. destruct (path parsed); simpl; discriminate. }
  split; [|exact (strip_trailing_slash_spec _)].
  set (full := or_else (path parsed) "/") in *.
  unfold strip_trailing_slash.
  destruct (String.eqb_spec full "/") as [->|Hroot]; simpl; [discriminate|].
  destruct (endswith full "/") eqn:F; [|exact Hne].
  apply endswith_char in F. intros Hp. rewrite Hp in F. simpl in F. contradiction.
Qed.

(** On CPython's parser: case, trailing slash, query and fragment. *)
Lemma normalize_url_examples :
  @normalize_url Ref.url_lib " HTTPS://Example.COM/Urunler/Siyah-Elbise/?renk=1#ust "
  = Ok "https://example.com/Urunler/Siyah-Elbise"
  /\ @normalize_url Ref.url_lib "https://example.com/" = Ok "https://example.com/"
  /\ @normalize_url Ref.url_lib "https://example.com" = Ok "https://example.com/"
  /\ @normalize_url Ref.url_lib "https://example.com/a//" = Ok "https://example.com/a/".
Proof. vm_compute. split; [reflexivity|]. split; [reflexivity|]. split; reflexivity. Qed.

End NormalizeFacts.

(** ** The recovery panel *)

Module RecoveryFacts.
Import PyFloat FloatFacts Matching Main.

(** The base rate as the specification words it: the integer nearest to
    the exact [100 * recovering / total], ties going to the even one. *)
Definition spec_base_rate (recovering total : Z) : Z :=
  let q := 100 * recovering / total in
  match (2 * ((100 * recovering) mod total) ?= total) with
  | Lt => q
  | Gt => q + 1
  | Eq => if Z.even q then q else q + 1
  end.

Definition sample_row (status : string) : ComparisonRow :=
  mkRow "https://old.example/a" "https://new.example/a" 0 0 0 0 0 0 status "exact_url".

(** 200 rows, 115 of them recovering. *)
Definition sample_rows : list ComparisonRow :=
  (repeat (sample_row "toparlaniyor") 115 ++ repeat (sample_row "manual_gerekli") 85)%list.

(** C8, as stated, fails: for 115 recovering rows out of 200 the quotient
    115/200 is the float just below 0.575, its product with 100 is just below
    57.5, and the base rate is 57 where [round(100 * 115 / 200)] is 58; the
    day-7 rate is 62 and not 63. *)
Lemma base_rate_is_not_the_exact_rounding :
  base_rate_of 115 200 = Ok 57
  /\ spec_base_rate 115 200 = 58
  /\ build_recovery_panel sample_rows
     = Ok [mkPanel 7 62 115 0; mkPanel 14 67 115 0; mkPanel 30 75 115 0].
Proof. repeat split; vm_compute; reflexivity. Qed.

Lemma filter_length_le {A : Type} (f : A -> bool) (l : list A) :
  (length (List.filter f l) <= length l)%nat.
Proof. induction l as [|x l IH]; simpl; [lia|]. destruct (f x); simpl; lia. Qed.

Lemma base_rate_range (recovering total : Z) :
  0 <= recovering <= total -> 0 < total ->
  exists q base,
    int_truediv recovering (Z.max 1 total) = Ok q
    /\ py_round (q * 100)%float = Ok base
    /\ base_rate_of recovering total = Ok base
    /\ 0 <= base <= 100.
Proof.
  intros Hr Ht.
  destruct (int_truediv_unit recovering (Z.max 1 total) ltac:(lia) ltac:(lia))
    as (q & Hq & Uq).
  destruct (py_round_percent (q * 100)%float (upto_times_100 q Uq)) as (base & Hb & Rb).
  exists q, base. unfold base_rate_of. rewrite Hq. simpl. rewrite Hb. auto.
Qed.

(** C8, amended: for a non-empty list of comparison rows the panel has the
    three horizons 7, 14 and 30, each with the rate [min(100, base + bonus)]
    for the bonuses 5, 10 and 18, and [0 <= base <= day-7 <= day-14 <= day-30
    <= 100].  The base rate is the integer nearest (ties to even) to the
    binary64 product of 100 and the binary64 quotient [recovering / total],
    where [recovering] counts the rows with status [toparlaniyor] or
    [yeni_toparlaniyor]. *)
Theorem recovery_panel_rates (rows : list ComparisonRow) :
  rows <> [] ->
  let total := Z.of_nat (length rows) in
  let recovering := Z.of_nat (length (List.filter is_recovering rows)) in
  let unresolved :=
    Z.of_nat (length (List.filter (fun r => String.eqb (c_status r) "duzeltildi_ama_toparlanmadi")
                             rows)) in
  exists q base,
    int_truediv recovering total = Ok q
    /\ py_round (q * 100)%float = Ok base
    /\ build_recovery_panel rows
       = Ok [mkPanel 7 (Z.min 100 (base + 5)) recovering unresolved;
             mkPanel 14 (Z.min 100 (base + 10)) recovering unresolved;
             mkPanel 30 (Z.min 100 (base + 18)) recovering unresolved]
    /\ 0 <= base
    /\ base <= Z.min 100 (base + 5)
    /\ Z.min 100 (base + 5) <= Z.min 100 (base + 10)
    /\ Z.min 100 (base + 10) <= Z.min 100 (base + 18)
    /\ Z.min 100 (base + 18) <= 100.
Proof.
  intros Hne total recovering unresolved.
  assert (Ht : 0 < total).
  { unfold total. destruct rows; [contradiction|simpl; lia]. }
  assert (Hr : 0 <= recovering <= total).
  { unfold recovering, total. pose proof (filter_length_le is_recovering rows). lia. }
  destruct (base_rate_range recovering total Hr Ht) as (q & base & Hq & Hb & Hbase & Rb).
  rewrite Z.max_r in Hq by lia.
  exists q, base. split; [exact Hq|]. split; [exact Hb|]. split.
  - unfold build_recovery_panel. destruct rows as [|r rows]; [contradiction|].
    fold total. fold recovering. fold unresolved. rewrite Hbase. reflexivity.
  - lia.
Qed.

(** A list with one recovering row. *)
Lemma recovery_panel_rates_witness :
  exists q base,
    int_truediv 1 1 = Ok q
    /\ py_round (q * 100)%float = Ok base
    /\ build_recovery_panel [sample_row "toparlaniyor"]
       = Ok [mkPanel 7 (Z.min 100 (base + 5)) 1 0;
             mkPanel 14 (Z.min 100 (base + 10)) 1 0;
             mkPanel 30 (Z.min 100 (base + 18)) 1 0]
    /\ 0 <= base
    /\ base <= Z.min 100 (base + 5)
    /\ Z.min 100 (base + 5) <= Z.min 100 (base + 10)
    /\ Z.min 100 (base + 10) <= Z.min 100 (base + 18)
    /\ Z.min 100 (base + 18) <= 100.
Proof.
  apply (recovery_panel_rates [sample_row "toparlaniyor"]). discriminate.
Defined.

End RecoveryFacts.

(** ** The matcher *)

Module MatchFacts.
Import PyStr PyFloat FloatFacts Matching.

Lemma res_map_Forall2 {A B : Type} (f : A -> res B) (l : list A) (l' : list B) :
  res_map f l = Ok l' -> Forall2 (fun x y => f x = Ok y) l l'.
Proof.
  revert l'. induction l as [|x l IH]; intros l' H; simpl in H.
  - injection H as <-. constructor.
  - destruct (f x) as [y|e] eqn:Fx; simpl in H; [|discriminate].
    destruct (res_map f l) as [ys|e] eqn:Fl; simpl in H; [|discriminate].
    injection H as <-. constructor; [exact Fx | apply IH; reflexivity].
Qed.

(** What holds of the start and is kept by every round holds at the end of
    a loop that ends. *)
Lemma res_fold_inv {A S : Type} (f : S -> A -> res S) (P : S -> Prop) (l : list A) :
  (forall s x s', In x l -> P s -> f s x = Ok s' -> P s') ->
  forall s s', P s -> res_fold f l s = Ok s' -> P s'.
Proof.
  induction l as [|x l IH]; intros Hstep s s' Hs H; simpl in H.
  - injection H as <-. exact Hs.
  - destruct (f s x) as [s1|e] eqn:Fx; simpl in H; [|discriminate].
    apply (IH (fun s x s' Hin => Hstep s x s' (or_intror Hin)) s1 s'); [|exact H].
    apply (Hstep s x s1); [now left | exact Hs | exact Fx].
Qed.

(** The same for a property of the state and of the elements gone
    through so far. *)
Lemma res_fold_prefix {A S : Type} (f : S -> A -> res S) (P : list A -> S -> Prop)
    (l : list A) (s0 s' : S) :
  P [] s0 ->
  (forall pre x post s s1,
     l = (pre ++ x :: post)%list -> P pre s -> f s x = Ok s1 -> P (pre ++ [x])%list s1) ->
  res_fold f l s0 = Ok s' -> P l s'.
Proof.
  intros H0 Hstep.
  assert (Hgen : forall post pre s,
            l = (pre ++ post)%list -> P pre s -> res_fold f post s = Ok s' -> P l s').
  { induction post as [|x post IH]; intros pre s Hl Hp H; simpl in H.
    - injection H as <-. rewrite Hl, app_nil_r. exact Hp.
    - destruct (f s x) as [s1|e] eqn:Fx; simpl in H; [|discriminate].
      apply (IH (pre ++ [x])%list s1); [|exact (Hstep _ _ _ _ _ Hl Hp Fx)|exact H].
      rewrite <- app_assoc. exact Hl. }
  exact (Hgen l [] s0 eq_refl H0).
Qed.

Section WithLibs.
Context {U : UrlLib} {D : DiffLib}.

Lemma result_row_fields (o n : string) (sc : Z) (rs t : string) (m : MatchResult) :
  result_row o n sc rs t = Ok m ->
  old_url m = o /\ new_url m = n /\ score m = sc /\ reason m = rs /\ page_type m = t.
Proof.
  unfold result_row. intros H.
  destruct (path_of o) as [op|e]; simpl in H; [|discriminate].
  destruct (if nonempty n then path_of n else Ok EmptyString) as [np|e]; simpl in H;
    [|discriminate].
  injection H as <-. simpl. auto.
Qed.

Lemma slug_stage_old_url (idx : NewIndex) (o t s : string) (m : MatchResult) :
  slug_stage idx o t s = Ok m -> old_url m = o.
Proof.
  unfold slug_stage. intros H.
  destruct (best_candidate s (candidates_for idx t)) as [best|e]; simpl in H; [|discriminate].
  destruct (percent_of (snd best)) as [pct|e]; simpl in H; [|discriminate].
  destruct (target_truthy (fst best) && (60 <=? pct)).
  - apply (result_row_fields _ _ _ _ _ _ H).
  - apply (result_row_fields _ _ _ _ _ _ H).
Qed.

Lemma match_row_old_url (idx : NewIndex) (row : UrlRow) (m : MatchResult) :
  match_row idx row = Ok m -> old_url m = row_url row.
Proof.
  unfold match_row. intros H.
  destruct (row_page_type row) as [t|e]; simpl in H; [|discriminate].
  destruct (normalize_url (row_url row)) as [n|e]; simpl in H; [|discriminate].
  destruct (path_of (row_url row)) as [p|e]; simpl in H; [|discriminate].
  destruct (slug_of (row_url row)) as [s|e]; simpl in H; [|discriminate].
  destruct (new_by_norm idx !! n).
  - apply (result_row_fields _ _ _ _ _ _ H).
  - destruct (new_by_path idx !! lower p).
    + apply (result_row_fields _ _ _ _ _ _ H).
    + apply (slug_stage_old_url _ _ _ _ _ H).
Qed.

(** C9: when the matcher returns, it returns one result per old URL, in
    the order of the old URLs: the list of the [old_url] fields of the
    results is the list of the old URLs, so the lengths agree and the
    [i]-th result is that of the [i]-th old URL. *)
Theorem match_urls_one_per_old_url (old_rows new_rows : list UrlRow)
    (results : list MatchResult) :
  match_urls old_rows new_rows = Ok results ->
  length results = length old_rows
  /\ map old_url results = map row_url old_rows
  /\ forall i row, old_rows !! i = Some row ->
       exists r, results !! i = Some r /\ old_url r = row_url row.
Proof.
  unfold match_urls. intros H.
  destruct (build_index new_rows) as [idx|e]; simpl in H; [|discriminate].
  apply res_map_Forall2 in H.
  assert (Hmap : map old_url results = map row_url old_rows).
  { induction H as [|row r rows rs Hr _ IH]; [reflexivity|].
    simpl. rewrite IH, (match_row_old_url idx row r Hr). reflexivity. }
  split; [|split].
  - symmetry. apply (Forall2_length _ _ _ H).
  - exact Hmap.
  - intros i row Hi.
    destruct (Forall2_lookup_l _ _ _ _ _ H Hi) as (r & Hr & Hm).
    exists r. split; [exact Hr | apply (match_row_old_url idx row r Hm)].
Qed.

(** *** The slug-similarity stage *)

Lemma jaccard_unit (old_slug cand_slug : string) :
  exists j, jaccard old_slug cand_slug = Ok j /\ upto 1 j.
Proof.
  unfold jaccard.
  set (A := list_to_set (tokenize_slug old_slug) : gset string).
  set (B := list_to_set (tokenize_slug cand_slug) : gset string).
  assert (Hle : (size (intersection A B) <= size (union A B))%nat).
  { apply subseteq_size. intros x Hx. apply elem_of_intersection in Hx.
    apply elem_of_union. left. apply Hx. }
  destruct (Z.of_nat (size (union A B)) =? 0) eqn:E.
  - apply Z.eqb_eq in E. apply int_truediv_unit; lia.
  - apply Z.eqb_neq in E. apply int_truediv_unit; lia.
Qed.

Lemma combined_score_unit (old_slug cand_slug : string) :
  upto 1 (similarity old_slug cand_slug) ->
  exists sc, combined_score old_slug cand_slug = Ok sc /\ upto 1 sc.
Proof.
  intros Hs. unfold combined_score.
  destruct (jaccard_unit old_slug cand_slug) as (j & Hj & Uj).
  rewrite Hj. simpl. eexists. split; [reflexivity|].
  apply upto_weighted_sum; [apply upto_times_075 | apply upto_times_025]; assumption.
Qed.

(** [sc] is the combined score of the candidate [c] against [old_slug]:
    [0.75 * ratio + 0.25 * jaccard] on the two slugs. *)
Definition scores (old_slug c : string) (sc : float) : Prop :=
  exists cand_slug j,
    slug_of c = Ok cand_slug
    /\ jaccard old_slug cand_slug = Ok j
    /\ sc = (similarity old_slug cand_slug * 0.75 + j * 0.25)%float.

Lemma scores_combined (old_slug c cs : string) (sc : float) :
  slug_of c = Ok cs -> combined_score old_slug cs = Ok sc -> scores old_slug c sc.
Proof.
  intros Hc Hsc. unfold combined_score in Hsc.
  destruct (jaccard old_slug cs) as [j|e] eqn:Hj; simpl in Hsc; [|discriminate].
  injection Hsc as <-. exists cs, j. auto.
Qed.

Lemma scores_upto (old_slug c : string) (sc : float) :
  (forall cs, slug_of c = Ok cs -> upto 1 (similarity old_slug cs)) ->
  scores old_slug c sc -> upto 1 sc.
Proof.
  intros Hsim (cs & j & Hc & Hj & ->).
  destruct (combined_score_unit old_slug cs (Hsim cs Hc)) as (sc & Hsc & Usc).
  unfold combined_score in Hsc. rewrite Hj in Hsc. simpl in Hsc.
  injection Hsc as <-. exact Usc.
Qed.

Lemma scores_unique (old_slug c : string) (a b : float) :
  scores old_slug c a -> scores old_slug c b -> a = b.
Proof.
  intros (cs & j & Hc & Hj & ->) (cs' & j' & Hc' & Hj' & ->).
  rewrite Hc in Hc'. injection Hc' as <-. rewrite Hj in Hj'. injection Hj' as <-. reflexivity.
Qed.

(** The best of a list of candidates: the highest combined score among
    them, 0 when none is above 0, together with the first candidate that
    has it. *)
Definition best_of (old_slug : string) (candidates : list string)
    (target : option string) (best : float) : Prop :=
  upto 1 best
  /\ (forall c sc, In c candidates -> scores old_slug c sc -> (sc <=? best)%float = true)
  /\ match target with
     | None => best = 0%float
     | Some t =>
         (0 <? best)%float = true
         /\ exists pre post,
              candidates = (pre ++ t :: post)%list
              /\ scores old_slug t best
              /\ forall c sc, In c pre -> scores old_slug c sc -> (sc <? best)%float = true
     end.

Lemma best_candidate_best (old_slug : string) (candidates : list string)
    (target : option string) (best : float) :
  (forall c cs, In c candidates -> slug_of c = Ok cs -> upto 1 (similarity old_slug cs)) ->
  best_candidate old_slug candidates = Ok (target, best) ->
  best_of old_slug candidates target best.
Proof.
  intros Hsim Hbest. unfold best_candidate in Hbest.
  refine (res_fold_prefix (best_step old_slug)
            (fun pre st => best_of old_slug pre (fst st) (snd st))
            candidates (None, 0%float) (target, best) _ _ Hbest).
  - split; [exact upto_zero|]. split; [intros c sc []|reflexivity].
  - intros pre c post [t0 b0] s1 Hl (Ub & Hmax & Hfirst) Hstep. cbn [fst snd] in *.
    assert (Hin : forall c', In c' (pre ++ [c])%list -> In c' candidates).
    { intros c' Hc'. rewrite Hl. apply in_app_or in Hc'. apply in_or_app.
      destruct Hc' as [H|[<-|[]]]; [left; exact H | right; now left]. }
    assert (Hup : forall c' sc', In c' (pre ++ [c])%list -> scores old_slug c' sc' -> upto 1 sc').
    { intros c' sc' Hc'. apply scores_upto. intros cs. apply Hsim. exact (Hin c' Hc'). }
    unfold best_step in Hstep.
    destruct (slug_of c) as [cs|e] eqn:Hc; simpl in Hstep; [|discriminate].
    destruct (combined_score old_slug cs) as [sc|e] eqn:Hsc; simpl in Hstep; [|discriminate].
    pose proof (scores_combined _ _ _ _ Hc Hsc) as Hscore.
    pose proof (Hup c sc ltac:(apply in_or_app; right; now left) Hscore) as Usc.
    assert (Hold : forall c' sc', In c' pre -> scores old_slug c' sc' ->
                     scaled (Prim2SF sc') <= scaled (Prim2SF b0)).
    { intros c' sc' Hc' Hs'.
      pose proof (Hmax c' sc' Hc' Hs') as Hle.
      rewrite (upto_leb sc' b0 (Hup c' sc' ltac:(apply in_or_app; now left) Hs') Ub) in Hle.
      lia. }
    destruct (b0 <? sc)%float eqn:Hlt; injection Hstep as <-; cbn [fst snd].
    + rewrite (upto_ltb b0 sc Ub Usc) in Hlt. apply Z.ltb_lt in Hlt.
      split; [exact Usc|]. split; [|split].
      * intros c' sc' Hc' Hs'. rewrite (upto_leb sc' sc (Hup c' sc' Hc' Hs') Usc).
        apply Z.leb_le. apply in_app_or in Hc'. destruct Hc' as [Hc'|[<-|[]]].
        -- pose proof (Hold c' sc' Hc' Hs'). lia.
        -- rewrite (scores_unique _ _ _ _ Hs' Hscore). lia.
      * rewrite (upto_ltb 0 sc upto_zero Usc). apply Z.ltb_lt.
        pose proof (proj1 Ub) as Hb0. rewrite (upto_leb 0 b0 upto_zero Ub) in Hb0.
        apply Z.leb_le in Hb0. lia.
      * exists pre, []. split; [reflexivity|]. split; [exact Hscore|].
        intros c' sc' Hc' Hs'.
        rewrite (upto_ltb sc' sc (Hup c' sc' ltac:(apply in_or_app; now left) Hs') Usc).
        apply Z.ltb_lt. pose proof (Hold c' sc' Hc' Hs'). lia.
    + rewrite (upto_ltb b0 sc Ub Usc) in Hlt. apply Z.ltb_ge in Hlt.
      split; [exact Ub|]. split.
      * intros c' sc' Hc' Hs'. rewrite (upto_leb sc' b0 (Hup c' sc' Hc' Hs') Ub).
        apply Z.leb_le. apply in_app_or in Hc'. destruct Hc' as [Hc'|[<-|[]]].
        -- exact (Hold c' sc' Hc' Hs').
        -- rewrite (scores_unique _ _ _ _ Hs' Hscore). exact Hlt.
      * destruct t0 as [t|]; [|exact Hfirst].
        destruct Hfirst as (Hpos & pre0 & post0 & -> & Ht & Hpre).
        split; [exact Hpos|]. exists pre0, (post0 ++ [c])%list.
        split; [rewrite <- app_assoc; reflexivity|]. split; [exact Ht | exact Hpre].
Qed.

(** The URLs of an index are URLs of the new rows. *)
Definition index_within (urls : list string) (idx : NewIndex) : Prop :=
  (forall u, In u (new_all_urls idx) -> In u urls)
  /\ (forall k l u, new_by_type idx !! k = Some l -> In u l -> In u urls).

Lemma build_index_within (new_rows : list UrlRow) (idx : NewIndex) :
  build_index new_rows = Ok idx -> index_within (map row_url new_rows) idx.
Proof.
  unfold build_index.
  apply (res_fold_inv index_row (index_within (map row_url new_rows))).
  - intros s row s' Hin [Hall Htype] Hstep. unfold index_row in Hstep.
    destruct (normalize_url (row_url row)) as [n|e]; simpl in Hstep; [|discriminate].
    destruct (path_of (row_url row)) as [p|e]; simpl in Hstep; [|discriminate].
    destruct (row_page_type row) as [t|e]; simpl in Hstep; [|discriminate].
    injection Hstep as <-.
    assert (Hu : In (row_url row) (map row_url new_rows)) by (apply in_map; exact Hin).
    split; simpl.
    + intros u Hu'. apply in_app_or in Hu'. destruct Hu' as [H|[<-|[]]]; auto.
    + intros k l u Hl Hul.
      apply lookup_insert_Some in Hl. destruct Hl as [[_ <-]|[_ Hl]].
      * apply in_app_or in Hul. destruct Hul as [H|[<-|[]]]; [|exact Hu].
        destruct (new_by_type s !! match new_by_type s !! t with
                                   | Some _ => t
                                   | None => "page"
                                   end) as [l0|] eqn:El; simpl in H; [|contradiction].
        apply (Htype _ _ _ El H).
      * apply (Htype _ _ _ Hl Hul).
  - split; simpl; [intros u []|].
    intros k l u Hl Hul. unfold empty_index in Hl. simpl in Hl.
    repeat (apply lookup_insert_Some in Hl; destruct Hl as [[_ <-]|[_ Hl]]; [destruct Hul|]).
    rewrite lookup_empty in Hl. discriminate.
Qed.

Lemma candidates_within (urls : list string) (idx : NewIndex) (t : string) :
  index_within urls idx -> forall c, In c (candidates_for idx t) -> In c urls.
Proof.
  intros [Hall Htype] c. unfold candidates_for.
  destruct (new_by_type idx !! t) as [[|x l]|] eqn:E; auto.
  apply (Htype _ _ _ E).
Qed.

Lemma percent_of_zero : percent_of 0 = Ok 0.
Proof. reflexivity. Qed.

(** C3: an old URL with neither an exact-URL nor an exact-path hit gets
    the result of the slug-similarity stage.  [best] is the highest combined
    score [0.75 * ratio + 0.25 * jaccard] of the old slug against the slugs
    of the candidates, 0 when no candidate scores above 0, and [target] the
    first candidate that has this score ([best_of]); [percent] is
    [round(100 * best)], between 0 and 100.  A percentage below 60 gives
    score 0, an empty [new_url] and the reason [manual_required]; a
    percentage of at least 60 gives the reason [slug_similarity], that
    first best candidate as [new_url] and the percentage as score, which
    lies in [60, 100].  New URLs are non-empty, as URL records are, and the
    sequence ratio of the library is between 0 and 1 on the slugs
    compared. *)
Theorem slug_similarity_threshold (new_rows : list UrlRow) (idx : NewIndex) (row : UrlRow)
    (r : MatchResult) :
  Forall (fun n => row_url n <> EmptyString) new_rows ->
  (forall n os cs, In n new_rows -> slug_of (row_url row) = Ok os ->
                   slug_of (row_url n) = Ok cs -> upto 1 (similarity os cs)) ->
  build_index new_rows = Ok idx ->
  match_row idx row = Ok r ->
  reason r <> "exact_url" -> reason r <> "exact_path" ->
  exists old_type old_slug target best percent,
    row_page_type row = Ok old_type
    /\ slug_of (row_url row) = Ok old_slug
    /\ best_of old_slug (candidates_for idx old_type) target best
    /\ py_round (best * 100)%float = Ok percent
    /\ 0 <= percent <= 100
    /\ (percent < 60 ->
        score r = 0 /\ new_url r = EmptyString /\ reason r = "manual_required")
    /\ (60 <= percent ->
        exists t,
          target = Some t /\ In t (map row_url new_rows)
          /\ scores old_slug t best
          /\ new_url r = t /\ reason r = "slug_similarity"
          /\ score r = percent /\ 60 <= score r <= 100).
Proof.
  intros Hne Hsim Hidx Hrow Hnu Hnp.
  pose proof (build_index_within new_rows idx Hidx) as Hwithin.
  unfold match_row in Hrow.
  destruct (row_page_type row) as [old_type|e] eqn:Htype; simpl in Hrow; [|discriminate].
  destruct (normalize_url (row_url row)) as [n|e]; simpl in Hrow; [|discriminate].
  destruct (path_of (row_url row)) as [p|e] eqn:Hp; simpl in Hrow; [|discriminate].
  destruct (slug_of (row_url row)) as [old_slug|e] eqn:Hslug; simpl in Hrow; [|discriminate].
  destruct (new_by_norm idx !! n);
    [apply result_row_fields in Hrow; destruct Hrow as (_ & _ & _ & Hr & _);
     contradiction|].
  destruct (new_by_path idx !! lower p);
    [apply result_row_fields in Hrow; destruct Hrow as (_ & _ & _ & Hr & _);
     contradiction|].
  unfold slug_stage in Hrow.
  assert (Hsim' : forall c cs, In c (candidates_for idx old_type) -> slug_of c = Ok cs ->
                               upto 1 (similarity old_slug cs)).
  { intros c cs Hc Hcs.
    pose proof (candidates_within _ idx old_type Hwithin c Hc) as Hin.
    apply in_map_iff in Hin. destruct Hin as (nrow & <- & Hin).
    apply (Hsim nrow old_slug cs Hin eq_refl Hcs). }
  destruct (best_candidate old_slug (candidates_for idx old_type)) as [[target best]|e] eqn:Hbest;
    simpl in Hrow; [|discriminate].
  pose proof (best_candidate_best old_slug _ _ _ Hsim' Hbest) as Hof.
  destruct Hof as (Ubest & Hmax & Hfirst).
  destruct (py_round_percent (best * 100)%float (upto_times_100 best Ubest))
    as (percent & Hpct & Rpct).
  unfold percent_of in Hrow at 1. rewrite Hpct in Hrow. simpl in Hrow.
  exists old_type, old_slug, target, best, percent.
  split; [reflexivity|]. split; [reflexivity|].
  split; [split; [exact Ubest|]; split; [exact Hmax | exact Hfirst]|].
  split; [exact Hpct|]. split; [exact Rpct|].
  assert (Htruthy : 60 <= percent -> exists t,
             target = Some t /\ In t (map row_url new_rows) /\ scores old_slug t best
             /\ target_truthy target = true).
  { intros H60. destruct target as [t|].
    - destruct Hfirst as (_ & pre & post & Hcands & Ht & _).
      assert (Hc : In t (candidates_for idx old_type))
        by (rewrite Hcands; apply in_or_app; right; now left).
      pose proof (candidates_within _ idx old_type Hwithin t Hc) as Hin.
      exists t. split; [reflexivity|]. split; [exact Hin|]. split; [exact Ht|].
      apply in_map_iff in Hin. destruct Hin as (nrow & <- & Hin).
      rewrite Forall_forall in Hne.
      specialize (Hne nrow (proj2 (list_elem_of_In _ _) Hin)).
      simpl. destruct (row_url nrow); [contradiction|reflexivity].
    - rewrite Hfirst in Hpct.
      change (py_round (0 * 100)%float) with (Ok 0 : res Z) in Hpct.
      injection Hpct as <-. lia. }
  destruct (Z_lt_le_dec percent 60) as [Hlow|Hhigh].
  - replace (60 <=? percent) with false in Hrow by (symmetry; apply Z.leb_gt; lia).
    rewrite andb_false_r in Hrow.
    apply result_row_fields in Hrow. destruct Hrow as (_ & Hn & Hs & Hr & _).
    split; [intros _; auto | intros H; lia].
  - destruct (Htruthy Hhigh) as (t & -> & Hin & Hsc & Ht).
    rewrite Ht in Hrow.
    replace (60 <=? percent) with true in Hrow by (symmetry; apply Z.leb_le; lia).
    simpl in Hrow.
    apply result_row_fields in Hrow. destruct Hrow as (_ & Hn & Hs & Hr & _).
    split; [intros H; lia|]. intros _. exists t.
    split; [reflexivity|]. split; [exact Hin|]. split; [exact Hsc|].
    split; [exact Hn|]. split; [exact Hr|]. split; [exact Hs|]. rewrite Hs. lia.
Qed.

End WithLibs.

Definition demo_old : list UrlRow :=
  [mkUrlRow "https://eski-site.com/urunler/siyah-elbise" (Some "product");
   mkUrlRow "https://eski-site.com/kategori/kadin-giyim-yeni" None;
   mkUrlRow "https://eski-site.com/hakkimizda" None].

Definition demo_new : list UrlRow :=
  [mkUrlRow "https://yeni-site.com/products/siyah-elbise" (Some "product");
   mkUrlRow "https://yeni-site.com/pages/kadin-giyim" None].

Definition demo_results : list MatchResult :=
  Eval vm_compute in
    match @match_urls Ref.url_lib Ref.diff_lib demo_old demo_new with
    | Ok l => l
    | Raise _ => []
    end.

Lemma match_urls_one_per_old_url_witness :
  length demo_results = length demo_old
  /\ map old_url demo_results = map row_url demo_old
  /\ forall i row, demo_old !! i = Some row ->
       exists r, demo_results !! i = Some r /\ old_url r = row_url row.
Proof.
  apply (@match_urls_one_per_old_url Ref.url_lib Ref.diff_lib demo_old demo_new demo_results).
  vm_compute. reflexivity.
Defined.

Definition demo_idx : NewIndex :=
  Eval vm_compute in
    match @build_index Ref.url_lib demo_new with
    | Ok i => i
    | Raise _ => empty_index
    end.

Definition demo_row : UrlRow :=
  mkUrlRow "https://eski-site.com/kategori/kadin-giyim-yeni" None.

Definition demo_match : MatchResult :=
  Eval vm_compute in
    match @match_row Ref.url_lib Ref.diff_lib demo_idx demo_row with
    | Ok r => r
    | Raise _ => mkMatch "" "" 0 "" "" "" ""
    end.

(** The old URL [.../kategori/kadin-giyim-yeni] against the two new URLs:
    accepted with 78 percent. *)
Lemma slug_similarity_threshold_witness :
  exists old_type old_slug target best percent,
    @row_page_type Ref.url_lib demo_row = Ok old_type
    /\ @slug_of Ref.url_lib (row_url demo_row) = Ok old_slug
    /\ @best_of Ref.url_lib Ref.diff_lib old_slug (candidates_for demo_idx old_type) target best
    /\ py_round (best * 100)%float = Ok percent
    /\ 0 <= percent <= 100
    /\ (percent < 60 ->
        score demo_match = 0 /\ new_url demo_match = EmptyString
        /\ reason demo_match = "manual_required")
    /\ (60 <= percent ->
        exists t,
          target = Some t /\ In t (map row_url demo_new)
          /\ @scores Ref.url_lib Ref.diff_lib old_slug t best
          /\ new_url demo_match = t /\ reason demo_match = "slug_similarity"
          /\ score demo_match = percent /\ 60 <= score demo_match <= 100).
Proof.
  apply (@slug_similarity_threshold Ref.url_lib Ref.diff_lib demo_new demo_idx demo_row
           demo_match).
  - repeat constructor; discriminate.
  - intros n os cs Hin Hos Hcs.
    destruct Hin as [<-|[<-|[]]]; vm_compute in Hos, Hcs;
      injection Hos as <-; injection Hcs as <-; split; vm_compute; reflexivity.
  - vm_compute. reflexivity.
  - vm_compute. reflexivity.
  - vm_compute. discriminate.
  - vm_compute. discriminate.
Defined.

End MatchFacts.

(** ** The comparison rows *)

Module ComparisonFacts.
Import PyStr Matching Main.

Lemma sort_insert_In {A K : Type} (lt : K -> K -> bool) (key : A -> K) (x y : A) (l : list A) :
  In y (sort_insert lt key x l) <-> y = x \/ In y l.
Proof.
  induction l as [|z l IH]; simpl.
  - intuition congruence.
  - destruct (lt (key z) (key x)); simpl; [rewrite IH|]; intuition congruence.
Qed.

(** Sorting keeps the elements. *)
Lemma py_sort_In {A K : Type} (lt : K -> K -> bool) (key : A -> K) (y : A) (l : list A) :
  In y (py_sort lt key l) <-> In y l.
Proof.
  induction l as [|x l IH]; simpl; [tauto|].
  rewrite sort_insert_In, IH. intuition congruence.
Qed.

Lemma res_map_In {A B : Type} (f : A -> res B) (l : list A) (l' : list B) (x : A) :
  res_map f l = Ok l' -> In x l -> exists y, f x = Ok y /\ In y l'.
Proof.
  intros H. apply MatchFacts.res_map_Forall2 in H.
  induction H as [|a b l l' Hab _ IH]; intros Hin; [destruct Hin|].
  destruct Hin as [->|Hin].
  - exists b. split; [exact Hab | now left].
  - destruct (IH Hin) as [y [Hy Hin']]. exists y. split; [exact Hy | now right].
Qed.

Section WithLibs.
Context {U : UrlLib} {D : DiffLib} {N : NumLib}.

(** In a scan every match is a page paired with itself, with score 100. *)
Lemma scan_match_score (row : UrlRow) (m : MatchResult) :
  scan_match row = Ok m -> score m = 100.
Proof.
  unfold scan_match. intros H.
  destruct (match row_type row with
            | Some t => if nonempty t then Ok t else infer_type (row_url row)
            | None => infer_type (row_url row)
            end) as [t|e]; simpl in H; [|discriminate].
  apply MatchFacts.result_row_fields in H. tauto.
Qed.

Lemma compare_status_migration (before after : Metrics) (item : MatchResult) :
  score item < 70 -> compare_status before after item "migration" = "manual_gerekli".
Proof.
  intros H. unfold compare_status. simpl.
  destruct (Z.ltb_spec (score item) 70) as [_|Hge]; [reflexivity | lia].
Qed.

(** C1: the matches are those of the pipeline, [analysis_matches]; the
    two snapshots are any two that are not empty.  The row of a match whose
    score is below 70 is among the comparison rows with status
    [manual_gerekli], whatever the clicks and positions are, and it has no
    entry in the unresolved list: a scan has no such match, and in a migration
    the status is decided by the score before any metric is read. *)
Theorem low_score_is_manual_gerekli
    (mode : string) (old_rows new_rows : list UrlRow) (matches : list MatchResult)
    (gsc_before_map gsc_after_map : gmap string Metrics)
    (rows : list ComparisonRow) (unresolved : list UnresolvedRow) (item : MatchResult) :
  analysis_matches mode old_rows new_rows = Ok matches ->
  gsc_before_map <> empty ->
  gsc_after_map <> empty ->
  build_comparison_rows matches gsc_before_map gsc_after_map mode = Ok (rows, unresolved) ->
  In item matches ->
  score item < 70 ->
  exists row,
    comparison_of gsc_before_map gsc_after_map mode item = Ok (row, None)
    /\ In row rows
    /\ c_old_url row = old_url item
    /\ c_new_url row = new_url item
    /\ c_status row = "manual_gerekli".
Proof.
  intros Hm Hb Ha Hrows Hin Hscore.
  assert (Hmode : mode = "migration").
  { unfold analysis_matches in Hm.
    destruct (String.eqb_spec mode "migration") as [->|_]; [reflexivity|].
    apply MatchFacts.res_map_Forall2 in Hm.
    assert (Hex : exists r, scan_match r = Ok item).
    { clear -Hm Hin. induction Hm as [|a b l l' Hab _ IH]; [destruct Hin|].
      destruct Hin as [->|Hin]; [exists a; exact Hab | exact (IH Hin)]. }
    destruct Hex as [r Hr]. apply scan_match_score in Hr. lia. }
  subst mode. unfold build_comparison_rows in Hrows.
  rewrite (bool_decide_eq_false_2 _ Hb), (bool_decide_eq_false_2 _ Ha) in Hrows.
  simpl in Hrows.
  destruct (res_map (comparison_of gsc_before_map gsc_after_map "migration") matches)
    as [pairs|e] eqn:Hpairs; simpl in Hrows; [|discriminate].
  injection Hrows as <- <-.
  destruct (res_map_In _ _ _ item Hpairs Hin) as [[row u] [Hrow Hinp]].
  exists row.
  assert (Hshape : u = None /\ c_old_url row = old_url item /\ c_new_url row = new_url item
                   /\ c_status row = "manual_gerekli").
  { unfold comparison_of in Hrow.
    destruct (pick_metric gsc_before_map (old_url item) (new_url item)) as [before|e];
      simpl in Hrow; [|discriminate].
    destruct (pick_metric gsc_after_map (new_url item) (old_url item)) as [after|e];
      simpl in Hrow; [|discriminate].
    rewrite (compare_status_migration before after item Hscore) in Hrow.
    simpl in Hrow. injection Hrow as <- <-. simpl. tauto. }
  destruct Hshape as [-> [Ho [Hn Hs]]].
  split; [exact Hrow|]. split; [|tauto].
  unfold py_sort_desc. apply py_sort_In.
  apply (in_map fst) in Hinp. exact Hinp.
Qed.

End WithLibs.

(** A migration with a page that has no counterpart, on snapshots where its
    clicks went up. *)
Definition manual_old : list UrlRow :=
  [mkUrlRow "https://old.com/urunler/siyah-elbise" (Some "product");
   mkUrlRow "https://old.com/hakkimizda" None].

Definition manual_new : list UrlRow :=
  [mkUrlRow "https://new.com/urunler/siyah-elbise" (Some "product")].

Definition manual_matches : list MatchResult :=
  Eval vm_compute in
    match @match_urls Ref.url_lib Ref.diff_lib manual_old manual_new with
    | Ok l => l
    | Raise _ => []
    end.

Definition manual_item : MatchResult :=
  Eval vm_compute in
    match manual_matches with
    | [_; m] => m
    | _ => mkMatch EmptyString EmptyString 100 EmptyString EmptyString EmptyString EmptyString
    end.

Definition manual_before : gmap string Metrics :=
  {[ "https://old.com/hakkimizda" := mkMetrics 10 200 8 ]}.

Definition manual_after : gmap string Metrics :=
  {[ "https://old.com/hakkimizda" := mkMetrics 50 400 3 ]}.

Definition manual_rows : list ComparisonRow * list UnresolvedRow :=
  Eval vm_compute in
    match @build_comparison_rows Ref.url_lib Ref.num_lib manual_matches manual_before
                                 manual_after "migration" with
    | Ok r => r
    | Raise _ => ([], [])
    end.

Lemma low_score_is_manual_gerekli_witness :
  score manual_item = 0
  /\ exists row,
       @comparison_of Ref.url_lib Ref.num_lib manual_before manual_after "migration" manual_item
       = Ok (row, None)
       /\ In row (fst manual_rows)
       /\ c_old_url row = "https://old.com/hakkimizda"
       /\ c_new_url row = EmptyString
       /\ c_status row = "manual_gerekli".
Proof.
  split; [reflexivity|].
  apply (@low_score_is_manual_gerekli Ref.url_lib Ref.diff_lib Ref.num_lib "migration"
           manual_old manual_new manual_matches manual_before manual_after
           (fst manual_rows) (snd manual_rows) manual_item).
  - vm_compute. reflexivity.
  - intros H. apply (f_equal (fun m => m !! "https://old.com/hakkimizda")) in H.
    vm_compute in H. discriminate.
  - intros H. apply (f_equal (fun m => m !! "https://old.com/hakkimizda")) in H.
    vm_compute in H. discriminate.
  - vm_compute. reflexivity.
  - right. left. reflexivity.
  - vm_compute. reflexivity.
Defined.

End ComparisonFacts.

(** ** The pipeline and its collaborators *)

Module PipelineFacts.
Import PyStr Matching Audit Main.

Ltac exec_inv H := inversion H; subst; clear H; simpl in *.

(** A run of [m] followed by [f] is a run of [m] that returns, followed by
    a run of [f], or a run of [m] that raises. *)
Lemma exec_bind {A B : Type} (m : prog A) (f : A -> prog B) (t : list call) (r : res B) :
  exec (pbind m f) t r ->
  (exists a t1 t2, exec m t1 (Ok a) /\ exec (f a) t2 r /\ t = (t1 ++ t2)%list)
  \/ (exists e, exec m t (Raise e) /\ r = Raise e).
Proof.
  revert t r.
  induction m as [a|e|p msg k IH|k IH|s l k IH|us k IH|s k IH|k IH]; intros t r H; simpl in H.
  - left. exists a, [], t. split; [constructor|]. split; [exact H | reflexivity].
  - exec_inv H. right. exists e. split; [constructor | reflexivity].
  - exec_inv H.
    + match goal with H : exec (pbind _ _) _ _ |- _ => destruct (IH _ _ H) as
        [(a & t1 & t2 & Hrun & Hrest & ->)|(e & Hrun & ->)] end.
      * left. exists a, t1, t2. split; [constructor; exact Hrun|]. split; [exact Hrest | reflexivity].
      * right. exists e. split; [constructor; exact Hrun | reflexivity].
    + right. exists e. split; [apply exec_progress_raise | reflexivity].
  - exec_inv H.
    + match goal with H : exec (pbind _ _) _ _ |- _ => destruct (IH _ _ H) as
        [(a & t1 & t2 & Hrun & Hrest & ->)|(e & Hrun & ->)] end.
      * left. exists a, t1, t2. split; [constructor; exact Hrun|]. split; [exact Hrest | reflexivity].
      * right. exists e. split; [constructor; exact Hrun | reflexivity].
    + right. exists e. split; [apply exec_cancel_raise | reflexivity].
  - exec_inv H.
    + match goal with H : exec (pbind _ _) _ _ |- _ => destruct (IH _ _ _ H) as
        [(a & t1 & t2 & Hrun & Hrest & ->)|(e & Hrun & ->)] end.
      * left. exists a, (CDiscover s l :: t1), t2.
        split; [econstructor; exact Hrun|]. split; [exact Hrest | reflexivity].
      * right. exists e. split; [econstructor; exact Hrun | reflexivity].
    + right. exists e. split; [apply exec_discover_raise | reflexivity].
  - exec_inv H.
    + match goal with H : exec (pbind _ _) _ _ |- _ => destruct (IH _ _ _ H) as
        [(a & t1 & t2 & Hrun & Hrest & ->)|(e & Hrun & ->)] end.
      * left. exists a, (CQuickAudit us :: t1), t2.
        split; [econstructor; exact Hrun|]. split; [exact Hrest | reflexivity].
      * right. exists e. split; [econstructor; exact Hrun | reflexivity].
    + right. exists e. split; [apply exec_audit_raise | reflexivity].
  - exec_inv H.
    + match goal with H : exec (pbind _ _) _ _ |- _ => destruct (IH _ _ _ H) as
        [(a & t1 & t2 & Hrun & Hrest & ->)|(e & Hrun & ->)] end.
      * left. exists a, (CRobots s :: t1), t2.
        split; [econstructor; exact Hrun|]. split; [exact Hrest | reflexivity].
      * right. exists e. split; [econstructor; exact Hrun | reflexivity].
    + right. exists e. split; [apply exec_robots_raise | reflexivity].
  - exec_inv H.
    match goal with H : exec (pbind _ _) _ _ |- _ => destruct (IH _ _ _ H) as
      [(a & t1 & t2 & Hrun & Hrest & ->)|(e & Hrun & ->)] end.
    + left. exists a, t1, t2. split; [econstructor; exact Hrun|]. split; [exact Hrest | reflexivity].
    + right. exists e. split; [econstructor; exact Hrun | reflexivity].
Qed.

(** A program that calls no collaborator. *)
Definition quiet {A : Type} (p : prog A) : Prop := forall t r, exec p t r -> t = [].

Lemma quiet_bind {A B : Type} (m : prog A) (f : A -> prog B) :
  quiet m -> (forall a, quiet (f a)) -> quiet (pbind m f).
Proof.
  intros Hm Hf t r H.
  destruct (exec_bind _ _ _ _ H) as [(a & t1 & t2 & H1 & H2 & ->)|(e & H1 & _)].
  - rewrite (Hm _ _ H1), (Hf _ _ _ H2). reflexivity.
  - exact (Hm _ _ H1).
Qed.

Lemma quiet_ret {A : Type} (a : A) : quiet (Ret a).
Proof. intros t r H. exec_inv H. reflexivity. Qed.

Lemma quiet_throw {A : Type} (e : exn) : quiet (@Throw A e).
Proof. intros t r H. exec_inv H. reflexivity. Qed.

Lemma quiet_lift {A : Type} (x : res A) : quiet (lift x).
Proof. destruct x; [apply quiet_ret | apply quiet_throw]. Qed.

Lemma quiet_progress (p : Z) (msg : string) : quiet (progress p msg).
Proof.
  intros t r H. unfold progress in H. exec_inv H; [|reflexivity].
  match goal with H : exec (Ret _) _ _ |- _ => exec_inv H end. reflexivity.
Qed.

Lemma quiet_cancel : quiet cancel.
Proof.
  intros t r H. unfold cancel in H. exec_inv H; [|reflexivity].
  match goal with H : exec (Ret _) _ _ |- _ => exec_inv H end. reflexivity.
Qed.

Lemma quiet_raise_app_error {A : Type} (m : string) (d : list string) :
  quiet (@raise_app_error A m d).
Proof.
  intros t r H. unfold raise_app_error in H. exec_inv H.
  match goal with H : exec (Throw _) _ _ |- _ => exec_inv H end. reflexivity.
Qed.

Create HintDb quiet.
#[local] Hint Resolve quiet_ret quiet_throw quiet_lift quiet_progress quiet_cancel
  quiet_raise_app_error : quiet.

Ltac quiet :=
  repeat first
    [ apply quiet_bind; [|intros ?]
    | solve [auto with quiet]
    | match goal with
      | |- quiet (let '(_, _) := ?x in _) => destruct x
      | |- quiet (if ?b then _ else _) => destruct b
      | |- quiet (match ?l with [] => _ | _ :: _ => _ end) => destruct l
      end ].

(** What the trace of every run of a program satisfies. *)
Definition traces {A : Type} (p : prog A) (P : list call -> Prop) : Prop :=
  forall t r, exec p t r -> P t.

Lemma traces_quiet_then {A B : Type} (m : prog A) (f : A -> prog B) (P : list call -> Prop) :
  quiet m -> P [] -> (forall a, traces (f a) P) -> traces (pbind m f) P.
Proof.
  intros Hm Hnil Hf t r H.
  destruct (exec_bind _ _ _ _ H) as [(a & t1 & t2 & Hrun & Hrest & ->)|(e & Hrun & _)].
  - rewrite (Hm _ _ Hrun). exact (Hf _ _ _ Hrest).
  - rewrite (Hm _ _ Hrun). exact Hnil.
Qed.

Lemma traces_then_quiet {A B : Type} (m : prog A) (f : A -> prog B) (P : list call -> Prop) :
  traces m P -> (forall a, quiet (f a)) -> traces (pbind m f) P.
Proof.
  intros Hm Hf t r H.
  destruct (exec_bind _ _ _ _ H) as [(a & t1 & t2 & Hrun & Hrest & ->)|(e & Hrun & _)].
  - rewrite (Hf _ _ _ Hrest), app_nil_r. exact (Hm _ _ Hrun).
  - exact (Hm _ _ Hrun).
Qed.

Lemma audited_urls_app (t1 t2 : list call) :
  audited_urls (t1 ++ t2) = (audited_urls t1 ++ audited_urls t2)%list.
Proof. unfold audited_urls. apply flat_map_app. Qed.

Lemma firstn_then_skipn {A : Type} (a b : nat) (l : list A) :
  (firstn a l ++ firstn b (skipn a l))%list = firstn (a + b) l.
Proof.
  revert l. induction a as [|a IH]; intros l; [reflexivity|].
  destruct l as [|x l]; simpl.
  - rewrite firstn_nil. reflexivity.
  - rewrite IH. reflexivity.
Qed.

Lemma py_take_length {A : Type} (n : Z) (l : list A) :
  0 <= n -> Z.of_nat (length (py_take n l)) <= n.
Proof.
  intros Hn. unfold py_take. destruct (Z.leb_spec 0 n) as [_|Hlt]; [|lia].
  pose proof (firstn_le_length (Z.to_nat n) l). rewrite length_firstn. lia.
Qed.

(** A trace of the audit stage: no call of the crawler, and the URLs
    audited are, in order, the first of [urls]. *)
Definition audit_trace (urls : list string) (t : list call) : Prop :=
  (forall s l, ~ In (CDiscover s l) t) /\ exists n, audited_urls t = firstn n urls.

Lemma audit_trace_nil (urls : list string) : audit_trace urls [].
Proof. split; [intros s l []|]. exists O. reflexivity. Qed.

Section WithLibs.
Context {U : UrlLib} {D : DiffLib} {N : NumLib} {C : CsvLib}.
Variable flags : FeatureFlags.

(** One round of the audit loop makes its call, or raises before it. *)
Lemma audit_batch_runs (urls : list string) (acc : list AuditItem) (idx : nat)
    (t : list call) (r : res (list AuditItem)) :
  exec (audit_batch urls acc idx) t r ->
  (t = [] /\ exists e, r = Raise e) \/ t = [CQuickAudit (firstn 40 (skipn idx urls))].
Proof.
  unfold audit_batch, cancel. simpl. intros H. exec_inv H.
  - match goal with H : exec (QuickAudit _ _) _ _ |- _ => exec_inv H end; [|right; reflexivity].
    right. f_equal.
    match goal with H : exec _ _ _ |- _ => revert H end.
    generalize (firstn 40 (skipn idx urls)). intros batch H.
    assert (Hq : quiet
      (let+ q := lift (PyFloat.int_truediv (Z.of_nat (idx + length batch))
                                           (Z.max 1 (Z.of_nat (length urls)))) in
       let+ part := lift (PyFloat.py_int (q * 15)%float) in
       let+ _ := progress (Z.min 88 (70 + part)) "Teknik audit devam ediyor..." in
       Ret (acc ++ items)%list)) by quiet.
    exact (Hq _ _ H).
  - left. split; [reflexivity|]. eexists. reflexivity.
Qed.

Lemma audit_loop_trace (urls : list string) (c a : nat) (acc : list AuditItem)
    (t : list call) (r : res (list AuditItem)) :
  exec (pfold (audit_batch urls) (map (fun i => (40 * i)%nat) (seq a c)) acc) t r ->
  audit_trace (skipn (40 * a) urls) t.
Proof.
  revert a acc t r. induction c as [|c IH]; intros a acc t r H; cbn [seq map pfold] in H.
  - inversion H; subst. apply audit_trace_nil.
  - destruct (exec_bind _ _ _ _ H) as [(x & t1 & t2 & Hrun & Hrest & ->)|(e & Hrun & _)].
    + destruct (audit_batch_runs _ _ _ _ _ Hrun) as [[_ [e He]] | ->]; [discriminate|].
      destruct (IH _ _ _ _ Hrest) as [Hno [n Hn]].
      split.
      * intros s l [Hin|Hin]; [discriminate | exact (Hno s l Hin)].
      * exists (40 + n)%nat. rewrite audited_urls_app, Hn.
        change (audited_urls [CQuickAudit ?x]) with (x ++ [])%list. rewrite app_nil_r.
        replace (40 * S a)%nat with (40 + 40 * a)%nat by lia.
        rewrite <- skipn_skipn. apply firstn_then_skipn.
    + destruct (audit_batch_runs _ _ _ _ _ Hrun) as [[-> _] | ->]; [apply audit_trace_nil|].
      split.
      * intros s l [Hin|[]]. discriminate.
      * exists 40%nat. change (audited_urls [CQuickAudit ?x]) with (x ++ [])%list.
        apply app_nil_r.
Qed.

Lemma robots_part_trace (site_url : string) (items : list AuditItem) (t : list call)
    (r : res (list AuditItem)) :
  exec (if nonempty (strip site_url)
        then let+ _ := cancel in
             RobotsCheck site_url (fun checks => Ret (items ++ checks)%list)
        else Ret items) t r ->
  t = [] \/ t = [CRobots site_url].
Proof.
  destruct (nonempty (strip site_url)); intros H.
  - exec_inv H; [|left; reflexivity].
    match goal with H : exec (RobotsCheck _ _) _ _ |- _ => exec_inv H end;
      [|right; reflexivity].
    match goal with H : exec (Ret _) _ _ |- _ => exec_inv H end. right. reflexivity.
  - exec_inv H. left. reflexivity.
Qed.

Lemma audit_stage_trace (run_audit : bool) (audit_limit : Z) (new_rows : list UrlRow)
    (site_url : string) (t : list call) (r : res (list AuditItem)) :
  exec (audit_stage run_audit audit_limit new_rows site_url) t r ->
  audit_trace (py_take (audit_cap audit_limit) (map row_url new_rows)) t.
Proof.
  unfold audit_stage. destruct run_audit; [|intros H; exec_inv H; apply audit_trace_nil].
  set (urls := py_take (audit_cap audit_limit) (map row_url new_rows)).
  intros H.
  destruct (exec_bind _ _ _ _ H) as [(x & t1 & t2 & Hrun & Hrest & ->)|(e & Hrun & _)];
    [|rewrite (quiet_progress _ _ _ _ Hrun); apply audit_trace_nil].
  rewrite (quiet_progress _ _ _ _ Hrun). simpl. clear Hrun H.
  clear t1.
  destruct (exec_bind _ _ _ _ Hrest) as [(items & t1 & t3 & Hrun & Hrest' & ->)|(e & Hrun & _)];
    [|exact (audit_loop_trace urls _ O _ _ _ Hrun)].
  pose proof (audit_loop_trace urls _ O _ _ _ Hrun) as [Hno [n Hn]].
  change (skipn (40 * 0) urls) with urls in Hn.
  assert (Htail : t3 = [] \/ t3 = [CRobots site_url]).
  { destruct (exec_bind _ _ _ _ Hrest') as [(ar & t4 & t5 & Hr & Hret & ->)|(e & Hr & _)].
    - inversion Hret; subst. rewrite app_nil_r. exact (robots_part_trace _ _ _ _ Hr).
    - exact (robots_part_trace _ _ _ _ Hr). }
  split.
  - intros s l Hin. apply in_app_or in Hin. destruct Hin as [Hin|Hin]; [exact (Hno s l Hin)|].
    destruct Htail as [->| ->]; [destruct Hin|]. destruct Hin as [Hin|[]]. discriminate.
  - exists n. rewrite audited_urls_app, Hn.
    destruct Htail as [->| ->]; simpl; apply app_nil_r.
Qed.

Lemma report_stage_quiet (site_url : string) (run_audit : bool) (mode : string)
    (matches : list MatchResult) (summary : MatchSummary)
    (gsc_before_map gsc_after_map : gmap string Metrics)
    (urgent : list UrgentAction + list AuditAction)
    (redirects_csv manual_csv : string) (audit_results : list AuditItem) :
  quiet (report_stage flags site_url run_audit mode matches summary gsc_before_map
                      gsc_after_map urgent redirects_csv manual_csv audit_results).
Proof. unfold report_stage. quiet. Qed.

Lemma analyse_trace (inp : Inputs) (gsc_before_rows gsc_after_rows : list GscRow)
    (site_url : string) (audit_limit : Z) :
  traces (analyse flags inp gsc_before_rows gsc_after_rows site_url audit_limit)
         (audit_trace (py_take (audit_cap audit_limit) (map row_url (in_new_rows inp)))).
Proof.
  unfold analyse.
  repeat (apply traces_quiet_then; [solve [quiet] | apply audit_trace_nil | intros ?]).
  apply traces_then_quiet.
  - intros t r H. exact (audit_stage_trace _ _ _ _ _ _ H).
  - intros items. apply report_stage_quiet.
Qed.

(** The input stage calls the crawler at most once, with the clamped cap. *)
Lemma read_inputs_trace (old_raw new_raw site_url : string) (run_audit crawl_site : bool)
    (crawl_limit : Z) :
  traces (read_inputs old_raw new_raw site_url run_audit crawl_site crawl_limit)
         (fun t => t = [] \/ t = [CDiscover site_url (crawl_cap crawl_limit)]).
Proof.
  unfold read_inputs.
  apply traces_quiet_then; [solve [quiet] | now left | intros _].
  destruct (nonempty old_raw && nonempty new_raw).
  { intros t r H. left. revert t r H. change (quiet ?p) with (quiet p). quiet. }
  destruct (crawl_site && nonempty (strip site_url));
    [|intros t r H; left; exact (quiet_ret _ _ _ H)].
  apply traces_quiet_then; [solve [quiet] | now left | intros _].
  apply traces_quiet_then; [solve [quiet] | now left | intros _].
  intros t r H. exec_inv H; [|right; reflexivity].
  right. f_equal.
  match goal with H : exec _ _ _ |- _ => revert H end. apply quiet_bind; [|intros ?]; quiet.
Qed.

(** A run of [perform_analysis]: at most one crawl, with the clamped cap,
    and then the audit of the first URLs of a list cut at the clamped
    limit. *)
Lemma perform_analysis_trace
    (old_raw new_raw gsc_before_raw gsc_after_raw site_url : string)
    (run_audit : bool) (audit_limit : Z) (crawl_site : bool) (crawl_limit : Z)
    (t : list call) (r : res Package) :
  exec (perform_analysis flags old_raw new_raw gsc_before_raw gsc_after_raw site_url
                         run_audit audit_limit crawl_site crawl_limit) t r ->
  exists t0 t1 urls,
    t = (t0 ++ t1)%list
    /\ (t0 = [] \/ t0 = [CDiscover site_url (crawl_cap crawl_limit)])
    /\ audit_trace (py_take (audit_cap audit_limit) urls) t1.
Proof.
  unfold perform_analysis. intros H.
  destruct (exec_bind _ _ _ _ H) as [(inp & t0 & t1 & Hrun & Hrest & ->)|(e & Hrun & _)].
  - exists t0, t1, (map row_url (in_new_rows inp)).
    split; [reflexivity|]. split; [exact (read_inputs_trace _ _ _ _ _ _ _ _ Hrun)|].
    revert Hrest. generalize t1 r. clear.
    change (traces ?p (audit_trace ?u)) with (traces p (audit_trace u)).
    apply traces_quiet_then; [unfold read_gsc; solve [quiet] | apply audit_trace_nil|].
    intros [gsc_before_rows errors].
    apply traces_quiet_then; [unfold read_gsc; solve [quiet] | apply audit_trace_nil|].
    intros [gsc_after_rows errors'].
    apply traces_quiet_then; [unfold validate; solve [quiet] | apply audit_trace_nil|].
    intros _. apply analyse_trace.
  - exists t, [], [].
    split; [symmetry; apply app_nil_r|].
    split; [exact (read_inputs_trace _ _ _ _ _ _ _ _ Hrun) | apply audit_trace_nil].
Qed.

(** C10: in every run of [perform_analysis], whatever the callbacks and
    the collaborators do, a call of site discovery is given the cap
    [min(max(crawl_limit, 10), 2000)], which lies between 10 and 2000, and
    the URLs handed to the auditor over the whole run are at most
    [min(max(audit_limit, 1), 500)], so at most 500. *)
Theorem limits_are_clamped
    (old_raw new_raw gsc_before_raw gsc_after_raw site_url : string)
    (run_audit : bool) (audit_limit : Z) (crawl_site : bool) (crawl_limit : Z)
    (t : list call) (r : res Package) :
  exec (perform_analysis flags old_raw new_raw gsc_before_raw gsc_after_raw site_url
                         run_audit audit_limit crawl_site crawl_limit) t r ->
  (forall s l, In (CDiscover s l) t ->
     l = Z.min (Z.max crawl_limit 10) 2000 /\ 10 <= l <= 2000)
  /\ Z.of_nat (length (audited_urls t)) <= Z.min (Z.max audit_limit 1) 500
  /\ Z.of_nat (length (audited_urls t)) <= 500.
Proof.
  intros H.
  destruct (perform_analysis_trace _ _ _ _ _ _ _ _ _ _ _ H)
    as (t0 & t1 & urls & -> & Ht0 & Hno & n & Hn).
  assert (Hcap : audit_cap audit_limit = Z.min (Z.max audit_limit 1) 500)
    by (unfold audit_cap; lia).
  assert (Haud : Z.of_nat (length (audited_urls (t0 ++ t1))) <= audit_cap audit_limit).
  { rewrite audited_urls_app, Hn.
    replace (audited_urls t0) with (@nil string) by (destruct Ht0 as [-> | ->]; reflexivity).
    simpl. rewrite length_firstn.
    pose proof (py_take_length (audit_cap audit_limit) urls ltac:(unfold audit_cap; lia)).
    lia. }
  split; [|lia].
  intros s l Hin. apply in_app_or in Hin. destruct Hin as [Hin|Hin]; [|destruct (Hno s l Hin)].
  destruct Ht0 as [-> | ->]; [destruct Hin|].
  destruct Hin as [Hin|[]]. injection Hin as <- <-. unfold crawl_cap. lia.
Qed.

End WithLibs.

(** A run in the thread of the caller is one of the runs [exec] describes. *)
Lemma run_sync_exec {U : UrlLib} {R : ReLib} {W : Type} {NW : Net W} {A : Type}
    (fuel : nat) (uuid : string) (p : prog A) (w w' : W) (r : res A) (t : list call) :
  run_sync fuel uuid p w = Some (r, t, w') -> exec p t r.
Proof.
  revert w w' r t.
  induction p as [a|e|pc msg k IH|k IH|s l k IH|us k IH|s k IH|k IH]; intros w w' r t H;
    simpl in H.
  - injection H as <- <- <-. constructor.
  - injection H as <- <- <-. constructor.
  - constructor. exact (IH _ _ _ _ H).
  - constructor. exact (IH _ _ _ _ H).
  - destruct (discover_site_urls fuel s l w) as [[[found|e] w1]|]; [| |discriminate].
    + destruct (run_sync fuel uuid (k found) w1) as [[[r1 t1] w2]|] eqn:Hk; [|discriminate].
      injection H as <- <- <-. econstructor. exact (IH _ _ _ _ _ Hk).
    + injection H as <- <- <-. constructor.
  - destruct (run_quick_audit us w) as [items w1].
    destruct (run_sync fuel uuid (k items) w1) as [[[r1 t1] w2]|] eqn:Hk; [|discriminate].
    injection H as <- <- <-. econstructor. exact (IH _ _ _ _ _ Hk).
  - destruct (check_robots_and_sitemap s w) as [[checks|e] w1].
    + destruct (run_sync fuel uuid (k checks) w1) as [[[r1 t1] w2]|] eqn:Hk; [|discriminate].
      injection H as <- <- <-. econstructor. exact (IH _ _ _ _ _ Hk).
    + injection H as <- <- <-. constructor.
  - econstructor. exact (IH _ _ _ _ _ H).
Qed.

(** A shop of three pages, one of them gone, with a sitemap. *)
Definition shop : Ref.Site :=
  [("https://shop.example/sitemap.xml",
    mkResponse 200
      ("<urlset><url><loc>https://shop.example/</loc></url>"
       +:+ "<url><loc>https://shop.example/urun/siyah-elbise</loc></url>"
       +:+ "<url><loc>https://shop.example/app.js</loc></url></urlset>")
      "https://shop.example/sitemap.xml");
   ("https://shop.example",
    mkResponse 200
      ("<a href='/kategori/elbise'>Elbise</a><a href='/assets/logo.png'>Logo</a>"
       +:+ "<a href='https://other.example/'>Other</a>")
      "https://shop.example/");
   ("https://shop.example/", mkResponse 200 "<title>Shop</title>" "https://shop.example/");
   ("https://shop.example/kategori/elbise",
    mkResponse 200 "<a href='/urun/siyah-elbise'>Siyah elbise</a>"
               "https://shop.example/kategori/elbise");
   ("https://shop.example/urun/siyah-elbise",
    mkResponse 404 "Not found" "https://shop.example/urun/siyah-elbise");
   ("https://shop.example/robots.txt",
    mkResponse 200 "User-agent: *" "https://shop.example/robots.txt")].

Definition all_flags : FeatureFlags := mkFlags true true true.

(** A scan of the shop asked for with limits beyond the caps. *)
Definition scan_request : Request :=
  mkRequest EmptyString EmptyString EmptyString EmptyString "shop.example" false 9000 true 9000.

Definition scan_run : option (res Package * list call * list string) :=
  Eval vm_compute in
    @run_sync Ref.url_lib Ref.re_lib _ (Ref.net shop) _ 50 "1b4e28ba-2fa1-11d2-883f-0016d3cca427"
      (@program_of Ref.url_lib Ref.diff_lib Ref.num_lib Ref.csv_lib all_flags scan_request) [].

Definition scan_trace : list call :=
  Eval vm_compute in match scan_run with Some (_, t, _) => t | None => [] end.

Definition scan_result : res Package :=
  Eval vm_compute in
    match scan_run with Some (r, _, _) => r | None => Raise JobCancelled end.

Lemma limits_are_clamped_witness :
  scan_trace = [CDiscover "shop.example" 2000;
                CQuickAudit ["https://shop.example/"; "https://shop.example/urun/siyah-elbise";
                             "https://shop.example/kategori/elbise"];
                CRobots "shop.example"]
  /\ (forall s l, In (CDiscover s l) scan_trace ->
        l = Z.min (Z.max 9000 10) 2000 /\ 10 <= l <= 2000)
  /\ Z.of_nat (length (audited_urls scan_trace)) <= Z.min (Z.max 9000 1) 500
  /\ Z.of_nat (length (audited_urls scan_trace)) <= 500.
Proof.
  split; [reflexivity|].
  apply (@limits_are_clamped Ref.url_lib Ref.diff_lib Ref.num_lib Ref.csv_lib all_flags
           EmptyString EmptyString EmptyString EmptyString "shop.example" false 9000 true 9000
           scan_trace scan_result).
  apply (@run_sync_exec Ref.url_lib Ref.re_lib _ (Ref.net shop) _ 50
           "1b4e28ba-2fa1-11d2-883f-0016d3cca427" _ [] 
           (match scan_run with Some (_, _, w) => w | None => [] end)).
  vm_compute. reflexivity.
Defined.

End PipelineFacts.

(** ** The job table *)

Module JobFacts.
Import PyStr Matching Audit Main.

(** What a call of [update_job] leaves in the table: the other jobs are
    as they were; the job has its new status and progress, and its
    cancellation flag as before, unless it was missing and the estimate
    raised. *)
Lemma update_job_spec (now : float) (j : string) (u : JobUpdate) (jobs jobs' : gmap string Job)
    (r : res unit) :
  update_job now j u jobs = (r, jobs') ->
  (forall j', j' <> j -> jobs' !! j' = jobs !! j')
  /\ ((jobs !! j = None /\ jobs' !! j = None /\ u_progress u < 100 /\ exists e, r = Raise e)
      \/ exists job',
           jobs' !! j = Some job'
           /\ j_status job' = u_status u
           /\ j_progress job' = u_progress u
           /\ j_cancel_requested job' = j_cancel_requested (default no_job (jobs !! j))
           /\ (100 <= u_progress u -> j_eta_seconds job' = Some 0 /\ r = Ok tt)).
Proof.
  unfold update_job.
  set (current := apply_update u (default no_job (jobs !! j))).
  assert (Hcur : j_status current = u_status u /\ j_progress current = u_progress u
                 /\ j_cancel_requested current = j_cancel_requested (default no_job (jobs !! j)))
    by (unfold current, apply_update; simpl; tauto).
  destruct Hcur as [Hs [Hp Hc]].
  destruct ((0 <? j_started_epoch current)%float && (0 <? j_progress current)
            && (j_progress current <? 100) && String.eqb (j_status current) "running")
    eqn:Hcond.
  - assert (Hlt : j_progress current < 100).
    { apply andb_prop in Hcond. destruct Hcond as [Hcond _].
      apply andb_prop in Hcond. destruct Hcond as [_ Hlt]. lia. }
    destruct (eta_estimate now (j_started_epoch current) (j_progress current)) as [eta|e].
    + intros H. injection H as <- <-. split.
      * intros j' Hne. apply lookup_insert_ne. congruence.
      * right. eexists. split; [apply lookup_insert_eq|]. simpl.
        split; [exact Hs|]. split; [exact Hp|]. split; [exact Hc|]. lia.
    + destruct (jobs !! j) as [job|] eqn:Hj.
      * intros H. injection H as <- <-. split.
        -- intros j' Hne. apply lookup_insert_ne. congruence.
        -- right. eexists. split; [apply lookup_insert_eq|].
           split; [exact Hs|]. split; [exact Hp|]. split; [exact Hc|]. lia.
      * intros H. injection H as <- <-. split; [reflexivity|].
        left. split; [reflexivity|]. split; [exact Hj|]. split; [lia|]. eexists. reflexivity.
  - destruct (Z.leb_spec 100 (j_progress current)) as [Hge|Hlt].
    + intros H. injection H as <- <-. split.
      * intros j' Hne. apply lookup_insert_ne. congruence.
      * right. eexists. split; [apply lookup_insert_eq|]. simpl.
        split; [exact Hs|]. split; [exact Hp|]. split; [exact Hc|]. tauto.
    + intros H. injection H as <- <-. split.
      * intros j' Hne. apply lookup_insert_ne. congruence.
      * right. eexists. split; [apply lookup_insert_eq|].
        split; [exact Hs|]. split; [exact Hp|]. split; [exact Hc|]. lia.
Qed.

Lemma progress_update_range (percent : Z) (message : string) :
  u_status (progress_update percent message) = "running"
  /\ 1 <= u_progress (progress_update percent message) <= 99.
Proof. unfold progress_update. simpl. split; [reflexivity | lia]. Qed.

(** Every final update sets progress 100 with a final status. *)
Lemma failure_update_final (uuid : string) (e : exn) :
  is_terminal (u_status (failure_update uuid e)) = true
  /\ u_progress (failure_update uuid e) = 100.
Proof. destruct e; simpl; split; reflexivity. Qed.

Section WithLibs.
Context {U : UrlLib} {D : DiffLib} {N : NumLib} {C : CsvLib} {R : ReLib}.
Context {W : Type} {NW : Net W}.
Variable flags : FeatureFlags.

(** Whether a checkpoint of a job stops it. *)
Definition stops (job : option Job) : bool :=
  j_cancel_requested (default no_job job) && CANCEL_JOB flags.

Lemma check_cancel_stops (j : string) (jobs : gmap string Job) :
  check_cancel flags j jobs = if stops (jobs !! j) then Raise JobCancelled else Ok tt.
Proof. reflexivity. Qed.

(** A call that is neither a checkpoint nor the end of the program. *)
Definition is_call {A : Type} (p : prog A) : bool :=
  match p with
  | Discover _ _ _ | QuickAudit _ _ | RobotsCheck _ _ | Uuid4 _ => true
  | _ => false
  end.

(** What a step of the thread of a job does to its worker and to its entry
    of the table. *)
Inductive work_view (uuid : string) : worker -> option Job -> worker -> option Job -> Prop :=
| wv_progress pc msg k job :
    work_view uuid (Running (Progress pc msg k)) job
              (if stops job then Running (Throw JobCancelled) else Updating pc msg k) job
| wv_cancel k job :
    work_view uuid (Running (CheckCancel k)) job
              (if stops job then Running (Throw JobCancelled) else Running k) job
| wv_call p p' job :
    is_call p = true -> work_view uuid (Running p) job (Running p') job
| wv_store a job : work_view uuid (Running (Ret a)) job Closing job
| wv_update pc msg k job job' wk' :
    wk' = Running k \/ (exists e, wk' = Running (Throw e)) ->
    j_status job' = "running" ->
    1 <= j_progress job' <= 99 ->
    j_cancel_requested job' = j_cancel_requested (default no_job job) ->
    work_view uuid (Updating pc msg k) job wk' (Some job')
| wv_update_missing pc msg k e :
    work_view uuid (Updating pc msg k) None (Running (Throw e)) None
| wv_close job job' :
    j_status job' = "done" ->
    j_progress job' = 100 ->
    j_eta_seconds job' = Some 0 ->
    j_cancel_requested job' = j_cancel_requested (default no_job job) ->
    work_view uuid Closing job Finished (Some job')
| wv_fail e job job' :
    j_status job' = u_status (failure_update uuid e) ->
    j_progress job' = 100 ->
    j_eta_seconds job' = Some 0 ->
    j_cancel_requested job' = j_cancel_requested (default no_job job) ->
    work_view uuid (Running (Throw e)) job Finished (Some job').

Lemma worker_step_view (j : string) (now : float) (uuid : string) (fuel : nat) (wk : worker)
    (s s' : System W) :
  worker_step flags j now uuid fuel wk s = Some s' ->
  exists wk',
    workers s' = <[j := wk']> (workers s)
    /\ (forall j', j' <> j -> JOBS s' !! j' = JOBS s !! j')
    /\ work_view uuid wk (JOBS s !! j) wk' (JOBS s' !! j).
Proof.
  destruct wk as [p|pc msg k| |]; cbn [worker_step]; [| | |discriminate].
  - destruct p as [a|e|pc msg k|k|site l k|us k|site k|k].
    + intros H. injection H as <-. eexists. split; [reflexivity|]. split; [reflexivity|].
      apply wv_store.
    + destruct (update_job now j (failure_update uuid e) (JOBS s)) as [r jobs'] eqn:Hu.
      intros H. injection H as <-. eexists. split; [reflexivity|].
      destruct (update_job_spec _ _ _ _ _ _ Hu) as [Hother Hjob]. split; [exact Hother|].
      destruct (failure_update_final uuid e) as [_ Hp]. simpl.
      destruct Hjob as [(_ & _ & Hlt & _)|(job' & Hj & Hs & Hpr & Hc & Heta)]; [lia|].
      rewrite Hj. apply wv_fail; [exact Hs | lia | apply Heta; lia | exact Hc].
    + rewrite check_cancel_stops. intros H.
      pose proof (wv_progress uuid pc msg k (JOBS s !! j)) as Hv.
      destruct (stops (JOBS s !! j)); injection H as <-;
        (eexists; split; [reflexivity|]; split; [reflexivity | exact Hv]).
    + rewrite check_cancel_stops. intros H.
      pose proof (wv_cancel uuid k (JOBS s !! j)) as Hv.
      destruct (stops (JOBS s !! j)); injection H as <-;
        (eexists; split; [reflexivity|]; split; [reflexivity | exact Hv]).
    + destruct (discover_site_urls fuel site l (world s)) as [[r w']|]; [|discriminate].
      intros H. injection H as <-. eexists. split; [reflexivity|]. split; [reflexivity|].
      apply wv_call. reflexivity.
    + destruct (run_quick_audit us (world s)) as [items w'].
      intros H. injection H as <-. eexists. split; [reflexivity|]. split; [reflexivity|].
      apply wv_call. reflexivity.
    + destruct (check_robots_and_sitemap site (world s)) as [r w'].
      intros H. injection H as <-. eexists. split; [reflexivity|]. split; [reflexivity|].
      apply wv_call. reflexivity.
    + intros H. injection H as <-. eexists. split; [reflexivity|]. split; [reflexivity|].
      apply wv_call. reflexivity.
  - destruct (update_job now j (progress_update pc msg) (JOBS s)) as [r jobs'] eqn:Hu.
    intros H. injection H as <-. eexists. split; [reflexivity|].
    destruct (update_job_spec _ _ _ _ _ _ Hu) as [Hother Hjob]. split; [exact Hother|].
    destruct (progress_update_range pc msg) as [Hst Hrange]. simpl.
    destruct Hjob as [(Hnone & Hnone' & _ & e & ->)|(job' & Hj & Hs & Hpr & Hc & _)].
    + rewrite Hnone, Hnone'. apply wv_update_missing.
    + rewrite Hj. apply wv_update; [|congruence | lia | exact Hc].
      destruct r; [left; reflexivity | right; eexists; reflexivity].
  - destruct (update_job now j done_update (JOBS s)) as [r jobs'] eqn:Hu.
    intros H. injection H as <-.
    destruct (update_job_spec _ _ _ _ _ _ Hu) as [Hother Hjob].
    destruct Hjob as [(_ & _ & Hlt & _)|(job' & Hj & Hs & Hpr & Hc & Heta)];
      [simpl in Hlt; lia|].
    destruct (Heta ltac:(simpl; lia)) as [Heta' ->].
    eexists. split; [reflexivity|]. split; [exact Hother|]. simpl.
    rewrite Hj. apply wv_close; [exact Hs | exact Hpr | exact Heta' | exact Hc].
Qed.

(** What an event does to the worker and the entry of a given job. *)
Lemma sys_step_view (l : label) (s s' : System W) (j : string) :
  sys_step flags l s = Some s' ->
  (JOBS s' !! j = JOBS s !! j /\ workers s' !! j = workers s !! j
   /\ forall now uuid fuel, l <> Work j now uuid fuel)
  \/ (exists created started req,
        l = Start j created started req
        /\ JOBS s !! j = None /\ workers s !! j = None
        /\ JOBS s' !! j = Some (new_job flags created started)
        /\ workers s' !! j = Some (Running (program_of flags req)))
  \/ (l = Cancel j
      /\ exists job,
           JOBS s !! j = Some job /\ is_terminal (j_status job) = false
           /\ CANCEL_JOB flags = true
           /\ JOBS s' !! j = Some (request_cancel job)
           /\ workers s' !! j = workers s !! j)
  \/ (exists now uuid fuel wk wk',
        l = Work j now uuid fuel
        /\ workers s !! j = Some wk /\ workers s' !! j = Some wk'
        /\ work_view uuid wk (JOBS s !! j) wk' (JOBS s' !! j)).
Proof.
  destruct l as [j0 created started req|j0|j0 now uuid fuel]; cbn [sys_step].
  - destruct (ASYNC_ANALYSIS flags); [|discriminate].
    destruct (JOBS s !! j0) eqn:Hj; [discriminate|].
    destruct (workers s !! j0) eqn:Hw; [discriminate|].
    intros H. injection H as <-. simpl.
    destruct (decide (j = j0)) as [->|Hne].
    + right. left. exists created, started, req.
      rewrite !lookup_insert_eq. tauto.
    + left. rewrite !lookup_insert_ne by congruence. split; [reflexivity|].
      split; [reflexivity | discriminate].
  - intros H. injection H as <-. simpl. unfold analyze_cancel.
    destruct (CANCEL_JOB flags) eqn:Hflag; simpl;
      [|left; split; [reflexivity|]; split; [reflexivity | discriminate]].
    destruct (JOBS s !! j0) as [job|] eqn:Hj; simpl;
      [|left; split; [reflexivity|]; split; [reflexivity | discriminate]].
    destruct (is_terminal (j_status job)) eqn:Hterm; simpl;
      [left; split; [reflexivity|]; split; [reflexivity | discriminate]|].
    destruct (decide (j = j0)) as [->|Hne].
    + right. right. left. split; [reflexivity|]. exists job.
      rewrite lookup_insert_eq. tauto.
    + left. rewrite lookup_insert_ne by congruence. split; [reflexivity|].
      split; [reflexivity | discriminate].
  - destruct (workers s !! j0) as [wk|] eqn:Hw; [|discriminate].
    intros H. destruct (worker_step_view _ _ _ _ _ _ _ H) as (wk' & Hws & Hother & Hview).
    destruct (decide (j = j0)) as [->|Hne].
    + right. right. right. exists now, uuid, fuel, wk, wk'.
      rewrite Hws, lookup_insert_eq. tauto.
    + left. rewrite Hws, lookup_insert_ne by congruence. split; [exact (Hother _ Hne)|].
      split; [reflexivity|]. congruence.
Qed.

(** The audit calls made for a job. *)
Definition calls_of (j : string) (log : list (string * list string)) : list (list string) :=
  map snd (List.filter (fun c => String.eqb (fst c) j) log).

(** Only the worker that returns stores a result, and only a worker at a
    call of the auditor adds to the audit calls of its job. *)
Lemma sys_step_outputs (l : label) (s s' : System W) (j : string) :
  sys_step flags l s = Some s' ->
  (RESULTS s' !! j = RESULTS s !! j \/ exists a, workers s !! j = Some (Running (Ret a)))
  /\ (calls_of j (audit_calls s') = calls_of j (audit_calls s)
      \/ exists us k, workers s !! j = Some (Running (QuickAudit us k))).
Proof.
  destruct l as [j0 created started req|j0|j0 now uuid fuel]; cbn [sys_step].
  - destruct (ASYNC_ANALYSIS flags); [|discriminate].
    destruct (JOBS s !! j0); [discriminate|]. destruct (workers s !! j0); [discriminate|].
    intros H. injection H as <-. simpl. tauto.
  - intros H. injection H as <-. simpl. tauto.
  - destruct (workers s !! j0) as [wk|] eqn:Hw; [|discriminate].
    destruct wk as [p|pc msg k| |]; cbn [worker_step]; [| | |discriminate].
    + destruct p as [a|e|pc msg k|k|site lim k|us k|site k|k].
      * intros H. injection H as <-. simpl. split; [|tauto].
        destruct (decide (j = j0)) as [->|Hne]; [right; eauto|].
        left. apply lookup_insert_ne. congruence.
      * destruct (update_job _ _ _ _). intros H. injection H as <-. simpl. tauto.
      * destruct (check_cancel _ _ _); intros H; injection H as <-; simpl; tauto.
      * intros H. injection H as <-. simpl. tauto.
      * destruct (discover_site_urls _ _ _ _) as [[r w']|]; [|discriminate].
        intros H. injection H as <-. simpl. tauto.
      * destruct (run_quick_audit _ _) as [items w'].
        intros H. injection H as <-. simpl. split; [tauto|].
        destruct (decide (j = j0)) as [->|Hne]; [right; eauto|].
        left. unfold calls_of. rewrite List.filter_app. simpl.
        destruct (String.eqb_spec j0 j) as [->|_]; [congruence|].
        rewrite app_nil_r. reflexivity.
      * destruct (check_robots_and_sitemap _ _) as [r w'].
        intros H. injection H as <-. simpl. tauto.
      * intros H. injection H as <-. simpl. tauto.
    + destruct (update_job _ _ _ _). intros H. injection H as <-. simpl. tauto.
    + destruct (update_job _ _ _ _). intros H. injection H as <-. simpl. tauto.
Qed.

(** What holds of every job of the table, and of its worker. *)
Definition job_ok (job : Job) (wk : option worker) : Prop :=
  wk <> None
  /\ (is_terminal (j_status job) = true ->
      j_progress job = 100 /\ j_eta_seconds job = Some 0 /\ wk = Some Finished)
  /\ (is_terminal (j_status job) = false ->
      j_status job = "running" /\ 1 <= j_progress job <= 99 /\ wk <> Some Finished).

Definition jobs_ok (s : System W) : Prop :=
  forall j job, JOBS s !! j = Some job -> job_ok job (workers s !! j).

Lemma work_view_not_finished (uuid : string) (job job' : option Job) (wk' : worker) :
  ~ work_view uuid Finished job wk' job'.
Proof. intros H. inversion H. Qed.

Lemma jobs_ok_step (l : label) (s s' : System W) :
  sys_step flags l s = Some s' -> jobs_ok s -> jobs_ok s'.
Proof.
  intros H I j job' Hj.
  destruct (sys_step_view l s s' j H) as
    [(Hjobs & Hws & _)
    |[(created & started & req & _ & _ & _ & Hnew & Hw)
     |[(_ & job & Hold & Hterm & _ & Hnew & Hw)
      |(now & uuid & fuel & wk & wk' & _ & Hw & Hw' & Hview)]]].
  - rewrite Hws. apply I. congruence.
  - rewrite Hw. rewrite Hnew in Hj. injection Hj as <-. unfold job_ok. simpl.
    split; [discriminate|]. split; [discriminate|]. intros _.
    split; [reflexivity|]. split; [lia | discriminate].
  - rewrite Hw. rewrite Hnew in Hj. injection Hj as <-. exact (I j job Hold).
  - rewrite Hw'. rewrite Hj in Hview.
    assert (Hsame : forall p : worker, p <> Finished -> wk <> Finished ->
                      JOBS s !! j = Some job' -> workers s !! j = Some wk ->
                      job_ok job' (Some p)).
    { intros p Hp Hwk Hold Hwold. destruct (I j job' Hold) as (_ & Hterm & Hrun).
      rewrite Hwold in Hterm, Hrun. unfold job_ok.
      split; [discriminate|]. split.
      - intros Ht. destruct (Hterm Ht) as (_ & _ & Hfin). congruence.
      - intros Ht. destruct (Hrun Ht) as (Hs & Hp' & _). split; [exact Hs|]. split; [exact Hp'|].
        congruence. }
    inversion Hview; subst.
    + apply Hsame; [destruct (stops _); discriminate | discriminate | congruence | exact Hw].
    + apply Hsame; [destruct (stops _); discriminate | discriminate | congruence | exact Hw].
    + apply Hsame; [discriminate | discriminate | congruence | exact Hw].
    + apply Hsame; [discriminate | discriminate | congruence | exact Hw].
    + unfold job_ok.
      match goal with H : j_status job' = "running" |- _ => rewrite H end. simpl.
      split; [discriminate|]. split; [discriminate|]. intros _.
      split; [reflexivity|]. split; [lia|].
      match goal with H : _ \/ _ |- _ => destruct H as [-> | [e ->]] end; discriminate.
    + unfold job_ok.
      match goal with H : j_status job' = "done" |- _ => rewrite H end. simpl.
      split; [discriminate|]. split; [tauto | discriminate].
    + unfold job_ok. destruct (failure_update_final uuid e) as [Hterm _].
      match goal with H : j_status job' = _ |- _ => rewrite H end. rewrite Hterm.
      split; [discriminate|]. split; [tauto | discriminate].
Qed.

Lemma jobs_ok_initial (w : W) : jobs_ok (initial w).
Proof. intros j job Hj. unfold initial in Hj. simpl in Hj. rewrite lookup_empty in Hj. discriminate. Qed.

Lemma jobs_ok_run (ls : list label) (s s' : System W) :
  run flags ls s = Some s' -> jobs_ok s -> jobs_ok s'.
Proof.
  revert s. induction ls as [|l ls IH]; intros s H I; simpl in H.
  - injection H as <-. exact I.
  - destruct (sys_step flags l s) as [s1|] eqn:Hstep; [|discriminate].
    exact (IH _ H (jobs_ok_step _ _ _ Hstep I)).
Qed.

(** No event changes the entry of a job that has ended. *)
Lemma terminal_step (l : label) (s s' : System W) (j : string) (job : Job) :
  jobs_ok s -> JOBS s !! j = Some job -> is_terminal (j_status job) = true ->
  sys_step flags l s = Some s' -> JOBS s' !! j = Some job.
Proof.
  intros I Hj Hterm H.
  destruct (sys_step_view l s s' j H) as
    [(Hjobs & _)
    |[(created & started & req & _ & Hnone & _)
     |[(_ & job0 & Hold & Hterm0 & _)
      |(now & uuid & fuel & wk & wk' & _ & Hw & Hw' & Hview)]]].
  - congruence.
  - congruence.
  - congruence.
  - destruct (I j job Hj) as (_ & Hfin & _). destruct (Hfin Hterm) as (_ & _ & Hwk).
    rewrite Hw in Hwk. injection Hwk as ->.
    destruct (work_view_not_finished _ _ _ _ Hview).
Qed.

Lemma terminal_run (ls : list label) (s s' : System W) (j : string) (job : Job) :
  jobs_ok s -> JOBS s !! j = Some job -> is_terminal (j_status job) = true ->
  run flags ls s = Some s' -> JOBS s' !! j = Some job.
Proof.
  revert s. induction ls as [|l ls IH]; intros s I Hj Hterm H; simpl in H.
  - injection H as <-. exact Hj.
  - destruct (sys_step flags l s) as [s1|] eqn:Hstep; [|discriminate].
    exact (IH _ (jobs_ok_step _ _ _ Hstep I) (terminal_step _ _ _ _ _ I Hj Hterm Hstep) Hterm H).
Qed.

(** C4, amended: a job of a table reached from the empty one is either
    running, with its progress between 1 and 99, or ended.  Once it has
    ended its progress is 100 and its [eta_seconds] 0, no later event changes
    any of its fields, and a cancel request leaves the table as it is and
    answers [finished] when cancellation is enabled, [disabled] (with status
    403) when it is not.  The [progress] callback only ever writes a progress
    between 1 and 99. *)
Theorem terminal_jobs_are_final (w : W) (ls : list label) (s : System W) (j : string)
    (job : Job) :
  run flags ls (initial w) = Some s ->
  JOBS s !! j = Some job ->
  (is_terminal (j_status job) = true ->
     j_progress job = 100 /\ j_eta_seconds job = Some 0
     /\ (forall ls' s', run flags ls' s = Some s' -> JOBS s' !! j = Some job)
     /\ analyze_cancel flags j (JOBS s)
        = (if CANCEL_JOB flags then ("finished", 200) else ("disabled", 403), JOBS s))
  /\ (is_terminal (j_status job) = false ->
      j_status job = "running" /\ 1 <= j_progress job <= 99)
  /\ (forall percent message, 1 <= u_progress (progress_update percent message) <= 99).
Proof.
  intros Hrun Hj.
  pose proof (jobs_ok_run _ _ _ Hrun (jobs_ok_initial w)) as I.
  destruct (I j job Hj) as (_ & Hterm & Hrunning).
  split; [|split].
  - intros Ht. destruct (Hterm Ht) as (Hp & Heta & _).
    split; [exact Hp|]. split; [exact Heta|]. split.
    + intros ls' s' H. exact (terminal_run _ _ _ _ _ I Hj Ht H).
    + unfold analyze_cancel. destruct (CANCEL_JOB flags); [|reflexivity].
      simpl. rewrite Hj, Ht. reflexivity.
  - intros Ht. destruct (Hrunning Ht) as (Hs & Hp & _). tauto.
  - intros percent message. exact (proj2 (progress_update_range percent message)).
Qed.

(** The number of steps the thread of a job takes in a list of events. *)
Fixpoint works_of (j : string) (ls : list label) : nat :=
  match ls with
  | [] => 0
  | Work j' _ _ _ :: r => if String.eqb j' j then S (works_of j r) else works_of j r
  | _ :: r => works_of j r
  end.

(** A program that starts with a checkpoint. *)
Definition at_checkpoint {A : Type} (p : prog A) : bool :=
  match p with
  | Progress _ _ _ | CheckCancel _ => true
  | _ => false
  end.

(** Where a job whose cancellation was requested at a checkpoint is, after
    [n] steps of its thread. *)
Definition cancelling (p0 : prog Package) (n : nat) (wk : option worker) (job : Job) : Prop :=
  match n with
  | 0%nat => wk = Some (Running p0)
  | 1%nat => wk = Some (Running (Throw JobCancelled))
  | _ => wk = Some Finished /\ j_status job = "cancelled"
  end.

Lemma cancelling_step (p0 : prog Package) (j : string) (l : label) (s s' : System W)
    (job : Job) (n : nat) :
  CANCEL_JOB flags = true ->
  at_checkpoint p0 = true ->
  JOBS s !! j = Some job ->
  j_cancel_requested job = true ->
  cancelling p0 n (workers s !! j) job ->
  sys_step flags l s = Some s' ->
  calls_of j (audit_calls s') = calls_of j (audit_calls s)
  /\ RESULTS s' !! j = RESULTS s !! j
  /\ exists job',
       JOBS s' !! j = Some job'
       /\ j_cancel_requested job' = true
       /\ cancelling p0 (works_of j [l] + n) (workers s' !! j) job'.
Proof.
  intros Hflag Hcp Hj Hreq Hphase H.
  assert (Hwk : forall p, workers s !! j = Some (Running p) ->
                  p = p0 \/ p = Throw JobCancelled).
  { intros p Hp. destruct n as [|[|n]]; simpl in Hphase;
      [left | right | destruct Hphase]; congruence. }
  destruct (sys_step_outputs l s s' j H) as [Hres Hcalls].
  split; [|split].
  - destruct Hcalls as [Hcalls|(us & k & Hw)]; [exact Hcalls|].
    destruct (Hwk _ Hw) as [<-|Habs]; discriminate.
  - destruct Hres as [Hres|(a & Hw)]; [exact Hres|].
    destruct (Hwk _ Hw) as [<-|Habs]; discriminate.
  - destruct (sys_step_view l s s' j H) as
      [(Hjobs & Hws & Hl)
      |[(created & started & req & _ & Hnone & _)
       |[(-> & job0 & Hold & _ & _ & Hnew & Hw)
        |(now & uuid & fuel & wk & wk' & -> & Hw & Hw' & Hview)]]].
    + exists job. rewrite Hjobs, Hws. split; [exact Hj|]. split; [exact Hreq|].
      replace (works_of j [l]) with 0%nat; [exact Hphase|].
      destruct l as [| |j0 now uuid fuel]; try reflexivity. simpl.
      destruct (String.eqb_spec j0 j) as [->|_]; [|reflexivity].
      destruct (Hl now uuid fuel eq_refl).
    + congruence.
    + exists (request_cancel job0). rewrite Hnew, Hw. split; [reflexivity|].
      split; [reflexivity|]. rewrite Hold in Hj. injection Hj as ->.
      destruct n as [|[|n]]; exact Hphase.
    + simpl. rewrite String.eqb_refl. rewrite Hw' , Hj in *.
      assert (Hstops : stops (Some job) = true) by (unfold stops; simpl; rewrite Hreq, Hflag; reflexivity).
      destruct n as [|[|n]]; simpl in Hphase.
      * rewrite Hw in Hphase. injection Hphase as ->.
        inversion Hview; subst; try discriminate.
        -- rewrite Hstops in *. exists job.
           split; [reflexivity|]. split; [exact Hreq | reflexivity].
        -- rewrite Hstops in *. exists job.
           split; [reflexivity|]. split; [exact Hreq | reflexivity].
        -- match goal with H : is_call _ = true |- _ => rewrite <- H in Hcp end.
           destruct p0; discriminate.
      * rewrite Hw in Hphase. injection Hphase as ->.
        inversion Hview; subst; [discriminate|].
        match goal with H : j_progress ?x = 100 |- _ => exists x end.
        split; [reflexivity|]. split; [simpl in *; congruence|]. simpl.
        split; [reflexivity | assumption].
      * destruct Hphase as [Hfin _]. rewrite Hw in Hfin. injection Hfin as ->.
        destruct (work_view_not_finished _ _ _ _ Hview).
Qed.

Lemma works_of_cons (j : string) (l : label) (ls : list label) :
  works_of j (l :: ls) = (works_of j [l] + works_of j ls)%nat.
Proof.
  destruct l as [| |j0 now uuid fuel]; try reflexivity. simpl.
  destruct (String.eqb j0 j); reflexivity.
Qed.

Lemma cancelling_run (p0 : prog Package) (j : string) (ls : list label) (s s' : System W)
    (job : Job) (n : nat) :
  CANCEL_JOB flags = true ->
  at_checkpoint p0 = true ->
  JOBS s !! j = Some job ->
  j_cancel_requested job = true ->
  cancelling p0 n (workers s !! j) job ->
  run flags ls s = Some s' ->
  calls_of j (audit_calls s') = calls_of j (audit_calls s)
  /\ RESULTS s' !! j = RESULTS s !! j
  /\ exists job',
       JOBS s' !! j = Some job'
       /\ cancelling p0 (works_of j ls + n) (workers s' !! j) job'.
Proof.
  intros Hflag Hcp. revert s job n.
  induction ls as [|l ls IH]; intros s job n Hj Hreq Hphase H; simpl in H.
  - injection H as <-. split; [reflexivity|]. split; [reflexivity|].
    exists job. split; [exact Hj | exact Hphase].
  - destruct (sys_step flags l s) as [s1|] eqn:Hstep; [|discriminate].
    destruct (cancelling_step _ _ _ _ _ _ _ Hflag Hcp Hj Hreq Hphase Hstep)
      as (Hc1 & Hr1 & job1 & Hj1 & Hreq1 & Hphase1).
    destruct (IH _ _ _ Hj1 Hreq1 Hphase1 H) as (Hc2 & Hr2 & job2 & Hj2 & Hphase2).
    split; [congruence|]. split; [congruence|].
    exists job2. split; [exact Hj2|].
    rewrite works_of_cons.
    replace (works_of j [l] + works_of j ls + n)%nat
      with (works_of j ls + (works_of j [l] + n))%nat by lia.
    exact Hphase2.
Qed.

(** C5: the thread of job [j] is at the first statement of the audit stage
    and the cancellation of [j] has been requested, with cancellation
    enabled.  Then, whatever else happens ([ls] is any list of events that
    can follow), the first step of the thread raises the cancellation signal
    at the checkpoint that opens the stage, and its second step ends the job
    with status [cancelled]; the thread can always take these steps; no call
    of the auditor is made for [j] and no result is stored for it. *)
Theorem cancelled_before_audit (s : System W) (j : string) (job : Job) (audit_limit : Z)
    (new_rows : list UrlRow) (site_url : string) (k : list AuditItem -> prog Package)
    (ls : list label) (s' : System W) :
  CANCEL_JOB flags = true ->
  JOBS s !! j = Some job ->
  j_cancel_requested job = true ->
  workers s !! j = Some (Running (pbind (audit_stage true audit_limit new_rows site_url) k)) ->
  run flags ls s = Some s' ->
  calls_of j (audit_calls s') = calls_of j (audit_calls s)
  /\ RESULTS s' !! j = RESULTS s !! j
  /\ (exists job',
        JOBS s' !! j = Some job'
        /\ match works_of j ls with
           | 0%nat =>
               workers s' !! j
               = Some (Running (pbind (audit_stage true audit_limit new_rows site_url) k))
           | 1%nat => workers s' !! j = Some (Running (Throw JobCancelled))
           | _ => workers s' !! j = Some Finished /\ j_status job' = "cancelled"
           end)
  /\ (workers s' !! j <> Some Finished ->
      forall now uuid fuel, exists s'', sys_step flags (Work j now uuid fuel) s' = Some s'').
Proof.
  intros Hflag Hj Hreq Hw Hrun.
  set (p0 := pbind (audit_stage true audit_limit new_rows site_url) k) in *.
  destruct (cancelling_run p0 j ls s s' job 0 Hflag eq_refl Hj Hreq Hw Hrun)
    as (Hc & Hr & job' & Hj' & Hphase).
  rewrite Nat.add_0_r in Hphase.
  split; [exact Hc|]. split; [exact Hr|]. split.
  - exists job'. split; [exact Hj'|]. unfold cancelling in Hphase.
    destruct (works_of j ls) as [|[|n]]; exact Hphase.
  - intros Hnf now uuid fuel. cbn [sys_step].
    unfold cancelling in Hphase.
    destruct (works_of j ls) as [|[|n]].
    + rewrite Hphase. unfold p0. simpl.
      destruct (check_cancel flags j (JOBS s')); eexists; reflexivity.
    + rewrite Hphase. cbn [worker_step].
      destruct (update_job _ _ _ _). eexists; reflexivity.
    + destruct Hphase as [Hfin _]. contradiction.
Qed.

End WithLibs.

(** *** Two jobs on the shop of [PipelineFacts] *)

Definition uuid_1 : string := "0f8fad5b-d9cb-469f-a165-70867728950e".

(** A job that cannot start, for it has no file and no site: its thread
    takes four steps. *)
Definition empty_request : Request :=
  mkRequest EmptyString EmptyString EmptyString EmptyString EmptyString false 150 false 200.

Definition failing_events : list label :=
  Start "job-1" "2024-05-01T10:00:00" 1714557600 empty_request
  :: repeat (Work "job-1" 1714557601 uuid_1 10) 4.

Definition run_on_shop (flags : FeatureFlags) (ls : list label) (s : System (list string))
  : option (System (list string)) :=
  @run Ref.url_lib Ref.diff_lib Ref.num_lib Ref.csv_lib Ref.re_lib _
       (Ref.net PipelineFacts.shop) flags ls s.

Definition failed_state (flags : FeatureFlags) : System (list string) :=
  match run_on_shop flags failing_events (initial []) with
  | Some s => s
  | None => initial []
  end.

Definition failed_job : Job :=
  mkJob "error" 100 "Analiz tamamlanamadi." "Analiz baslatilamadi. (Hata kodu: 0f8fad5b)"
        "0f8fad5b" "2024-05-01T10:00:00" 1714557600 (Some 0) false true.

Lemma terminal_jobs_are_final_witness :
  j_progress failed_job = 100 /\ j_eta_seconds failed_job = Some 0
  /\ (forall ls' s',
        run_on_shop PipelineFacts.all_flags ls' (failed_state PipelineFacts.all_flags) = Some s' ->
        JOBS s' !! "job-1" = Some failed_job)
  /\ analyze_cancel PipelineFacts.all_flags "job-1" (JOBS (failed_state PipelineFacts.all_flags))
     = (("finished", 200), JOBS (failed_state PipelineFacts.all_flags)).
Proof.
  refine (proj1 (@terminal_jobs_are_final Ref.url_lib Ref.diff_lib Ref.num_lib Ref.csv_lib
                   Ref.re_lib _ (Ref.net PipelineFacts.shop) PipelineFacts.all_flags []
                   failing_events (failed_state PipelineFacts.all_flags) "job-1" failed_job
                   _ _) _).
  - vm_compute. reflexivity.
  - vm_compute. reflexivity.
  - reflexivity.
Defined.

(** With cancellation switched off, a cancel request against the job that
    has ended is answered [disabled], with status 403, not [finished]. *)
Definition cancel_off : FeatureFlags := mkFlags true false true.

Lemma cancel_is_disabled_not_finished :
  JOBS (failed_state cancel_off) !! "job-1"
  = Some (mkJob "error" 100 "Analiz tamamlanamadi."
                "Analiz baslatilamadi. (Hata kodu: 0f8fad5b)" "0f8fad5b" "2024-05-01T10:00:00"
                1714557600 (Some 0) false false)
  /\ is_terminal "error" = true
  /\ fst (analyze_cancel cancel_off "job-1" (JOBS (failed_state cancel_off)))
     = ("disabled", 403).
Proof. vm_compute. split; [reflexivity|]. split; reflexivity. Qed.

(** A scan of the shop: after nine steps its thread is at the audit stage,
    and its cancellation is requested there. *)
Definition scan_events : list label :=
  (Start "job-2" "2024-05-01T10:05:00" 1714557900 PipelineFacts.scan_request
   :: repeat (Work "job-2" 1714557901 uuid_1 50) 9 ++ [Cancel "job-2"])%list.

Definition stage_state : System (list string) :=
  match run_on_shop PipelineFacts.all_flags scan_events (initial []) with
  | Some s => s
  | None => initial []
  end.

Definition stage_rows : list UrlRow :=
  [mkUrlRow "https://shop.example/" (Some "page");
   mkUrlRow "https://shop.example/urun/siyah-elbise" (Some "page");
   mkUrlRow "https://shop.example/kategori/elbise" (Some "page")].

Definition stage_matches : list MatchResult :=
  Eval vm_compute in
    match res_map (@scan_match Ref.url_lib) stage_rows with
    | Ok l => l
    | Raise _ => []
    end.

(** What follows the audit stage in this run. *)
Definition stage_rest (audit_results : list AuditItem) : prog Package :=
  @report_stage Ref.url_lib Ref.num_lib Ref.csv_lib PipelineFacts.all_flags "shop.example" true
    "scan" stage_matches (summarize_matches stage_matches 70) empty empty
    (inr (build_audit_urgent_actions audit_results))
    ("Redirect from,Redirect to" +:+ String "013" (String "010" EmptyString))
    ("old_url,onerilen_new_url,score,reason" +:+ String "013" (String "010" EmptyString))
    audit_results.

Definition stage_job : Job :=
  mkJob "running" 45 "Iptal islemi siraya alindi..." EmptyString EmptyString
        "2024-05-01T10:05:00" 1714557900 (Some 1) true true.

(** Another job starts, the thread of the scan takes its two steps, and a
    second cancel request arrives. *)
Definition later_events : list label :=
  [Start "job-3" "2024-05-01T10:06:00" 1714557960 empty_request;
   Work "job-2" 1714557961 uuid_1 50;
   Work "job-3" 1714557962 uuid_1 50;
   Work "job-2" 1714557963 uuid_1 50;
   Cancel "job-2"].

Definition cancelled_state : System (list string) :=
  match run_on_shop PipelineFacts.all_flags later_events stage_state with
  | Some s => s
  | None => initial []
  end.

Lemma cancelled_before_audit_witness :
  calls_of "job-2" (audit_calls cancelled_state) = calls_of "job-2" (audit_calls stage_state)
  /\ RESULTS cancelled_state !! "job-2" = RESULTS stage_state !! "job-2"
  /\ (exists job',
        JOBS cancelled_state !! "job-2" = Some job'
        /\ workers cancelled_state !! "job-2" = Some Finished /\ j_status job' = "cancelled")
  /\ (workers cancelled_state !! "job-2" <> Some Finished ->
      forall now uuid fuel,
      exists s'',
        @sys_step Ref.url_lib Ref.diff_lib Ref.num_lib Ref.csv_lib Ref.re_lib _
                  (Ref.net PipelineFacts.shop) PipelineFacts.all_flags
                  (Work "job-2" now uuid fuel) cancelled_state = Some s'').
Proof.
  apply (@cancelled_before_audit Ref.url_lib Ref.diff_lib Ref.num_lib Ref.csv_lib Ref.re_lib _
           (Ref.net PipelineFacts.shop) PipelineFacts.all_flags stage_state "job-2" stage_job
           9000 stage_rows "shop.example" stage_rest later_events cancelled_state).
  - reflexivity.
  - vm_compute. reflexivity.
  - reflexivity.
  - vm_compute. reflexivity.
  - vm_compute. reflexivity.
Defined.

End JobFacts.

(** ** The crawler *)

Module CrawlFacts.
Import PyStr Audit.

Lemma dedupe_onto_spec (seen l : list string) :
  NoDup (dedupe_onto seen l)
  /\ forall x, In x (dedupe_onto seen l) <-> In x l /\ ~ In x seen.
Proof.
  revert seen. induction l as [|a l IH]; intros seen; simpl.
  - split; [constructor | intros x; tauto].
  - destruct (bool_decide_reflect (a ∈ seen)) as [Hin|Hnin].
    + destruct (IH seen) as [Hnd Hmem]. split; [exact Hnd|].
      intros x. rewrite Hmem. apply list_elem_of_In in Hin.
      split; [tauto|]. intros [[->|Hx] Hs]; [contradiction | tauto].
    + destruct (IH (a :: seen)) as [Hnd Hmem]. split.
      * constructor; [|exact Hnd].
        intros Ha. apply list_elem_of_In, Hmem in Ha. destruct Ha as [_ Ha].
        apply Ha. now left.
      * intros x. simpl. rewrite Hmem. simpl.
        assert (Ha : ~ In a seen) by (intros H; apply Hnin, list_elem_of_In, H).
        split.
        -- intros [<-|[Hx Hs]]; [tauto|]. tauto.
        -- intros [[<-|Hx] Hs]; [now left|].
           destruct (string_dec a x) as [->|Hne]; [now left | right; tauto].
Qed.

(** [list(dict.fromkeys(l))] has the elements of [l], each once. *)
Lemma dedupe_NoDup (l : list string) : NoDup (dedupe l).
Proof. exact (proj1 (dedupe_onto_spec [] l)). Qed.

Lemma dedupe_In (l : list string) (x : string) : In x (dedupe l) <-> In x l.
Proof. unfold dedupe. rewrite (proj2 (dedupe_onto_spec [] l)). simpl. tauto. Qed.

Lemma NoDup_firstn {A : Type} (n : nat) (l : list A) : NoDup l -> NoDup (firstn n l).
Proof.
  intros H. rewrite <- (firstn_skipn n l) in H.
  apply NoDup_ListNoDup, List.NoDup_app_remove_r in H. apply NoDup_ListNoDup. exact H.
Qed.

Lemma In_firstn {A : Type} (n : nat) (l : list A) (x : A) : In x (firstn n l) -> In x l.
Proof. intros H. rewrite <- (firstn_skipn n l). apply in_or_app. now left. Qed.

(** A cut at a cap that is not negative. *)
Lemma py_take_cut (limit : Z) (l : list string) :
  0 <= limit ->
  NoDup l ->
  NoDup (py_take limit l)
  /\ Z.of_nat (length (py_take limit l)) <= limit
  /\ forall x, In x (py_take limit l) -> In x l.
Proof.
  intros Hl Hnd. unfold py_take. destruct (Z.leb_spec 0 limit) as [_|Hlt]; [|lia].
  split; [exact (NoDup_firstn _ _ Hnd)|]. split.
  - pose proof (firstn_le_length (Z.to_nat limit) l). rewrite length_firstn. lia.
  - intros x. apply In_firstn.
Qed.

Section WithLibs.
Context {U : UrlLib} {R : ReLib} {W : Type} {NW : Net W}.

(** What the crawler keeps: a URL of the site that the filter lets
    through. *)
Definition kept (base url : string) : Prop :=
  is_same_domain url base = Ok true /\ should_include_url url = Ok true.

(** The filter, spelled out. *)
Lemma should_include_url_true (url : string) :
  should_include_url url = Ok true ->
  exists path,
    filter_path url = Ok path
    /\ (forall part, In part EXCLUDED_PATH_PARTS -> contains part path = false)
    /\ (forall ext, In ext EXCLUDED_EXTENSIONS -> endswith path ext = false).
Proof.
  unfold should_include_url.
  destruct (filter_path url) as [path|e]; cbn [res_bind]; [|discriminate].
  destruct (existsb (fun part => contains part path) EXCLUDED_PATH_PARTS) eqn:Hparts;
    [discriminate|].
  destruct (existsb (fun ext => endswith path ext) EXCLUDED_EXTENSIONS) eqn:Hexts;
    [discriminate|].
  intros _. exists path. split; [reflexivity|]. split.
  - intros part Hin. destruct (contains part path) eqn:Hc; [|reflexivity].
    rewrite <- Hparts. symmetry. apply existsb_exists. exists part. tauto.
  - intros ext Hin. destruct (endswith path ext) eqn:Hc; [|reflexivity].
    rewrite <- Hexts. symmetry. apply existsb_exists. exists ext. tauto.
Qed.

Lemma take_sitemap_urls_kept (limit : Z) (base : string) (urls discovered out : list string) :
  Forall (kept base) discovered ->
  take_sitemap_urls limit base urls discovered = Ok out ->
  Forall (kept base) out.
Proof.
  revert discovered. induction urls as [|url rest IH]; intros discovered Hd H; simpl in H.
  - injection H as <-. exact Hd.
  - destruct (is_same_domain url base) as [same|e] eqn:Hsame; simpl in H; [|discriminate].
    destruct (if same then should_include_url url else Ok false) as [keep|e] eqn:Hkeep;
      simpl in H; [|discriminate].
    assert (Hd' : Forall (kept base)
                    (if keep then (discovered ++ [url])%list else discovered)).
    { destruct keep; [|exact Hd].
      apply Forall_app. split; [exact Hd|]. constructor; [|constructor].
      destruct same; [split; [exact Hsame | exact Hkeep] | discriminate]. }
    destruct (limit <=? Z.of_nat (length (if keep then (discovered ++ [url])%list
                                           else discovered))).
    + injection H as <-. exact Hd'.
    + exact (IH _ Hd' H).
Qed.

Lemma crawl_page_kept (limit : Z) (base : string) (response : Response)
    (visited visited' : gset string) (queue queue' found found' : list string) :
  Forall (kept base) found ->
  crawl_page limit base response visited queue found = Ok (visited', queue', found') ->
  Forall (kept base) found'.
Proof.
  intros Hf. unfold crawl_page.
  destruct (is_same_domain (final response) base) as [same|e] eqn:Hsame; simpl; [|discriminate].
  destruct same; simpl; [|intros H; injection H as <- <- <-; exact Hf].
  destruct (400 <=? status_code response); [intros H; injection H as <- <- <-; exact Hf|].
  destruct (Matching.normalize_url (final response)) as [nf|e]; simpl; [|discriminate].
  destruct (should_include_url (final response)) as [inc|e] eqn:Hinc; simpl; [|discriminate].
  destruct (extract_html_links _ _) as [links|e]; simpl; [|discriminate].
  destruct (res_fold _ links queue) as [q|e]; simpl; [|discriminate].
  intros H. injection H as <- <- <-.
  destruct inc; [|exact Hf].
  apply Forall_app. split; [exact Hf|]. constructor; [|constructor].
  split; [exact Hsame | exact Hinc].
Qed.

Lemma crawl_loop_kept (fuel : nat) (limit : Z) (base : string) (visited : gset string)
    (queue found out : list string) (w w' : W) :
  Forall (kept base) found ->
  crawl_loop fuel limit base visited queue found w = Some (Ok out, w') ->
  exists found', Forall (kept base) found' /\ out = py_take limit (dedupe found').
Proof.
  revert visited queue found w.
  induction fuel as [|fuel IH]; intros visited queue found w Hf H;
    destruct queue as [|current rest]; simpl in H.
  - injection H as <- <-. exists found. tauto.
  - destruct (limit <=? Z.of_nat (length found)); [|discriminate].
    injection H as <- <-. exists found. tauto.
  - injection H as <- <-. exists found. tauto.
  - destruct (limit <=? Z.of_nat (length found)).
    { injection H as <- <-. exists found. tauto. }
    destruct (Matching.normalize_url current) as [nc|e]; [|discriminate].
    destruct (bool_decide (nc ∈ visited)); [exact (IH _ _ _ _ Hf H)|].
    destruct (http_get current w) as [[response|e] w1]; [|exact (IH _ _ _ _ Hf H)].
    destruct (crawl_page limit base response _ rest found) as [[[v q] f]|e] eqn:Hpage;
      [|discriminate].
    exact (IH _ _ _ _ (crawl_page_kept _ _ _ _ _ _ _ _ _ Hf Hpage) H).
Qed.

(** C7: for every answer of the site, when the crawler returns a list for
    a cap that is not negative, the list has no URL twice and at most [limit]
    URLs, and each of them is on the domain of the site root and has a path
    (in lower case, [/] when it is empty) that holds none of the excluded
    parts and ends in none of the excluded extensions. *)
Theorem discovered_urls_are_clean (fuel : nat) (site_url : string) (limit : Z) (w w' : W)
    (out : list string) :
  0 <= limit ->
  discover_site_urls fuel site_url limit w = Some (Ok out, w') ->
  NoDup out
  /\ Z.of_nat (length out) <= limit
  /\ exists base,
       ensure_site_url site_url = Ok base
       /\ forall url, In url out ->
            is_same_domain url base = Ok true
            /\ exists path,
                 filter_path url = Ok path
                 /\ (forall part, In part EXCLUDED_PATH_PARTS -> contains part path = false)
                 /\ (forall ext, In ext EXCLUDED_EXTENSIONS -> endswith path ext = false).
Proof.
  intros Hlimit. unfold discover_site_urls.
  destruct (ensure_site_url site_url) as [base|e]; [|discriminate].
  destruct (fetch_sitemap_urls fuel base w) as [[sitemap_urls w1]|]; [|discriminate].
  destruct (take_sitemap_urls limit base sitemap_urls []) as [discovered|e] eqn:Htake;
    [|discriminate].
  pose proof (take_sitemap_urls_kept _ _ _ _ _ (List.Forall_nil _) Htake) as Hd.
  assert (Hfinal : forall all, Forall (kept base) all -> out = py_take limit (dedupe all) ->
            NoDup out /\ Z.of_nat (length out) <= limit
            /\ exists base0, Ok base = Ok base0
                 /\ forall url, In url out ->
                      is_same_domain url base0 = Ok true
                      /\ exists path,
                           filter_path url = Ok path
                           /\ (forall part, In part EXCLUDED_PATH_PARTS ->
                                 contains part path = false)
                           /\ (forall ext, In ext EXCLUDED_EXTENSIONS ->
                                 endswith path ext = false)).
  { intros all Hall ->.
    destruct (py_take_cut limit (dedupe all) Hlimit (dedupe_NoDup all)) as (Hnd & Hlen & Hin).
    split; [exact Hnd|]. split; [exact Hlen|]. exists base. split; [reflexivity|].
    intros url Hurl. apply Hin in Hurl. apply (proj1 (dedupe_In _ _)) in Hurl.
    rewrite List.Forall_forall in Hall. destruct (Hall url Hurl) as [Hsame Hinc].
    split; [exact Hsame | exact (should_include_url_true url Hinc)]. }
  destruct (limit <=? Z.of_nat (length discovered)).
  - intros H. injection H as <- <-. exact (Hfinal discovered Hd eq_refl).
  - destruct (crawl_internal_links fuel base limit w1) as [[[crawled|e] w2]|] eqn:Hcrawl;
      [|discriminate|discriminate].
    intros H. injection H as <- <-.
    unfold crawl_internal_links in Hcrawl.
    destruct (crawl_loop_kept _ _ _ _ _ _ _ _ _ (List.Forall_nil _) Hcrawl) as (found & Hfound & ->).
    apply (Hfinal (discovered ++ py_take limit (dedupe found))%list); [|reflexivity].
    apply Forall_app. split; [exact Hd|].
    rewrite List.Forall_forall in *. intros url Hurl. apply Hfound.
    destruct (py_take_cut limit (dedupe found) Hlimit (dedupe_NoDup found)) as (_ & _ & Hin).
    apply (proj1 (dedupe_In _ _)), Hin, Hurl.
Qed.

End WithLibs.

(** The crawl of the shop of [PipelineFacts], with room for ten URLs. *)
Lemma discovered_urls_are_clean_witness :
  let out := ["https://shop.example/"; "https://shop.example/urun/siyah-elbise";
              "https://shop.example/kategori/elbise"] in
  NoDup out
  /\ Z.of_nat (length out) <= 10
  /\ exists base,
       @ensure_site_url Ref.url_lib "shop.example" = Ok base
       /\ forall url, In url out ->
            @is_same_domain Ref.url_lib url base = Ok true
            /\ exists path,
                 @filter_path Ref.url_lib url = Ok path
                 /\ (forall part, In part EXCLUDED_PATH_PARTS -> contains part path = false)
                 /\ (forall ext, In ext EXCLUDED_EXTENSIONS -> endswith path ext = false).
Proof.
  apply (@discovered_urls_are_clean Ref.url_lib Ref.re_lib _ (Ref.net PipelineFacts.shop) 50
           "shop.example" 10 []
           ["https://shop.example/sitemap.xml"; "https://shop.example";
            "https://shop.example/kategori/elbise"; "https://shop.example/urun/siyah-elbise"]).
  - lia.
  - vm_compute. reflexivity.
Defined.

End CrawlFacts.

(** ** The auditor *)

Module AuditFacts.
Import PyStr Audit.

(** *** Sorting with a strict total order on keys *)

Section SortFacts.
Context {A K : Type} (lt : K -> K -> bool) (key : A -> K).
Hypothesis lt_irrefl : forall a, lt a a = false.
Hypothesis lt_trans : forall a b c, lt a b = true -> lt b c = true -> lt a c = true.
Hypothesis lt_total : forall a b, lt a b = false -> a <> b -> lt b a = true.

Definition before (x y : A) : Prop := lt (key x) (key y) = true.

Lemma sort_insert_perm (x : A) (l : list A) : Permutation (sort_insert lt key x l) (x :: l).
Proof.
  induction l as [|y l IH]; simpl; [reflexivity|].
  destruct (lt (key y) (key x)); [|reflexivity].
  rewrite IH. apply perm_swap.
Qed.

Lemma py_sort_perm (l : list A) : Permutation (py_sort lt key l) l.
Proof.
  induction l as [|x l IH]; simpl; [reflexivity|].
  rewrite sort_insert_perm, IH. reflexivity.
Qed.





End SortFacts.

(** *** The order of the sort keys *)








(** *** The report *)

Section WithLibs.
Context {U : UrlLib} {R : ReLib} {W : Type} {NW : Net W}.





End WithLibs.

(** C6 fails on a page that is gone and whose canonical link has an
    unbalanced bracket: its answer has status 404, the tag [404] is put on
    the list, and then [normalize_url(canonical)] raises inside the [try];
    the entry that comes out has status [0], the issue of a failed request
    and no tag [404]. *)
Definition gone : Ref.Site :=
  [("https://shop.example/eski",
    mkResponse 404 "<link rel='canonical' href='http://['>" "https://shop.example/eski")].

Lemma gone_page_has_no_404_tag :
  fst (@http_get _ (Ref.net gone) "https://shop.example/eski" [])
  = Ok (mkResponse 404 "<link rel='canonical' href='http://['>" "https://shop.example/eski")
  /\ fst (@run_quick_audit Ref.url_lib Ref.re_lib _ (Ref.net gone)
            ["https://shop.example/eski"] [])
     = [mkAudit "https://shop.example/eski" "0" "critical" "request_error: Invalid IPv6 URL"
                "http://[" EmptyString None None None]
  /\ contains "404" "request_error: Invalid IPv6 URL" = false.
Proof. vm_compute. split; [reflexivity|]. split; reflexivity. Qed.

End AuditFacts.

(** ** Slugs and their tokens *)

Module SlugFacts.
Import PyStr PyStrFacts PyFloat FloatFacts Matching.









End SlugFacts.

(** ** The exact stages of the matcher *)

Module ExactFacts.
Import PyStr Matching.



Section WithLibs.
Context {U : UrlLib} {D : DiffLib}.




End WithLibs.






End ExactFacts.

(** ** The shape of the match results *)

Module ShapeFacts.
Import PyStr PyFloat FloatFacts Matching.

Section WithLibs.
Context {U : UrlLib} {D : DiffLib}.






End WithLibs.


End ShapeFacts.

(** ** The exports of the matcher *)

Module ExportFacts.
Import PyStr PyStrFacts Matching.



Section WithLibs.
Context {U : UrlLib} {C : CsvLib} {N : NumLib}.











End WithLibs.

End ExportFacts.

(** ** Severities, site checks, sitemaps and links *)

Module SiteFacts.
Import PyStr PyStrFacts Audit.




Section WithLibs.
Context {U : UrlLib} {R : ReLib} {W : Type} {NW : Net W}.




End WithLibs.

End SiteFacts.

(** ** Sitemaps and links *)

Module SitemapFacts.
Import PyStr PyStrFacts Audit.

Lemma before_first_free (x : ascii) (s : string) : mem_char x (before_first x s) = false.
Proof.
  induction s as [|c s IH]; simpl; [reflexivity|].
  destruct (Ascii.eqb c x) eqn:E; simpl; [reflexivity|]. rewrite E. exact IH.
Qed.

(** A URL the sitemap walk keeps. *)
Definition listed (u : string) : Prop :=
  startswith_any u ["http://"; "https://"] = true /\ endswith u ".xml" = false.

Lemma loc_step_listed (locs : list string) (st : list string * list string) :
  Forall listed (snd st) -> Forall listed (snd (fold_left loc_step locs st)).
Proof.
  revert st. induction locs as [|raw locs IH]; intros st H; simpl; [exact H|].
  apply IH. unfold loc_step.
  destruct (endswith (strip raw) ".xml") eqn:Ex; [exact H|].
  destruct (startswith_any (strip raw) ["http://"; "https://"]) eqn:Es; [|exact H].
  cbn [snd]. apply Forall_app. split; [exact H|]. constructor; [|constructor]. split; assumption.
Qed.

Section WithLibs.
Context {U : UrlLib} {R : ReLib} {W : Type} {NW : Net W}.

Lemma sitemap_loop_listed (fuel : nat) :
  forall visited queue found w urls w',
    Forall listed found ->
    sitemap_loop fuel visited queue found w = Some (urls, w') ->
    NoDup urls /\ Forall listed urls.
Proof.
  induction fuel as [|fuel IH]; intros visited queue found w urls w' Hf H.
  - destruct queue; simpl in H; [|discriminate]. injection H as <- <-.
    split; [apply CrawlFacts.dedupe_NoDup|].
    rewrite List.Forall_forall in *. intros u Hu. apply Hf, CrawlFacts.dedupe_In, Hu.
  - destruct queue as [|sitemap_url queue]; simpl in H.
    + injection H as <- <-.
      split; [apply CrawlFacts.dedupe_NoDup|].
      rewrite List.Forall_forall in *. intros u Hu. apply Hf, CrawlFacts.dedupe_In, Hu.
    + destruct (bool_decide (sitemap_url ∈ visited)); [exact (IH _ _ _ _ _ _ Hf H)|].
      destruct (http_get sitemap_url w) as [[response|e] w1]; [|exact (IH _ _ _ _ _ _ Hf H)].
      destruct (400 <=? status_code response); [exact (IH _ _ _ _ _ _ Hf H)|].
      pose proof (loc_step_listed
                    (re_findall loc_pattern [IGNORECASE; DOTALL]
                                (or_else (text response) EmptyString))
                    (queue, found) Hf) as Hnext.
      destruct (fold_left loc_step _ (queue, found)) as [queue' found'].
      exact (IH _ _ _ _ _ _ Hnext H).
Qed.

Lemma sitemap_loop_more_fuel (fuel : nat) :
  forall fuel' visited queue found w out,
    (fuel <= fuel')%nat ->
    sitemap_loop fuel visited queue found w = Some out ->
    sitemap_loop fuel' visited queue found w = Some out.
Proof.
  induction fuel as [|fuel IH]; intros fuel' visited queue found w out Hle H.
  - destruct queue; simpl in H; [|discriminate]. destruct fuel'; exact H.
  - destruct fuel' as [|fuel']; [lia|].
    assert (Hle' : (fuel <= fuel')%nat) by lia.
    destruct queue as [|sitemap_url queue]; [exact H|]. simpl in H. simpl.
    destruct (bool_decide (sitemap_url ∈ visited)); [exact (IH _ _ _ _ _ _ Hle' H)|].
    destruct (http_get sitemap_url w) as [[response|e] w1]; [|exact (IH _ _ _ _ _ _ Hle' H)].
    destruct (400 <=? status_code response); [exact (IH _ _ _ _ _ _ Hle' H)|].
    destruct (fold_left loc_step _ (queue, found)) as [queue' found'].
    exact (IH _ _ _ _ _ _ Hle' H).
Qed.

(** X10: when the walk over the sitemaps of a site ends, the URLs it
    returns are pairwise distinct, each starts with [http://] or [https://]
    and none ends with [.xml]; more rounds than the walk needed give the
    same URLs and the same world. *)
Theorem sitemap_urls_listed (fuel : nat) (base_url : string) (w : W)
    (urls : list string) (w' : W) :
  fetch_sitemap_urls fuel base_url w = Some (urls, w') ->
  NoDup urls
  /\ Forall listed urls
  /\ forall fuel', (fuel <= fuel')%nat -> fetch_sitemap_urls fuel' base_url w = Some (urls, w').
Proof.
  unfold fetch_sitemap_urls. intros H.
  destruct (sitemap_loop_listed fuel _ _ _ _ _ _ (List.Forall_nil _) H) as [Hnd Hl].
  split; [exact Hnd|]. split; [exact Hl|].
  intros fuel' Hle. exact (sitemap_loop_more_fuel fuel fuel' _ _ _ _ _ Hle H).
Qed.

(** A link the page gives: the part before [#] of an [href] joined to the
    address of the page. *)
Definition link_from (page_url : string) (hrefs : list string) (link : string) : Prop :=
  startswith_any link ["http://"; "https://"] = true
  /\ mem_char "#" link = false
  /\ exists href joined,
       In href hrefs
       /\ href <> EmptyString
       /\ startswith_any (strip (lower href)) ["#"; "javascript:"; "mailto:"; "tel:"] = false
       /\ urljoin page_url href = Ok joined
       /\ link = before_first "#" joined.

(** X11: the links extracted from a page are absolute [http] or [https]
    addresses without a fragment; each is the part before [#] of a non-empty
    [href] of the page joined to the page address, the [href] being neither a
    fragment nor a [javascript:], [mailto:] or [tel:] address; and there are
    no more links than [href] values. *)
Theorem html_links_absolute (html page_url : string) (links : list string) :
  extract_html_links html page_url = Ok links ->
  Forall (link_from page_url (re_findall href_pattern [IGNORECASE] html)) links
  /\ (length links <= length (re_findall href_pattern [IGNORECASE] html))%nat.
Proof.
  unfold extract_html_links.
  set (hrefs := re_findall href_pattern [IGNORECASE] html).
  intros H.
  apply (MatchFacts.res_fold_prefix (link_of_href page_url)
           (fun pre links => Forall (link_from page_url hrefs) links
                             /\ (length links <= length pre)%nat)) in H.
  - exact H.
  - split; [constructor | simpl; lia].
  - intros pre href post s s1 Hl [Hs Hlen] Hstep.
    rewrite length_app. simpl.
    unfold link_of_href in Hstep.
    destruct href as [|c href'];
      [simpl in Hstep; injection Hstep as <-; split; [exact Hs | lia]|].
    cbn [nonempty negb] in Hstep.
    set (href := String c href') in *.
    destruct (startswith_any (strip (lower href)) ["#"; "javascript:"; "mailto:"; "tel:"])
      eqn:Eskip; [injection Hstep as <-; split; [exact Hs | lia]|].
    destruct (urljoin page_url href) as [joined|e] eqn:Ej; cbn [res_bind] in Hstep;
      [|discriminate].
    destruct (startswith_any (before_first "#" joined) ["http://"; "https://"]) eqn:Eabs;
      injection Hstep as <-; [|split; [exact Hs | lia]].
    split; [|rewrite length_app; simpl; lia].
    apply Forall_app. split; [exact Hs|]. constructor; [|constructor].
    split; [exact Eabs|]. split; [apply before_first_free|].
    exists href, joined. split; [rewrite Hl; apply in_or_app; right; now left|].
    split; [discriminate|]. repeat split; assumption.
Qed.

End WithLibs.

(** The sitemap of the shop of [PipelineFacts]. *)
Lemma sitemap_urls_listed_witness :
  let urls := ["https://shop.example/"; "https://shop.example/urun/siyah-elbise";
               "https://shop.example/app.js"] in
  NoDup urls
  /\ Forall listed urls
  /\ forall fuel', (5 <= fuel')%nat ->
       @fetch_sitemap_urls Ref.re_lib _ (Ref.net PipelineFacts.shop) fuel'
         "https://shop.example" []
       = Some (urls, ["https://shop.example/sitemap.xml"]).
Proof.
  apply (@sitemap_urls_listed Ref.re_lib _ (Ref.net PipelineFacts.shop) 5
           "https://shop.example" []).
  vm_compute. reflexivity.
Defined.

(** The links of a page with a fragment, a mail address and two links. *)
Lemma html_links_absolute_witness :
  let html := "<a href='#ust'>Ust</a><a href='mailto:a@shop.example'>Yaz</a>"
              +:+ "<a href='/urun/siyah-elbise#yorum'>Elbise</a>"
              +:+ "<a href='https://other.example/x'>Other</a>" in
  let links := ["https://shop.example/urun/siyah-elbise"; "https://other.example/x"] in
  Forall (link_from (U := Ref.url_lib) "https://shop.example/kategori/elbise"
            (@re_findall Ref.re_lib href_pattern [IGNORECASE] html)) links
  /\ (length links <= length (@re_findall Ref.re_lib href_pattern [IGNORECASE] html))%nat.
Proof.
  apply (@html_links_absolute Ref.url_lib Ref.re_lib).
  vm_compute. reflexivity.
Defined.

End SitemapFacts.

(** ** Diagnoses and urgent actions of the audit *)

Module UrgentFacts.
Import PyStr PyStrFacts Audit Main.

Definition connection_failure : string * string :=
  ("Sunucuya baglanti kurulamadi veya zaman asimi olustu.",
   "Domain/DNS/SSL erisimini kontrol et. Hosting aktif mi bak. Sonra tekrar tarama yap.").

(** An annotated item is the item with its diagnosis attached. *)
Definition annotated (a b : AuditItem) : Prop :=
  url b = url a /\ status b = status a /\ severity b = severity a /\ issues b = issues a
  /\ canonical b = canonical a /\ final_url b = final_url a /\ kind b = kind a
  /\ cause b = Some (fst (diagnose_issue a)) /\ fix_ b = Some (snd (diagnose_issue a)).

Lemma diagnose_issue_fields (a b : AuditItem) :
  url b = url a -> status b = status a -> issues b = issues a ->
  diagnose_issue b = diagnose_issue a.
Proof. intros Hu Hs Hi. unfold diagnose_issue. rewrite Hu, Hs, Hi. reflexivity. Qed.

Lemma prefix_append (p s : string) : String.prefix p (p +:+ s) = true.
Proof.
  induction p as [|c p IH]; simpl; [destruct s; reflexivity|].
  destruct (ascii_dec c c) as [_|Hne]; [exact IH | contradiction].
Qed.

Lemma contains_prefix (p s : string) : contains p (p +:+ s) = true.
Proof.
  assert (H : forall t, String.prefix p t = true -> contains p t = true)
    by (intros t Ht; destruct t; cbn [contains]; rewrite Ht; reflexivity).
  apply H, prefix_append.
Qed.

(** X12: annotating audit entries keeps every entry and its fields, in
    order, and attaches the cause and fix that [diagnose_issue] gives for it;
    annotating twice changes nothing more; and an entry whose issues start
    with [request_error], as those of a failed request do, is diagnosed as a
    connection failure whatever its status code is. *)
Theorem annotate_audit_items_spec (audit_results : list AuditItem) :
  Forall2 annotated audit_results (annotate_audit_items audit_results)
  /\ annotate_audit_items (annotate_audit_items audit_results)
     = annotate_audit_items audit_results
  /\ (forall item rest,
        issues item = "request_error" +:+ rest -> diagnose_issue item = connection_failure)
  /\ (forall url canonical e,
        diagnose_issue (audit_failure url canonical e) = connection_failure).
Proof.
  assert (Hreq : forall item rest,
             issues item = "request_error" +:+ rest -> diagnose_issue item = connection_failure).
  { intros item rest Hi. unfold diagnose_issue. rewrite Hi, lower_append.
    change (lower "request_error") with "request_error".
    rewrite contains_prefix. reflexivity. }
  split; [|split; [|split; [exact Hreq|]]].
  - induction audit_results as [|a l IH]; simpl; [constructor|].
    constructor; [|exact IH].
    unfold annotated. destruct (diagnose_issue a) as [c f]. simpl.
    repeat split; reflexivity.
  - induction audit_results as [|a l IH]; simpl; [reflexivity|].
    rewrite IH. f_equal.
    destruct (diagnose_issue a) as [c f] eqn:Ea.
    match goal with |- context [diagnose_issue ?b] => set (item := b) end.
    rewrite (diagnose_issue_fields a item) by reflexivity.
    rewrite Ea. reflexivity.
  - intros url canonical e.
    apply (Hreq _ (": " +:+ take 100 (exn_message e))). reflexivity.
Qed.

(** *** Descending sorts *)

Lemma sort_insert_desc {A : Type} (key : A -> Z) (x : A) (l : list A) :
  StronglySorted (fun a b => key b <= key a) l ->
  StronglySorted (fun a b => key b <= key a) (sort_insert (fun a b => Z.ltb b a) key x l).
Proof.
  induction l as [|y l IH]; intros Hs; simpl.
  - repeat constructor.
  - inversion Hs as [|? ? Hs' Hall]; subst.
    destruct (Z.ltb_spec (key x) (key y)) as [Hlt|Hge].
    + constructor; [exact (IH Hs')|].
      rewrite List.Forall_forall in *. intros z Hz.
      apply (Permutation_in _ (AuditFacts.sort_insert_perm _ key x l)) in Hz.
      destruct Hz as [<-|Hz]; [lia | exact (Hall z Hz)].
    + constructor; [exact Hs|].
      constructor; [exact Hge|].
      rewrite List.Forall_forall in *. intros z Hz. specialize (Hall z Hz). lia.
Qed.

Lemma py_sort_desc_sorted {A : Type} (key : A -> Z) (l : list A) :
  StronglySorted (fun a b => key b <= key a) (py_sort_desc Z.ltb key l).
Proof.
  unfold py_sort_desc. induction l as [|x l IH]; simpl; [constructor|].
  apply sort_insert_desc. exact IH.
Qed.

Lemma StronglySorted_firstn {A : Type} (R : A -> A -> Prop) (n : nat) (l : list A) :
  StronglySorted R l -> StronglySorted R (firstn n l).
Proof.
  revert n. induction l as [|x l IH]; intros n Hs; destruct n; simpl; try constructor.
  - inversion Hs; subst. apply IH. assumption.
  - inversion Hs as [|? ? Hs' Hall]; subst.
    rewrite List.Forall_forall in *. intros z Hz. apply Hall.
    exact (CrawlFacts.In_firstn _ _ _ Hz).
Qed.

Lemma urgent_of_audit_impact (item : AuditItem) :
  20 <= a_impact (urgent_of_audit item) <= 245.
Proof.
  unfold urgent_of_audit. cbn [a_impact].
  destruct (String.eqb (severity item) "critical"), (String.eqb (severity item) "warning"),
    (contains "404" (issues item)), (contains "5xx" (issues item)),
    (contains "noindex" (issues item)), (contains "canonical_mismatch" (issues item)),
    (contains "request_error" (issues item)); lia.
Qed.

(** X13: the urgent actions of an audit are the first twenty of the
    actions of its entries put in descending order of impact: there are at
    most twenty and no more than entries, each is the action of an entry,
    its impact is between 20 and 245, and no action has less impact than a
    later one or than an action left out. *)
Theorem urgent_actions_top_twenty (audit_results : list AuditItem) :
  exists ranked,
    Permutation (map urgent_of_audit audit_results) ranked
    /\ StronglySorted (fun a b => a_impact b <= a_impact a) ranked
    /\ build_audit_urgent_actions audit_results = firstn 20 ranked
    /\ (length (build_audit_urgent_actions audit_results) <= 20)%nat
    /\ (length (build_audit_urgent_actions audit_results) <= length audit_results)%nat
    /\ Forall (fun a => (exists item, In item audit_results /\ a = urgent_of_audit item)
                        /\ 20 <= a_impact a <= 245)
              (build_audit_urgent_actions audit_results).
Proof.
  exists (py_sort_desc Z.ltb a_impact (map urgent_of_audit audit_results)).
  assert (Hp : Permutation (map urgent_of_audit audit_results)
                 (py_sort_desc Z.ltb a_impact (map urgent_of_audit audit_results))).
  { symmetry. apply AuditFacts.py_sort_perm. }
  split; [exact Hp|]. split; [apply py_sort_desc_sorted|].
  assert (Hdef : build_audit_urgent_actions audit_results
                 = firstn 20 (py_sort_desc Z.ltb a_impact (map urgent_of_audit audit_results)))
    by reflexivity.
  split; [exact Hdef|]. rewrite Hdef.
  split; [apply firstn_le_length|].
  split.
  - rewrite length_firstn, <- (Permutation_length Hp), length_map. lia.
  - rewrite List.Forall_forall. intros a Ha.
    apply CrawlFacts.In_firstn in Ha.
    apply (Permutation_in _ (Permutation_sym Hp)) in Ha.
    apply in_map_iff in Ha. destruct Ha as (item & <- & Hin).
    split; [exists item; split; [exact Hin | reflexivity]|].
    apply urgent_of_audit_impact.
Qed.

End UrgentFacts.
